(** * Loan-dataset EDA reports: borrower profile and credit history

    A shallow embedding of [src/eda_borrower.py] and
    [src/eda_credit_history.py].

    The two Python modules are thin compositions of pandas calls over a
    DataFrame held by a report object.  The embedding therefore has three
    layers:

    - [Py]: the Python features the code relies on: exceptions, insertion
      ordered dicts, and a small state-and-exception monad in which the
      methods of the report objects run;
    - [Pd]: the pandas operations the code calls, each modelled after its
      documented behaviour;
    - [Borrower] and [Credit]: the two source modules, translated
      statement by statement, with the report object as a record of the
      frame and the target name: what each method computes.

    A second translation, [Heap] with [BorrowerObj] and [CreditObj], runs
    the same statements over a store of objects: there the report object
    holds a reference to the dataset, and the lists and dicts that the
    methods build are allocated and filled in place.  It is the setting
    for what the methods do to the objects around them, and it is shown
    to compute what the first translation computes.

    Numbers.  float64 values are idealised as exact rationals ([Qc],
    canonical so that equality is Leibniz) with a separate [NaN]; the two
    statistics that need a square root (standard deviation and Pearson
    correlation) are valued in the real numbers.  Rounding error is not
    modelled.

    Frames.  A frame is a list of labelled columns over the default
    integer index, with lookup by label finding the first match (labels
    are taken to be unique); a column is a dtype tag and a list of
    cells, and a cell is missing, a number or text.  Categorical, datetime and
    extension dtypes are outside the model.  Numeric operations look at
    the cells, as Python does: they raise when they meet text.

    pandas versions.  The one behaviour the code depends on that changed
    between pandas 2 and 3, the default of [groupby(observed=...)], is a
    parameter of the credit module. *)

From Stdlib Require Import String.
From Stdlib Require Import List ZArith QArith Qcanon Qround.
From Stdlib Require Import Reals Lia Lra Bool Permutation Sorted.
Import ListNotations.

Close Scope Qc_scope.
Close Scope Q_scope.
Open Scope string_scope.
Open Scope list_scope.
Open Scope nat_scope.

(* ================================================================== *)
(** * Python: exceptions, dicts, and the method monad                  *)
(* ================================================================== *)

Module Py.

(** The exceptions that the modelled calls can raise.  A [KeyError]
    carries the label that was not found; the text that pandas puts
    around the label in the message is not modelled. *)
Inductive exn : Type :=
| KeyError (key : string)
| TypeError
| ValueError.

Inductive Result (A : Type) : Type :=
| Ok (a : A)
| Err (e : exn).
Arguments Ok {A} a.
Arguments Err {A} e.

Definition rbind {A B} (r : Result A) (k : A -> Result B) : Result B :=
  match r with
  | Ok a => k a
  | Err e => Err e
  end.

Definition is_err {A} (r : Result A) : Prop :=
  match r with Ok _ => False | Err _ => True end.

(** Insertion-ordered dict with string keys: [d[k] = v] overwrites in
    place when [k] is present and appends otherwise. *)
Definition dict (V : Type) : Type := list (string * V).

Fixpoint dict_set {V} (d : dict V) (k : string) (v : V) : dict V :=
  match d with
  | [] => [(k, v)]
  | (k', v') :: d' =>
      if String.eqb k' k then (k', v) :: d' else (k', v') :: dict_set d' k v
  end.

(** A dict display [{k1: v1, k2: v2, ...}] inserts its items left to
    right. *)
Definition dict_literal {V} (items : list (string * V)) : dict V :=
  fold_left (fun d kv => dict_set d (fst kv) (snd kv)) items [].

Definition keys {V} (d : dict V) : list string := map fst d.

Fixpoint dict_get {V} (d : dict V) (k : string) : option V :=
  match d with
  | [] => None
  | (k', v) :: d' => if String.eqb k' k then Some v else dict_get d' k
  end.

Section Monad.
(** [S] is the type of the object a method is called on. *)
Variable S : Type.

Definition M (A : Type) : Type := S -> Result A * S.

Definition ret {A} (a : A) : M A := fun s => (Ok a, s).

Definition raise {A} (e : exn) : M A := fun s => (Err e, s).

Definition bind {A B} (m : M A) (k : A -> M B) : M B :=
  fun s =>
    match m s with
    | (Ok a, s') => k a s'
    | (Err e, s') => (Err e, s')
    end.

(** Read and write the receiver.  No report method uses [put]. *)
Definition get : M S := fun s => (Ok s, s).
Definition put (s' : S) : M unit := fun _ => (Ok tt, s').

(** Run a library call that may raise. *)
Definition lift {A} (r : Result A) : M A := fun s => (r, s).

(** [acc = []; for x in xs: acc.append(body(x))]. *)
Fixpoint for_append {A B} (body : A -> M B) (xs : list A) (acc : list B)
  : M (list B) :=
  match xs with
  | [] => ret acc
  | x :: xs' => bind (body x) (fun b => for_append body xs' (acc ++ [b]))
  end.

(** [d = dict(); for x in xs: d[key(x)] = body(x)]. *)
Fixpoint for_setitem {A V} (key : A -> string) (body : A -> M V)
    (xs : list A) (d : dict V) : M (dict V) :=
  match xs with
  | [] => ret d
  | x :: xs' =>
      bind (body x) (fun v => for_setitem key body xs' (dict_set d (key x) v))
  end.

(** A computation that leaves the receiver as it found it. *)
Definition readonly {A} (m : M A) : Prop := forall s, snd (m s) = s.
End Monad.

Arguments ret {S A} a.
Arguments raise {S A} e.
Arguments bind {S A B} m k.
Arguments get {S}.
Arguments put {S} s'.
Arguments lift {S A} r.
Arguments for_append {S A B} body xs acc.
Arguments for_setitem {S A V} key body xs d.
Arguments readonly {S A} m.

End Py.
Import Py.

Declare Scope py_scope.
Delimit Scope py_scope with py.
Notation "x <- m ;; k" := (bind m (fun x => k))
  (at level 61, m at next level, right associativity) : py_scope.
Notation "x <~ r ;; k" := (rbind r (fun x => k))
  (at level 61, r at next level, right associativity) : py_scope.
Open Scope py_scope.

(* ================================================================== *)
(** * pandas: the operations the reports call                          *)
(* ================================================================== *)

Module Pd.

(** ** Values *)

(** One entry of a column: missing ([NaN]/[None]), a number, or text. *)
Inductive cell : Type :=
| NA
| Num (q : Qc)
| Str (s : string).

(** The dtypes a column of the loan table can carry.  Dates read from a
    file are text and so [Object]. *)
Inductive Dtype : Type := Int64 | Float64 | Boolean | Object.

Record Series : Type := mkSeries { dtypes : Dtype; values : list cell }.

(** A frame with the default integer index [0 .. index_len-1]. *)
Record DataFrame : Type :=
  mkDataFrame { index_len : nat; columns : list (string * Series) }.

Definition is_text (c : cell) : bool :=
  match c with Str _ => true | _ => false end.

Definition no_text (s : Series) : bool :=
  forallb (fun c => negb (is_text c)) (values s).

(** Only an [Object] column can hold text. *)
Definition wf_series (s : Series) : bool :=
  match dtypes s with
  | Object => true
  | _ => no_text s
  end.

(** What pandas guarantees of any frame: every column spans the whole
    index and is well typed. *)
Definition wf_df (d : DataFrame) : bool :=
  forallb (fun c => (length (values (snd c)) =? index_len d)
                    && wf_series (snd c)) (columns d).

(** A float64 result whose value is rational, or NaN. *)
Inductive float64 : Type := NaN | Fin (q : Qc).

(** A float64 result that passed through a square root, or NaN. *)
Inductive real64 : Type := RNaN | RFin (r : R).

Definition nat2Qc (n : nat) : Qc := Q2Qc (inject_Z (Z.of_nat n)).

Definition Qc_ltb (x y : Qc) : bool :=
  match (x ?= y)%Qc with Lt => true | _ => false end.

Definition Qc_leb (x y : Qc) : bool :=
  match (x ?= y)%Qc with Gt => false | _ => true end.

Definition cell_eqb (a b : cell) : bool :=
  match a, b with
  | NA, NA => true
  | Num p, Num q => Qc_eq_bool p q
  | Str s, Str t => String.eqb s t
  | _, _ => false
  end.

(** The order used to sort group keys: numbers before text. *)
Definition cell_leb (a b : cell) : bool :=
  match a, b with
  | NA, _ => true
  | _, NA => false
  | Num p, Num q => Qc_leb p q
  | Num _, Str _ => true
  | Str _, Num _ => false
  | Str s, Str t => String.leb s t
  end.

Definition dtype_eqb (a b : Dtype) : bool :=
  match a, b with
  | Int64, Int64 | Float64, Float64 | Boolean, Boolean | Object, Object => true
  | _, _ => false
  end.

(** [np.number]: integer and floating dtypes; bool and object are not. *)
Definition is_number (t : Dtype) : bool :=
  match t with Int64 | Float64 => true | _ => false end.

(** ** Column access *)

Fixpoint find_col (cols : list (string * Series)) (name : string)
  : option Series :=
  match cols with
  | [] => None
  | (n, s) :: cols' => if String.eqb n name then Some s else find_col cols' name
  end.

Definition has_col (d : DataFrame) (name : string) : bool :=
  match find_col (columns d) name with Some _ => true | None => false end.

Definition has_cols (d : DataFrame) (names : list string) : bool :=
  forallb (has_col d) names.

(** [df[col]]. *)
Definition getitem (d : DataFrame) (col : string) : Result Series :=
  match find_col (columns d) col with
  | Some s => Ok s
  | None => Err (KeyError col)
  end.

Fixpoint getitem_cols (d : DataFrame) (cols : list string)
  : Result (list (string * Series)) :=
  match cols with
  | [] => Ok []
  | c :: cols' =>
      s <~ getitem d c ;;
      rest <~ getitem_cols d cols' ;;
      Ok ((c, s) :: rest)
  end.

(** [df[[c1, c2, ...]]]: the sub-frame with these columns, in this
    order; a [KeyError] when one is absent. *)
Definition getitem_list (d : DataFrame) (cols : list string)
  : Result DataFrame :=
  cs <~ getitem_cols d cols ;;
  Ok {| index_len := index_len d; columns := cs |}.

(** [df.select_dtypes(include='number')]. *)
Definition select_dtypes_number (d : DataFrame) : DataFrame :=
  {| index_len := index_len d;
     columns := filter (fun c => is_number (dtypes (snd c))) (columns d) |}.

(** [df.dtypes.values]. *)
Definition frame_dtypes (d : DataFrame) : list Dtype :=
  map (fun c => dtypes (snd c)) (columns d).

(** [t in array_of_dtypes]. *)
Definition dtype_in (t : Dtype) (ts : list Dtype) : bool :=
  existsb (dtype_eqb t) ts.

(** ** Missing values and distinct values *)

Definition isna_cell (c : cell) : bool :=
  match c with NA => true | _ => false end.

(** [s.isna()]. *)
Definition isna (s : Series) : list bool := map isna_cell (values s).

(** [.sum()] of a boolean column. *)
Definition sum_bool (l : list bool) : nat := length (filter (fun b => b) l).

(** [.mean()] of a boolean column; NaN when it is empty. *)
Definition mean_bool (l : list bool) : float64 :=
  match l with
  | [] => NaN
  | _ => Fin (nat2Qc (sum_bool l) / nat2Qc (length l))%Qc
  end.

Definition dropna (l : list cell) : list cell :=
  filter (fun c => negb (isna_cell c)) l.

(** [s.count()]. *)
Definition count (s : Series) : nat := length (dropna (values s)).

(** Distinct values in order of first appearance. *)
Fixpoint unique_by {A} (eqb : A -> A -> bool) (l : list A) : list A :=
  match l with
  | [] => []
  | x :: t => x :: filter (fun y => negb (eqb y x)) (unique_by eqb t)
  end.

Definition unique : list cell -> list cell := unique_by cell_eqb.

(** [s.nunique(dropna=True)]. *)
Definition nunique (s : Series) : nat := length (unique (dropna (values s))).

Definition count_cell (v : cell) (l : list cell) : nat :=
  length (filter (cell_eqb v) l).

(** ** Frequencies *)

(** Insert keeping counts in descending order; among equal counts the
    earlier entry stays first. *)
Fixpoint insert_desc (x : cell * nat) (l : list (cell * nat))
  : list (cell * nat) :=
  match l with
  | [] => [x]
  | y :: l' =>
      if snd y <=? snd x then x :: y :: l' else y :: insert_desc x l'
  end.

Definition sort_desc (l : list (cell * nat)) : list (cell * nat) :=
  fold_right insert_desc [] l.

(** [s.value_counts()]: the non-missing distinct values with their
    number of occurrences, most frequent first.  pandas does not fix the
    order among equal counts; the model keeps first appearance. *)
Definition value_counts (s : Series) : list (cell * nat) :=
  let data := dropna (values s) in
  sort_desc (map (fun v => (v, count_cell v data)) (unique data)).

(** [.head(n)]: the first [n] entries, or all but the last [-n] when
    [n] is negative. *)
Definition head {A} (n : Z) (l : list A) : list A :=
  if (0 <=? n)%Z then firstn (Z.to_nat n) l
  else firstn (length l - Z.to_nat (- n)) l.

(** ** Numeric reductions *)

(** View a column as floats; text cannot be converted and raises [e]. *)
Fixpoint to_numeric (e : exn) (l : list cell) : Result (list (option Qc)) :=
  match l with
  | [] => Ok []
  | NA :: l' => xs <~ to_numeric e l' ;; Ok (None :: xs)
  | Num q :: l' => xs <~ to_numeric e l' ;; Ok (Some q :: xs)
  | Str _ :: _ => Err e
  end.

Fixpoint somes {A} (l : list (option A)) : list A :=
  match l with
  | [] => []
  | Some a :: l' => a :: somes l'
  | None :: l' => somes l'
  end.

Definition Qc_sum (l : list Qc) : Qc := fold_right Qcplus 0%Qc l.

(** Mean of the non-missing entries, in exact arithmetic; NaN when
    there are none. *)
Definition mean_floats (xs : list (option Qc)) : float64 :=
  match somes xs with
  | [] => NaN
  | v => Fin (Qc_sum v / nat2Qc (length v))%Qc
  end.

(** [s.mean()]. *)
Definition mean (s : Series) : Result float64 :=
  xs <~ to_numeric TypeError (values s) ;;
  Ok (mean_floats xs).

Definition Qc2R (q : Qc) : R := Q2R (this q).

Definition Rsum (l : list R) : R := fold_right Rplus 0%R l.

Definition Rmean (l : list R) : R := (Rsum l / INR (length l))%R.

(** Sum of products of deviations from the means. *)
Definition codev (p : list (R * R)) : R :=
  let mx := Rmean (map fst p) in
  let my := Rmean (map snd p) in
  Rsum (map (fun xy => ((fst xy - mx) * (snd xy - my))%R) p).

Definition sqdev (l : list R) : R := codev (combine l l).

(** Sample standard deviation (ddof = 1) of the non-missing entries;
    NaN with fewer than two of them. *)
Definition std_floats (xs : list (option Qc)) : real64 :=
  let v := map Qc2R (somes xs) in
  if length v <? 2 then RNaN
  else RFin (sqrt (sqdev v / INR (length v - 1))).

(** [s.std()]. *)
Definition std (s : Series) : Result real64 :=
  xs <~ to_numeric TypeError (values s) ;;
  Ok (std_floats xs).

(** Rows where both entries are present. *)
Fixpoint valid_pairs (xs ys : list (option Qc)) : list (Qc * Qc) :=
  match xs, ys with
  | Some x :: xs', Some y :: ys' => (x, y) :: valid_pairs xs' ys'
  | _ :: xs', _ :: ys' => valid_pairs xs' ys'
  | _, _ => []
  end.

Definition clip (lo hi x : R) : R := Rmax lo (Rmin hi x).

(** [np.corrcoef(a, b)[0, 1]]: covariance over the product of the two
    standard deviations; numpy clips the quotient to [-1, 1] to absorb
    rounding.  NaN (0/0) for a single observation, and in exact
    arithmetic for a constant input; in float64 the rounded variance
    of a constant input need not be 0. *)
Definition corrcoef (p : list (R * R)) : real64 :=
  if length p <? 2 then RNaN
  else
    let n1 := INR (length p - 1) in
    let vx := (sqdev (map fst p) / n1)%R in
    let vy := (sqdev (map snd p) / n1)%R in
    if Req_dec_T vx 0 then RNaN
    else if Req_dec_T vy 0 then RNaN
    else RFin (clip (-1) 1 (codev p / n1 / sqrt vx / sqrt vy)).

(** [a.corr(b)] (Pearson, [min_periods] = 1) for two columns of one
    frame: only rows where both are present count. *)
Definition corr (a b : Series) : Result real64 :=
  match values a with
  | [] => Ok RNaN
  | _ =>
      xs <~ to_numeric ValueError (values a) ;;
      ys <~ to_numeric ValueError (values b) ;;
      let valid := valid_pairs xs ys in
      if length valid <? 1 then Ok RNaN
      else Ok (corrcoef (map (fun xy => (Qc2R (fst xy), Qc2R (snd xy))) valid))
  end.

(** ** Quantiles and quantile binning *)

Fixpoint insert_asc (x : Qc) (l : list Qc) : list Qc :=
  match l with
  | [] => [x]
  | y :: l' => if Qc_leb x y then x :: y :: l' else y :: insert_asc x l'
  end.

Definition sort_asc (l : list Qc) : list Qc := fold_right insert_asc [] l.

(** The [p]-quantile of non-empty [data] by linear interpolation between
    the two order statistics around position [p * (n - 1)], in exact
    arithmetic. *)
Definition quantile (data : list Qc) (p : Qc) : Qc :=
  let s := sort_asc data in
  let n := length s in
  let pos := (p * nat2Qc (n - 1))%Qc in
  let lo := Z.to_nat (Qfloor pos) in
  let hi := Nat.min (lo + 1) (n - 1) in
  let frac := (pos - nat2Qc lo)%Qc in
  let a := nth lo s 0%Qc in
  let b := nth hi s 0%Qc in
  (a + (b - a) * frac)%Qc.

(** [s.quantile(p)]: NaN when nothing is present. *)
Definition quantile_floats (xs : list (option Qc)) (p : Qc) : float64 :=
  match somes xs with
  | [] => NaN
  | data => Fin (quantile data p)
  end.

Definition min_floats (xs : list (option Qc)) : float64 :=
  match somes xs with
  | [] => NaN
  | x :: data => Fin (fold_left (fun m y => if Qc_leb y m then y else m) data x)
  end.

Definition max_floats (xs : list (option Qc)) : float64 :=
  match somes xs with
  | [] => NaN
  | x :: data => Fin (fold_left (fun m y => if Qc_leb m y then y else m) data x)
  end.

(** [np.linspace(0, 1, q + 1)]: [0, 1/q, ..., q/q]; just [0] for
    [q = 0]. *)
Definition linspace01 (q : nat) : list Qc :=
  map (fun i => (nat2Qc i / nat2Qc q)%Qc) (seq 0 (q + 1)).

(** An interval-valued categorical: for each row the position of its
    category (or none), and the categories [(left, right]] in order.
    pandas rounds the interval ends for display and lowers the first
    left end so that it covers the minimum; the model keeps the raw
    edges. *)
Record Categorical : Type :=
  mkCategorical { codes : list (option nat); categories : list (Qc * Qc) }.

(** [bins.searchsorted(x, side='left')] on ascending [bins]: how many
    edges lie strictly below [x]. *)
Definition searchsorted_left (bins : list Qc) (x : Qc) : nat :=
  length (filter (fun b => Qc_ltb b x) bins).

(** [IntervalIndex.from_breaks]. *)
Definition from_breaks (bins : list Qc) : list (Qc * Qc) :=
  combine bins (tl bins).

(** The binning step of [cut]/[qcut] with [right=True],
    [include_lowest=True], [duplicates='drop']: repeated edges are
    collapsed (unless there are exactly two edges), a value equal to the
    first edge goes to the first bin, and a value that lands outside the
    edges gets no bin. *)
Definition bins_to_cuts (xs : list (option Qc)) (bins : list Qc)
  : Categorical :=
  let unique_bins := unique_by Qc_eq_bool bins in
  let bins :=
    if (length unique_bins <? length bins) && negb (length bins =? 2)
    then unique_bins else bins in
  let code (x : option Qc) : option nat :=
    match x with
    | None => None
    | Some v =>
        let id := searchsorted_left bins v in
        let id := if Qc_eq_bool v (hd 0%Qc bins) then 1 else id in
        if (id =? length bins) || (id =? 0) then None else Some (id - 1)
    end in
  {| codes := map code xs; categories := from_breaks bins |}.

(** [pd.qcut(x, q=q, duplicates='drop')] for an integer [q].  A column
    with nothing present has NaN edges, which collapse to a single edge
    and leave no category.  The model is that of a column with a number
    dtype: it raises on text, where pandas raises on any object column
    that is not all numbers. *)
Definition qcut (x : Series) (q : Z) : Result Categorical :=
  if (q <? 0)%Z then Err ValueError
  else
    xs <~ to_numeric TypeError (values x) ;;
    match somes xs with
    | [] => Ok {| codes := map (fun _ => None) xs; categories := [] |}
    | data =>
        Ok (bins_to_cuts xs (map (quantile data) (linspace01 (Z.to_nat q))))
    end.

(** ** Group-by *)

Fixpoint insert_cell (x : cell) (l : list cell) : list cell :=
  match l with
  | [] => [x]
  | y :: l' => if cell_leb x y then x :: y :: l' else y :: insert_cell x l'
  end.

Definition sort_cells (l : list cell) : list cell :=
  fold_right insert_cell [] l.

Fixpoint index_of (x : cell) (l : list cell) : option nat :=
  match l with
  | [] => None
  | y :: l' =>
      if cell_eqb x y then Some 0
      else match index_of x l' with Some i => Some (S i) | None => None end
  end.

(** A grouped frame: the group of each row (none when its key is
    missing), the label of each group in result order, the name of the
    key, and whether groups without rows are left out of results. *)
Record GroupBy (L : Type) : Type := mkGroupBy {
  gb_frame : DataFrame;
  gb_name : string;
  gb_labels : list L;
  gb_ids : list (option nat);
  gb_drop_unobserved : bool
}.
Arguments gb_frame {L} _.
Arguments gb_name {L} _.
Arguments gb_labels {L} _.
Arguments gb_ids {L} _.
Arguments gb_drop_unobserved {L} _.

(** One column of a grouped frame. *)
Record SeriesGroupBy (L : Type) : Type := mkSeriesGroupBy {
  sg_values : list cell;
  sg_name : string;
  sg_labels : list L;
  sg_ids : list (option nat);
  sg_drop_unobserved : bool
}.
Arguments sg_values {L} _.
Arguments sg_name {L} _.
Arguments sg_labels {L} _.
Arguments sg_ids {L} _.
Arguments sg_drop_unobserved {L} _.

(** [df.groupby(by)] for a column label: groups are the distinct
    non-missing values of the column, in sorted order; rows with a
    missing key belong to no group. *)
Definition groupby (d : DataFrame) (by_ : string) : Result (GroupBy cell) :=
  k <~ getitem d by_ ;;
  let labels := sort_cells (unique (dropna (values k))) in
  Ok {| gb_frame := d;
        gb_name := by_;
        gb_labels := labels;
        gb_ids := map (fun c => if isna_cell c then None else index_of c labels)
                      (values k);
        gb_drop_unobserved := false |}.

(** [df.groupby(key)] for a categorical [key] on the frame's index:
    groups are the categories in order.  [observed] is the value of
    pandas' [observed] option. *)
Definition groupby_categorical (observed : bool) (d : DataFrame)
    (name : string) (key : Categorical) : GroupBy (Qc * Qc) :=
  {| gb_frame := d;
     gb_name := name;
     gb_labels := categories key;
     gb_ids := codes key;
     gb_drop_unobserved := observed |}.

(** [grouped[col]]. *)
Definition gb_getitem {L} (g : GroupBy L) (col : string)
  : Result (SeriesGroupBy L) :=
  s <~ getitem (gb_frame g) col ;;
  Ok {| sg_values := values s;
        sg_name := gb_name g;
        sg_labels := gb_labels g;
        sg_ids := gb_ids g;
        sg_drop_unobserved := gb_drop_unobserved g |}.

Definition in_group (i : nat) (id : option nat) : bool :=
  match id with Some j => j =? i | None => false end.

(** The entries of [xs] on the rows of group [i]. *)
Definition members {A} (ids : list (option nat)) (xs : list A) (i : nat)
  : list A :=
  map snd (filter (fun p => in_group i (fst p)) (combine ids xs)).

Definition enumerate {A} (l : list A) : list (nat * A) :=
  combine (seq 0 (length l)) l.

(** The groups that appear in a result, with their positions. *)
Definition result_groups {L} (g : SeriesGroupBy L) : list (nat * L) :=
  filter (fun il => negb (sg_drop_unobserved g)
                    || existsb (in_group (fst il)) (sg_ids g))
         (enumerate (sg_labels g)).

(** [.mean()] of a grouped column. *)
Definition sgb_mean {L} (g : SeriesGroupBy L) : Result (list (L * float64)) :=
  ts <~ to_numeric TypeError (sg_values g) ;;
  Ok (map (fun il => (snd il, mean_floats (members (sg_ids g) ts (fst il))))
          (result_groups g)).

(** One row of the bucket report. *)
Record BucketRow : Type := mkBucketRow {
  bucket : Qc * Qc;
  n_loans : nat;
  default_rate : float64
}.

(** A frame given by its column labels and its rows. *)
Record RowFrame (Row : Type) : Type := mkRowFrame {
  rf_columns : list string;
  rf_rows : list Row
}.
Arguments mkRowFrame {Row} rf_columns rf_rows.
Arguments rf_columns {Row} _.
Arguments rf_rows {Row} _.

(** An aggregation result, still indexed by the group labels. *)
Record Aggregated : Type := mkAggregated {
  ag_index_name : string;
  ag_rows : list BucketRow
}.

(** [.agg(n_loans="count", default_rate="mean")] of a grouped column. *)
Definition sgb_agg_count_mean (g : SeriesGroupBy (Qc * Qc))
  : Result Aggregated :=
  ts <~ to_numeric TypeError (sg_values g) ;;
  Ok {| ag_index_name := sg_name g;
        ag_rows :=
          map (fun il =>
                 let m := members (sg_ids g) ts (fst il) in
                 {| bucket := snd il;
                    n_loans := length (somes m);
                    default_rate := mean_floats m |})
              (result_groups g) |}.

(** [.reset_index()]: the group labels become the first column, named
    after the grouping key.  pandas refuses to insert a column whose
    name is already taken; the model covers grouping keys with another
    name than the two aggregates, as every credit column has. *)
Definition reset_index (a : Aggregated) : RowFrame BucketRow :=
  {| rf_columns := [ag_index_name a; "n_loans"; "default_rate"];
     rf_rows := ag_rows a |}.

(** ** describe *)

Inductive scalar : Type :=
| SInt (n : nat)
| SFloat (f : float64)
| SReal (r : real64)
| SCell (c : cell).

(** A labelled table, stored by rows. *)
Record Table : Type := mkTable {
  t_index : list string;
  t_columns : list string;
  t_data : list (list scalar)
}.

Definition heads {A} (rows : list (list A)) : list A :=
  flat_map (fun r => match r with x :: _ => [x] | [] => [] end) rows.

Fixpoint transpose {A} (ncols : nat) (rows : list (list A)) : list (list A) :=
  match ncols with
  | 0 => []
  | S k => heads rows :: transpose k (map (@tl A) rows)
  end.

(** [table.T]. *)
Definition T (t : Table) : Table :=
  {| t_index := t_columns t;
     t_columns := t_index t;
     t_data := transpose (length (t_columns t)) (t_data t) |}.

Definition numeric_stats : list string :=
  ["count"; "mean"; "std"; "min"; "25%"; "50%"; "75%"; "max"].

Definition categorical_stats : list string :=
  ["count"; "unique"; "top"; "freq"].

Definition describe_numeric_1d (s : Series) : Result (list scalar) :=
  xs <~ to_numeric TypeError (values s) ;;
  Ok [SInt (length (somes xs));
      SFloat (mean_floats xs);
      SReal (std_floats xs);
      SFloat (min_floats xs);
      SFloat (quantile_floats xs (Q2Qc (1 # 4)));
      SFloat (quantile_floats xs (Q2Qc (1 # 2)));
      SFloat (quantile_floats xs (Q2Qc (3 # 4)));
      SFloat (max_floats xs)].

Definition describe_categorical_1d (s : Series) : list scalar :=
  let vc := value_counts s in
  [SInt (count s); SInt (length vc)] ++
  match vc with
  | [] => [SCell NA; SFloat NaN]
  | (top, freq) :: _ => [SCell top; SInt freq]
  end.

Fixpoint describe_numeric_cols (cols : list (string * Series))
  : Result (list (list scalar)) :=
  match cols with
  | [] => Ok []
  | (_, s) :: cols' =>
      d <~ describe_numeric_1d s ;;
      ds <~ describe_numeric_cols cols' ;;
      Ok (d :: ds)
  end.

(** [df.describe()]: the numeric columns only when there is one,
    otherwise every column with the statistics for non-numeric data.
    One table row per statistic, one table column per described
    column. *)
Definition describe (d : DataFrame) : Result Table :=
  match columns d with
  | [] => Err ValueError
  | _ =>
      match columns (select_dtypes_number d) with
      | [] =>
          Ok {| t_index := categorical_stats;
                t_columns := map fst (columns d);
                t_data := transpose (length categorical_stats)
                            (map (fun c => describe_categorical_1d (snd c))
                                 (columns d)) |}
      | num =>
          ds <~ describe_numeric_cols num ;;
          Ok {| t_index := numeric_stats;
                t_columns := map fst num;
                t_data := transpose (length numeric_stats) ds |}
      end
  end.

End Pd.
Import Pd.

(* ================================================================== *)
(** * src/eda_borrower.py                                              *)
(* ================================================================== *)

Module Borrower.

Definition BORROWER_COLS : list string :=
  [ "id"; "member_id";
    "emp_title"; "emp_length";
    "home_ownership";
    "annual_inc"; "annual_inc_joint";
    "verification_status"; "verification_status_joint";
    "zip_code"; "addr_state";
    "purpose"; "title"; "desc";
    "issue_d"; "pymnt_plan"; "policy_code";
    "url" ].

(** The report object: the frame and the name of the target column. *)
Record BorrowerProfileEDA : Type := mkBorrowerProfileEDA {
  df : DataFrame;
  target_col : string
}.

(** [__init__]; [target_col] defaults to ["loan_status"]. *)
Definition init (d : DataFrame) (target_col : string) : BorrowerProfileEDA :=
  {| df := d; target_col := target_col |}.

Definition Method (A : Type) : Type := M BorrowerProfileEDA A.

(** [self.df], [self.target_col] and [self.df[col]]. *)
Definition self_df : Method DataFrame := self <- get ;; ret (df self).
Definition self_target_col : Method string :=
  self <- get ;; ret (target_col self).
Definition self_df_getitem (col : string) : Method Series :=
  d <- self_df ;; lift (getitem d col).

(** One row of the structure table; the Python code builds it as a dict
    over these five keys. *)
Record SummaryRow : Type := mkSummaryRow {
  column : string;
  dtype : Dtype;
  n_missing : nat;
  missing_pct : float64;
  n_unique : nat
}.

Definition structure_summary : Method (RowFrame SummaryRow) :=
  dataframe_list <-
    for_append (fun col =>
      let columns_name := col in
      dtype <- (s <- self_df_getitem col ;; ret (dtypes s)) ;;
      n_missing <- (s <- self_df_getitem col ;; ret (sum_bool (isna s))) ;;
      missing_pct <- (s <- self_df_getitem col ;; ret (mean_bool (isna s))) ;;
      n_unique <- (s <- self_df_getitem col ;; ret (nunique s)) ;;
      ret {| column := columns_name;
             dtype := dtype;
             n_missing := n_missing;
             missing_pct := missing_pct;
             n_unique := n_unique |})
      BORROWER_COLS [] ;;
  ret (mkRowFrame ["column"; "dtype"; "n_missing"; "missing_pct"; "n_unique"]
                  dataframe_list).

Definition income_summary : Method Table :=
  d <- self_df ;;
  sub <- lift (getitem_list d ["annual_inc"; "annual_inc_joint"]) ;;
  t <- lift (describe sub) ;;
  ret (T t).

Definition categorical_freqs (max_levels : Z)
  : Method (dict (list (cell * nat))) :=
  let list_of_dict_variables := ["home_ownership"; "addr_state"; "purpose"] in
  for_setitem (fun var => var)
    (fun var => s <- self_df_getitem var ;;
                ret (head max_levels (value_counts s)))
    list_of_dict_variables [].

Definition default_rate_by_category (col : string)
  : Method (list (cell * float64)) :=
  d <- self_df ;;
  g <- lift (groupby d col) ;;
  t <- self_target_col ;;
  sg <- lift (gb_getitem g t) ;;
  lift (sgb_mean sg).

(** The results a step can produce ([Any] in the source). *)
Inductive Any : Type :=
| AStructure (r : RowFrame SummaryRow)
| AIncome (t : Table)
| AFreqs (d : dict (list (cell * nat)))
| ARates (s : list (cell * float64)).

(** A bound method or lambda stored in the steps dict: a suspended call
    on the report object. *)
Definition callable {A} (inj : A -> Any) (m : Method A) : Method Any :=
  x <- m ;; ret (inj x).

Definition borrower_eda_steps : dict (Method Any) :=
  dict_literal
    [ ("structure", callable AStructure structure_summary);
      ("income", callable AIncome income_summary);
      ("freqs", callable AFreqs (categorical_freqs 10));
      ("default_by_home_ownership",
        callable ARates (default_rate_by_category "home_ownership"));
      ("default_by_purpose",
        callable ARates (default_rate_by_category "purpose")) ].

Definition run_borrower_eda_pipeline : Method (dict Any) :=
  for_setitem (fun kv => fst kv) (fun kv => snd kv) borrower_eda_steps [].

End Borrower.

(* ================================================================== *)
(** * src/eda_credit_history.py                                        *)
(* ================================================================== *)

Module Credit.

Definition CREDIT_NUMERIC_COLS : list string :=
  [ "dti"; "dti_joint";
    "delinq_2yrs";
    "mths_since_last_delinq"; "mths_since_last_record";
    "mths_since_last_major_derog";
    "open_acc"; "total_acc"; "pub_rec"; "acc_now_delinq";
    "revol_bal"; "revol_util"; "total_rev_hi_lim";
    "tot_coll_amt"; "tot_cur_bal"; "total_bal_il";
    "open_acc_6m"; "open_il_6m"; "open_il_12m"; "open_il_24m";
    "mths_since_rcnt_il";
    "open_rv_12m"; "open_rv_24m";
    "max_bal_bc";
    "all_util";
    "inq_last_6mths"; "inq_last_12m"; "inq_fi";
    "collections_12_mths_ex_med" ].

Record CreditHistoryEDA : Type := mkCreditHistoryEDA {
  df : DataFrame;
  target_col : string
}.

Definition init (d : DataFrame) (target_col : string) : CreditHistoryEDA :=
  {| df := d; target_col := target_col |}.

Definition Method (A : Type) : Type := M CreditHistoryEDA A.

Definition self_df : Method DataFrame := self <- get ;; ret (df self).
Definition self_target_col : Method string :=
  self <- get ;; ret (target_col self).
Definition self_df_getitem (col : string) : Method Series :=
  d <- self_df ;; lift (getitem d col).

Record SummaryRow : Type := mkSummaryRow {
  column : string;
  dtype : Dtype;
  n_missing : nat;
  missing_pct : float64;
  mean : float64;
  std : real64
}.

Definition credit_structure_summary : Method (RowFrame SummaryRow) :=
  dataframe_list <-
    for_append (fun col =>
      let columns_name := col in
      dtype <- (s <- self_df_getitem col ;; ret (dtypes s)) ;;
      n_missing <- (s <- self_df_getitem col ;; ret (sum_bool (isna s))) ;;
      missing_pct <- (s <- self_df_getitem col ;; ret (mean_bool (isna s))) ;;
      is_numeric <-
        (s <- self_df_getitem col ;;
         d <- self_df ;;
         ret (dtype_in (dtypes s) (frame_dtypes (select_dtypes_number d)))) ;;
      mean_std <-
        (if is_numeric : bool then
           mean <- (s <- self_df_getitem col ;; lift (Pd.mean s)) ;;
           std <- (s <- self_df_getitem col ;; lift (Pd.std s)) ;;
           ret (mean, std)
         else ret (NaN, RNaN)) ;;
      ret {| column := columns_name;
             dtype := dtype;
             n_missing := n_missing;
             missing_pct := missing_pct;
             mean := fst mean_std;
             std := snd mean_std |})
      CREDIT_NUMERIC_COLS [] ;;
  ret (mkRowFrame ["column"; "dtype"; "n_missing"; "missing_pct"; "mean"; "std"]
                  dataframe_list).

Section Observed.
(** What [groupby] does with categories that have no rows when the
    caller does not say: kept by pandas before 3.0 ([false]), left out
    from 3.0 on ([true]).  The source does not pass the option. *)
Variable observed_default : bool.

Definition default_rate_by_bucket (col : string) (bins : Z)
  : Method (RowFrame BucketRow) :=
  buckets <- (s <- self_df_getitem col ;; lift (qcut s bins)) ;;
  grouped_buckets <-
    (d <- self_df ;;
     let g := groupby_categorical observed_default d col buckets in
     t <- self_target_col ;;
     sg <- lift (gb_getitem g t) ;;
     lift (sgb_agg_count_mean sg)) ;;
  ret (reset_index grouped_buckets).

Definition correlation_with_default : Method (list (string * real64)) :=
  list_of_corr <-
    for_append (fun col =>
      a <- self_df_getitem col ;;
      t <- self_target_col ;;
      b <- self_df_getitem t ;;
      lift (corr a b))
      CREDIT_NUMERIC_COLS [] ;;
  ret (combine CREDIT_NUMERIC_COLS list_of_corr).

Inductive Any : Type :=
| AStructure (r : RowFrame SummaryRow)
| ABuckets (r : RowFrame BucketRow)
| ACorr (s : list (string * real64)).

Definition callable {A} (inj : A -> Any) (m : Method A) : Method Any :=
  x <- m ;; ret (inj x).

(** The dict that [credit_history_report] builds first. *)
Definition step_name : dict (Method Any) :=
  dict_literal
    [ ("structure_summary", callable AStructure credit_structure_summary);
      ("dti_buckets", callable ABuckets (default_rate_by_bucket "dti" 5));
      ("revol_util_buckets",
        callable ABuckets (default_rate_by_bucket "revol_util" 5));
      ("correlation_with_default",
        callable ACorr correlation_with_default) ].

Definition credit_history_report : Method (dict Any) :=
  for_setitem (fun kv => fst kv) (fun kv => snd kv) step_name [].
End Observed.

End Credit.

(* ================================================================== *)
(** * Python objects: the store                                        *)
(* ================================================================== *)

(** In Python the report object does not contain the dataset: it holds
    a reference to a frame that the caller, and any other report
    object, can reach and change.  The lists and dicts that the methods
    build are objects too, filled in place.  This second translation
    keeps that: every object lives in a store, names and container
    slots hold references, [dict()] and [[]] allocate, and
    [d[k] = v] and [l.append(v)] write to the object they are given.
    The pandas calls of one expression are the functions of [Pd]
    applied to the frame read from the store at that moment; none of
    the calls the source makes assigns into its receiver. *)

Module Heap.

Definition ref : Type := nat.

(** What a name or a slot holds: a number, a string, a dtype, or a
    reference to an object. *)
Inductive val : Type :=
| VStr (s : string)
| VInt (n : nat)
| VFloat (x : float64)
| VReal (x : real64)
| VDtype (t : Dtype)
| VRef (r : ref).

(** The pandas objects that a report holds or hands out. *)
Inductive pandas : Type :=
| PFrame (d : DataFrame)
| PRecords (columns : list string) (rows : list (list val))
| PTable (t : Table)
| PCounts (c : list (cell * nat))
| PRates (r : list (cell * float64))
| PBuckets (b : RowFrame BucketRow)
| PLabelled (s : list (string * val)).

Inductive obj : Type :=
| Instance (df : ref) (target_col : string)
| PyList (items : list val)
| PyDict (items : dict val)
| Pandas (p : pandas).

(** Objects by address; a new object goes to the end. *)
Definition Store : Type := list obj.

Definition Cmd (A : Type) : Type := M Store A.

Definition alloc (o : obj) : Cmd ref :=
  fun st => (Ok (length st), st ++ [o]).

(** Every reference a program holds names an object; the model raises
    on any other address. *)
Definition load (r : ref) : Cmd obj :=
  fun st =>
    match nth_error st r with
    | Some o => (Ok o, st)
    | None => (Err TypeError, st)
    end.

Fixpoint update (st : Store) (r : ref) (o : obj) : Store :=
  match st, r with
  | [], _ => []
  | _ :: st', 0 => o :: st'
  | o' :: st', S r' => o' :: update st' r' o
  end.

Definition write (r : ref) (o : obj) : Cmd unit :=
  fun st => (Ok tt, update st r o).

(** [[]] and [dict()]. *)
Definition new_list : Cmd ref := alloc (PyList []).
Definition new_dict : Cmd ref := alloc (PyDict []).

(** [l.append(v)]. *)
Definition list_append (l : ref) (v : val) : Cmd unit :=
  o <- load l ;;
  match o with
  | PyList items => write l (PyList (items ++ [v]))
  | _ => raise TypeError
  end.

(** [d[k] = v]. *)
Definition dict_setitem (d : ref) (k : string) (v : val) : Cmd unit :=
  o <- load d ;;
  match o with
  | PyDict items => write d (PyDict (dict_set items k v))
  | _ => raise TypeError
  end.

(** [for x in xs: body(x)]. *)
Fixpoint for_each {A} (xs : list A) (body : A -> Cmd unit) : Cmd unit :=
  match xs with
  | [] => ret tt
  | x :: xs' => bind (body x) (fun _ => for_each xs' body)
  end.

(** [self.df] and [self.target_col]. *)
Definition getattr_df (self : ref) : Cmd ref :=
  o <- load self ;;
  match o with
  | Instance d _ => ret d
  | _ => raise TypeError
  end.

Definition getattr_target_col (self : ref) : Cmd string :=
  o <- load self ;;
  match o with
  | Instance _ t => ret t
  | _ => raise TypeError
  end.

(** The frame behind a reference, as it is now. *)
Definition frame (r : ref) : Cmd DataFrame :=
  o <- load r ;;
  match o with
  | Pandas (PFrame f) => ret f
  | _ => raise TypeError
  end.

(** [self.df[col]]. *)
Definition self_df_getitem (self : ref) (col : string) : Cmd Series :=
  d <- getattr_df self ;;
  f <- frame d ;;
  lift (getitem f col).

(** A pandas call hands out a new object. *)
Definition new (p : pandas) : Cmd val :=
  r <- alloc (Pandas p) ;; ret (VRef r).

(** One row of [pd.DataFrame(records, columns=...)]: the entry of each
    column in the record, NaN when the record has none. *)
Definition record (columns : list string) (d : dict val) : list val :=
  map (fun c => match dict_get d c with
                | Some v => v
                | None => VFloat NaN
                end) columns.

(** [pd.DataFrame(data, columns=columns)] for a list of dicts: the
    entries are copied out of the dicts. *)
Definition pd_DataFrame (data : ref) (columns : list string) : Cmd val :=
  o <- load data ;;
  match o with
  | PyList items =>
      rows <- for_append
                (fun v =>
                   match v with
                   | VRef r =>
                       o <- load r ;;
                       match o with
                       | PyDict d => ret (record columns d)
                       | _ => raise TypeError
                       end
                   | _ => raise TypeError
                   end) items [] ;;
      new (PRecords columns rows)
  | _ => raise TypeError
  end.

(** [pd.Series(data=data, index=index)] for a list: a [ValueError]
    when the lengths differ. *)
Definition pd_Series (data : ref) (index : list string) : Cmd val :=
  o <- load data ;;
  match o with
  | PyList items =>
      if length items =? length index
      then new (PLabelled (combine index items))
      else raise ValueError
  | _ => raise TypeError
  end.

End Heap.
Import Heap.

Notation "m ;;; k" := (bind m (fun _ => k))
  (at level 61, right associativity) : py_scope.

(* ================================================================== *)
(** * src/eda_borrower.py over the store                               *)
(* ================================================================== *)

Module BorrowerObj.

(** The list displays that the code only iterates over are Rocq lists;
    [dataframe_list], [empty_dict], [info_dict] and [functions_dict]
    are objects of the store. *)

Definition structure_summary (self : ref) : Cmd val :=
  dataframe_list <- new_list ;;
  for_each Borrower.BORROWER_COLS (fun col =>
    empty_dict <- new_dict ;;
    let columns_name := VStr col in
    dtype <- (s <- self_df_getitem self col ;; ret (VDtype (dtypes s))) ;;
    n_missing <-
      (s <- self_df_getitem self col ;; ret (VInt (sum_bool (isna s)))) ;;
    missing_pct <-
      (s <- self_df_getitem self col ;; ret (VFloat (mean_bool (isna s)))) ;;
    n_unique <- (s <- self_df_getitem self col ;; ret (VInt (nunique s))) ;;
    empty_dict <- new_dict ;;
    let list_of_variables :=
      ["column"; "dtype"; "n_missing"; "missing_pct"; "n_unique"] in
    let list_of_values :=
      [columns_name; dtype; n_missing; missing_pct; n_unique] in
    for_each (combine list_of_variables list_of_values)
             (fun vv => dict_setitem empty_dict (fst vv) (snd vv)) ;;;
    list_append dataframe_list (VRef empty_dict)) ;;;
  pd_DataFrame dataframe_list
    ["column"; "dtype"; "n_missing"; "missing_pct"; "n_unique"].

Definition income_summary (self : ref) : Cmd val :=
  d <- getattr_df self ;;
  f <- frame d ;;
  sub <- lift (getitem_list f ["annual_inc"; "annual_inc_joint"]) ;;
  t <- lift (describe sub) ;;
  new (PTable (T t)).

Definition categorical_freqs (max_levels : Z) (self : ref) : Cmd val :=
  let list_of_dict_variables := ["home_ownership"; "addr_state"; "purpose"] in
  info_dict <- new_dict ;;
  for_each list_of_dict_variables (fun var =>
    counts <- (s <- self_df_getitem self var ;;
               new (PCounts (head max_levels (value_counts s)))) ;;
    dict_setitem info_dict var counts) ;;;
  ret (VRef info_dict).

Definition default_rate_by_category (col : string) (self : ref) : Cmd val :=
  d <- getattr_df self ;;
  f <- frame d ;;
  g <- lift (groupby f col) ;;
  t <- getattr_target_col self ;;
  sg <- lift (gb_getitem g t) ;;
  rates <- lift (sgb_mean sg) ;;
  new (PRates rates).

(** The steps are suspended calls on [eda]; the dict that holds them is
    built and read, never written to afterwards. *)
Definition borrower_eda_steps (eda : ref) : dict (Cmd val) :=
  dict_literal
    [ ("structure", structure_summary eda);
      ("income", income_summary eda);
      ("freqs", categorical_freqs 10 eda);
      ("default_by_home_ownership", default_rate_by_category "home_ownership" eda);
      ("default_by_purpose", default_rate_by_category "purpose" eda) ].

Definition run_borrower_eda_pipeline (eda : ref) : Cmd val :=
  functions_dict <- new_dict ;;
  for_each (borrower_eda_steps eda) (fun kv =>
    result <- snd kv ;;
    dict_setitem functions_dict (fst kv) result) ;;;
  ret (VRef functions_dict).

End BorrowerObj.

(* ================================================================== *)
(** * src/eda_credit_history.py over the store                         *)
(* ================================================================== *)

Module CreditObj.

Definition credit_structure_summary (self : ref) : Cmd val :=
  dataframe_list <- new_list ;;
  for_each Credit.CREDIT_NUMERIC_COLS (fun col =>
    let columns_name := VStr col in
    dtype <- (s <- self_df_getitem self col ;; ret (VDtype (dtypes s))) ;;
    n_missing <-
      (s <- self_df_getitem self col ;; ret (VInt (sum_bool (isna s)))) ;;
    missing_pct <-
      (s <- self_df_getitem self col ;; ret (VFloat (mean_bool (isna s)))) ;;
    is_numeric <-
      (s <- self_df_getitem self col ;;
       d <- getattr_df self ;;
       f <- frame d ;;
       ret (dtype_in (dtypes s) (frame_dtypes (select_dtypes_number f)))) ;;
    mean_std <-
      (if is_numeric : bool then
         mean <- (s <- self_df_getitem self col ;;
                  m <- lift (Pd.mean s) ;; ret (VFloat m)) ;;
         std <- (s <- self_df_getitem self col ;;
                 sd <- lift (Pd.std s) ;; ret (VReal sd)) ;;
         ret (mean, std)
       else ret (VFloat NaN, VReal RNaN)) ;;
    empty_dict <- new_dict ;;
    let list_of_variables :=
      ["column"; "dtype"; "n_missing"; "missing_pct"; "mean"; "std"] in
    let list_of_values :=
      [columns_name; dtype; n_missing; missing_pct;
       fst mean_std; snd mean_std] in
    for_each (combine list_of_variables list_of_values)
             (fun vv => dict_setitem empty_dict (fst vv) (snd vv)) ;;;
    list_append dataframe_list (VRef empty_dict)) ;;;
  pd_DataFrame dataframe_list
    ["column"; "dtype"; "n_missing"; "missing_pct"; "mean"; "std"].

Section Observed.
Variable observed_default : bool.

Definition default_rate_by_bucket (col : string) (bins : Z) (self : ref)
  : Cmd val :=
  buckets <- (s <- self_df_getitem self col ;; lift (qcut s bins)) ;;
  grouped_buckets <-
    (d <- getattr_df self ;;
     f <- frame d ;;
     let g := groupby_categorical observed_default f col buckets in
     t <- getattr_target_col self ;;
     sg <- lift (gb_getitem g t) ;;
     lift (sgb_agg_count_mean sg)) ;;
  new (PBuckets (reset_index grouped_buckets)).

Definition correlation_with_default (self : ref) : Cmd val :=
  list_of_corr <- new_list ;;
  for_each Credit.CREDIT_NUMERIC_COLS (fun col =>
    correlation <-
      (a <- self_df_getitem self col ;;
       t <- getattr_target_col self ;;
       b <- self_df_getitem self t ;;
       c <- lift (corr a b) ;;
       ret (VReal c)) ;;
    list_append list_of_corr correlation) ;;;
  pd_Series list_of_corr Credit.CREDIT_NUMERIC_COLS.

Definition step_name (eda : ref) : dict (Cmd val) :=
  dict_literal
    [ ("structure_summary", credit_structure_summary eda);
      ("dti_buckets", default_rate_by_bucket "dti" 5 eda);
      ("revol_util_buckets", default_rate_by_bucket "revol_util" 5 eda);
      ("correlation_with_default", correlation_with_default eda) ].

Definition credit_history_report (eda : ref) : Cmd val :=
  let step_name := step_name eda in
  credit_history_report <- new_dict ;;
  for_each step_name (fun kv =>
    result <- snd kv ;;
    dict_setitem credit_history_report (fst kv) result) ;;;
  ret (VRef credit_history_report).
End Observed.

End CreditObj.

(* ================================================================== *)
(** * Vocabulary of the statements                                     *)
(* ================================================================== *)

(** Apply a fallible function to each element, stopping at the first
    failure. *)
Fixpoint traverse {A B} (f : A -> Result B) (xs : list A) : Result (list B) :=
  match xs with
  | [] => Ok []
  | x :: xs' => b <~ f x ;; bs <~ traverse f xs' ;; Ok (b :: bs)
  end.

(** What a computation returns when started on [s]. *)
Definition result_of {S A} (m : M S A) (s : S) : Result A := fst (m s).

(** [n / m] as pandas computes the mean of a boolean column of length
    [m] with [n] true entries: NaN for an empty column. *)
Definition ratio (n m : nat) : float64 :=
  match m with
  | 0 => NaN
  | _ => Fin (nat2Qc n / nat2Qc m)%Qc
  end.

(** The row that [structure_summary] builds for column [col] holding
    [s]. *)
Definition borrower_row (col : string) (s : Series) : Borrower.SummaryRow :=
  {| Borrower.column := col;
     Borrower.dtype := dtypes s;
     Borrower.n_missing := sum_bool (isna s);
     Borrower.missing_pct := mean_bool (isna s);
     Borrower.n_unique := nunique s |}.

(** The row that [credit_structure_summary] builds for column [col]
    holding [s] in frame [d]. *)
Definition credit_row (d : DataFrame) (col : string) (s : Series)
  : Result Credit.SummaryRow :=
  if dtype_in (dtypes s) (frame_dtypes (select_dtypes_number d)) then
    m <~ Pd.mean s ;;
    sd <~ Pd.std s ;;
    Ok {| Credit.column := col;
          Credit.dtype := dtypes s;
          Credit.n_missing := sum_bool (isna s);
          Credit.missing_pct := mean_bool (isna s);
          Credit.mean := m;
          Credit.std := sd |}
  else
    Ok {| Credit.column := col;
          Credit.dtype := dtypes s;
          Credit.n_missing := sum_bool (isna s);
          Credit.missing_pct := mean_bool (isna s);
          Credit.mean := NaN;
          Credit.std := RNaN |}.

(** The call fails and leaves the receiver alone. *)
Definition fails {S A} (m : M S A) (s : S) : Prop :=
  exists ex, m s = (Err ex, s).

(** The call fails with the [KeyError] of a column that [d] lacks. *)
Definition raises_missing {S A} (m : M S A) (s : S) (d : DataFrame) : Prop :=
  exists c, has_col d c = false /\ m s = (Err (KeyError c), s).

(** Counts in descending order. *)
Definition descending (l : list nat) : Prop :=
  Sorted (fun a b => b <= a) l.

(** [l] is an initial segment of [full]. *)
Definition prefix_of {A} (l full : list A) : Prop :=
  exists rest, full = l ++ rest.

(** A target column encoded as 0/1, with nothing missing. *)
Definition is_binary (s : Series) : bool :=
  forallb (fun c => cell_eqb c (Num 0%Qc) || cell_eqb c (Num 1%Qc)) (values s).

(** The entries of [xs] on the rows where the key column holds [key]. *)
Definition rows_where {A} (key : cell) (ks : list cell) (xs : list A)
  : list A :=
  map snd (filter (fun p => cell_eqb (fst p) key) (combine ks xs)).

(** A rate: a number between 0 and 1. *)
Definition unit_interval (f : float64) : Prop :=
  exists q, f = Fin q /\ (0 <= q)%Qc /\ (q <= 1)%Qc.

(** Every named column is there and holds no text. *)
Definition numeric_cols (d : DataFrame) (names : list string) : bool :=
  forallb (fun c => match find_col (columns d) c with
                    | Some s => no_text s
                    | None => false
                    end) names.

Definition sum_xy (l : list (R * R)) : R :=
  Rsum (map (fun ab => (fst ab * snd ab)%R) l).

Definition sum_xx (l : list (R * R)) : R :=
  Rsum (map (fun ab => (fst ab * fst ab)%R) l).

Definition sum_yy (l : list (R * R)) : R :=
  Rsum (map (fun ab => (snd ab * snd ab)%R) l).

(** The observations with their means subtracted. *)
Definition centred (p : list (R * R)) : list (R * R) :=
  map (fun xy => ((fst xy - Rmean (map fst p))%R,
                  (snd xy - Rmean (map snd p))%R)) p.

(** Pearson's coefficient of the observations [p]: the sample
    covariance over the product of the sample standard deviations. *)
Definition pearson (p : list (R * R)) : R :=
  let n1 := INR (length p - 1) in
  (codev p / n1 / sqrt (sqdev (map fst p) / n1)
   / sqrt (sqdev (map snd p) / n1))%R.

(** The rows of two numeric columns where both are present, as reals. *)
Definition real_pairs (xs ys : list (option Qc)) : list (R * R) :=
  map (fun xy => (Qc2R (fst xy), Qc2R (snd xy))) (valid_pairs xs ys).

(** A correlation result for the columns [xs] and [ys]: NaN, or their
    Pearson coefficient, which lies between -1 and 1. *)
Definition coefficient_of (xs ys : list (option Qc)) (v : real64) : Prop :=
  v = RNaN
  \/ (v = RFin (pearson (real_pairs xs ys))
      /\ (-1 <= pearson (real_pairs xs ys) <= 1)%R).

(** The [q + 1] quantile edges that [qcut] computes for a column. *)
Definition quantile_edges (s : Series) (q : nat) : list Qc :=
  match to_numeric TypeError (values s) with
  | Ok xs => map (quantile (somes xs)) (linspace01 q)
  | Err _ => []
  end.

(** The bin edges that [bins_to_cuts] works with after collapsing
    repeated edges. *)
Definition kept_bins (bins : list Qc) : list Qc :=
  let unique_bins := unique_by Qc_eq_bool bins in
  if (length unique_bins <? length bins) && negb (length bins =? 2)
  then unique_bins else bins.

(** The category position that [bins_to_cuts] gives a value, for the
    edges [bins]. *)
Definition cut_code (bins : list Qc) (x : option Qc) : option nat :=
  match x with
  | None => None
  | Some v =>
      let id := searchsorted_left bins v in
      let id := if Qc_eq_bool v (hd 0%Qc bins) then 1 else id in
      if (id =? length bins) || (id =? 0) then None else Some (id - 1)
  end.

Definition is_num (c : cell) : bool :=
  match c with Num _ => true | _ => false end.

(** A numeric column with nothing missing. *)
Definition all_present (s : Series) : bool := forallb is_num (values s).

(** No column of the frame holds text. *)
Definition text_free (d : DataFrame) : bool :=
  forallb (fun c => no_text (snd c)) (columns d).

(** The row belongs to one of the first [n] groups. *)
Definition in_groups (n : nat) (id : option nat) : bool :=
  match id with Some j => j <? n | None => false end.


(** ** Results in the store *)

(** A result with its references followed: what the caller can see of
    it, whatever the addresses. *)
#[warnings="-register-all"] Inductive tree : Type :=
| TVal (v : val)
| TList (items : list tree)
| TDict (items : list (string * tree))
| TPandas (p : pandas).

Definition is_ref (v : val) : bool :=
  match v with VRef _ => true | _ => false end.

(** [reads lo st v t]: in the store [st] the value [v] unfolds to [t],
    and every object on the way has an address from [lo] on. *)
Inductive reads (lo : nat) (st : Store) : val -> tree -> Prop :=
| reads_val v :
    is_ref v = false -> reads lo st v (TVal v)
| reads_list r items ts :
    lo <= r -> nth_error st r = Some (PyList items) ->
    reads_all lo st items ts -> reads lo st (VRef r) (TList ts)
| reads_dict r items ts :
    lo <= r -> nth_error st r = Some (PyDict items) ->
    reads_items lo st items ts -> reads lo st (VRef r) (TDict ts)
| reads_pandas r p :
    lo <= r -> nth_error st r = Some (Pandas p) ->
    reads lo st (VRef r) (TPandas p)
with reads_all (lo : nat) (st : Store) : list val -> list tree -> Prop :=
| reads_all_nil : reads_all lo st [] []
| reads_all_cons v t vs ts :
    reads lo st v t -> reads_all lo st vs ts ->
    reads_all lo st (v :: vs) (t :: ts)
with reads_items (lo : nat) (st : Store)
  : dict val -> list (string * tree) -> Prop :=
| reads_items_nil : reads_items lo st [] []
| reads_items_cons k v t vs ts :
    reads lo st v t -> reads_items lo st vs ts ->
    reads_items lo st ((k, v) :: vs) ((k, t) :: ts).

(** Two calls in a row of [m] on the report object [self], from the
    store [st]: each leaves every object that was there as it was and
    only adds objects; both fail with the same exception, or both
    return a value made of objects of their own, and the two values
    unfold to the same tree. *)
Definition repeatable_call (m : ref -> Cmd val) (st : Store) (self : ref)
  : Prop :=
  exists res1 extra1 res2 extra2,
    m self st = (res1, st ++ extra1)
    /\ m self (st ++ extra1) = (res2, (st ++ extra1) ++ extra2)
    /\ match res1, res2 with
       | Ok v1, Ok v2 =>
           exists t,
             reads (length st) (st ++ extra1) v1 t
             /\ reads (length (st ++ extra1)) ((st ++ extra1) ++ extra2) v2 t
       | Err e1, Err e2 => e1 = e2
       | _, _ => False
       end.

(** The rows of the two structure tables as pandas stores them. *)
Definition borrower_record (r : Borrower.SummaryRow) : list val :=
  [VStr (Borrower.column r); VDtype (Borrower.dtype r);
   VInt (Borrower.n_missing r); VFloat (Borrower.missing_pct r);
   VInt (Borrower.n_unique r)].

Definition credit_record (r : Credit.SummaryRow) : list val :=
  [VStr (Credit.column r); VDtype (Credit.dtype r);
   VInt (Credit.n_missing r); VFloat (Credit.missing_pct r);
   VFloat (Credit.mean r); VReal (Credit.std r)].

(** The results of the first translation as trees. *)
Definition borrower_tree (a : Borrower.Any) : tree :=
  match a with
  | Borrower.AStructure r =>
      TPandas (PRecords (rf_columns r) (map borrower_record (rf_rows r)))
  | Borrower.AIncome t => TPandas (PTable t)
  | Borrower.AFreqs d =>
      TDict (map (fun kv => (fst kv, TPandas (PCounts (snd kv)))) d)
  | Borrower.ARates s => TPandas (PRates s)
  end.

Definition credit_tree (a : Credit.Any) : tree :=
  match a with
  | Credit.AStructure r =>
      TPandas (PRecords (rf_columns r) (map credit_record (rf_rows r)))
  | Credit.ABuckets r => TPandas (PBuckets r)
  | Credit.ACorr s =>
      TPandas (PLabelled (map (fun kv => (fst kv, VReal (snd kv))) s))
  end.

Definition dict_tree {A} (f : A -> tree) (d : dict A) : tree :=
  TDict (map (fun kv => (fst kv, f (snd kv))) d).

(** In the store [st], [self] is a report object whose [df] refers to
    the frame [f] at [d], with [tc] as the target name. *)
Definition report_object (st : Store) (self d : ref) (f : DataFrame)
    (tc : string) : Prop :=
  nth_error st self = Some (Instance d tc)
  /\ nth_error st d = Some (Pandas (PFrame f)).

(** [heap] computes in the store what [pure] computes on the record
    of the frame and the target name: started on a report object it
    only adds objects to the store, fails where [pure] fails, with the
    same exception, and otherwise returns a value made of new objects
    that unfolds to the result of [pure]. *)
Definition implements {S A} (heap : ref -> Cmd val) (pure : M S A)
    (init : DataFrame -> string -> S) (enc : A -> tree) : Prop :=
  forall st self d f tc,
    report_object st self d f tc ->
    exists res extra,
      heap self st = (res, st ++ extra)
      /\ match result_of pure (init f tc) with
         | Ok a => exists v, res = Ok v
                             /\ reads (length st) (st ++ extra) v (enc a)
         | Err e => res = Err e
         end.

(** What a call on a report object does when its outcome is [o]: it
    only adds objects to the store, fails with the exception of [o], or
    returns a value made of new objects that unfolds to the tree of
    [o]. *)
Definition call_spec (self d : ref) (f : DataFrame) (tc : string)
    (call : Cmd val) (o : Result tree) : Prop :=
  forall st,
    report_object st self d f tc ->
    exists res extra,
      call st = (res, st ++ extra)
      /\ match o with
         | Ok t => exists v, res = Ok v
                             /\ reads (length st) (st ++ extra) v t
         | Err e => res = Err e
         end.

(** Later states of a store in which only the object at [w] was
    written to. *)
Definition evolves (w : ref) (st st' : Store) : Prop :=
  length st <= length st'
  /\ forall r, r < length st -> r <> w -> nth_error st' r = nth_error st r.

(** The list slot [v] refers to a dict other than [w] that
    [pd.DataFrame] turns into the row [row]. *)
Definition row_dict (columns : list string) (w : ref) (st : Store)
    (v : val) (row : list val) : Prop :=
  exists ed items,
    v = VRef ed /\ ed <> w /\ nth_error st ed = Some (PyDict items)
    /\ record columns items = row.

(** ** Sample datasets *)

Definition qz (z : Z) : Qc := Q2Qc (inject_Z z).

Definition numbers (t : Dtype) (l : list Z) : Series :=
  mkSeries t (map (fun z => Num (qz z)) l).

Definition floats (l : list (option Z)) : Series :=
  mkSeries Float64
    (map (fun o => match o with Some z => Num (qz z) | None => NA end) l).

Definition text (l : list (option string)) : Series :=
  mkSeries Object
    (map (fun o => match o with Some t => Str t | None => NA end) l).

Definition sample_home_ownership : Series :=
  text [Some "RENT"; Some "OWN"; Some "RENT"; None].

Definition sample_loan_status : Series := numbers Int64 [0; 1; 1; 0]%Z.

(** Four loans with every borrower column and the target. *)
Definition sample_borrower_df : DataFrame :=
  mkDataFrame 4
    [ ("id", numbers Int64 [1; 2; 3; 4]%Z);
      ("member_id", numbers Int64 [11; 12; 13; 14]%Z);
      ("emp_title", text [Some "nurse"; None; Some "driver"; Some "nurse"]);
      ("emp_length", text [Some "10+ years"; Some "1 year"; None; None]);
      ("home_ownership", sample_home_ownership);
      ("annual_inc", floats [Some 50000; Some 42000; None; Some 61000]%Z);
      ("annual_inc_joint", floats [None; None; None; Some 90000]%Z);
      ("verification_status",
        text [Some "Verified"; Some "Verified"; Some "Not Verified"; None]);
      ("verification_status_joint", text [None; None; None; Some "Verified"]);
      ("zip_code",
        text [Some "940xx"; Some "100xx"; Some "940xx"; Some "606xx"]);
      ("addr_state", text [Some "CA"; None; None; None]);
      ("purpose", text [Some "car"; Some "car"; Some "house"; Some "car"]);
      ("title", text [Some "Car"; None; Some "Home"; Some "car loan"]);
      ("desc", text [None; None; None; None]);
      ("issue_d", text [Some "Dec-2011"; Some "Dec-2011"; Some "Jan-2012";
                        Some "Jan-2012"]);
      ("pymnt_plan", text [Some "n"; Some "n"; Some "n"; Some "y"]);
      ("policy_code", numbers Int64 [1; 1; 1; 1]%Z);
      ("url", text [Some "u1"; Some "u2"; Some "u3"; Some "u4"]);
      ("loan_status", sample_loan_status) ].

Definition sample_borrower : Borrower.BorrowerProfileEDA :=
  Borrower.init sample_borrower_df "loan_status".

(** Six loans; every credit column holds the same figures. *)
Definition sample_credit_column : Series :=
  floats [Some 12; Some 7; None; Some 30; Some 7; Some 19]%Z.

Definition sample_credit_df : DataFrame :=
  mkDataFrame 6
    (map (fun c => (c, sample_credit_column)) Credit.CREDIT_NUMERIC_COLS
     ++ [("loan_status", numbers Int64 [0; 1; 1; 0; 0; 1]%Z)]).

Definition sample_credit : Credit.CreditHistoryEDA :=
  Credit.init sample_credit_df "loan_status".

(** The same six loans without the last column of the credit list:
    it has 28 of the credit columns, and the target. *)
Definition credit_df_28_columns : DataFrame :=
  mkDataFrame 6
    (map (fun c => (c, sample_credit_column))
         (firstn 28 Credit.CREDIT_NUMERIC_COLS)
     ++ [("loan_status", numbers Int64 [0; 1; 1; 0; 0; 1]%Z)]).

Definition credit_28_columns : Credit.CreditHistoryEDA :=
  Credit.init credit_df_28_columns "loan_status".

(** The six loans with a [dti] column of text: every credit column and
    the target are there. *)
Definition credit_df_text_dti : DataFrame :=
  mkDataFrame 6
    (("dti", text [Some "low"; Some "low"; None; Some "high"; Some "low";
                   Some "mid"])
     :: map (fun c => (c, sample_credit_column))
            (tl Credit.CREDIT_NUMERIC_COLS)
     ++ [("loan_status", numbers Int64 [0; 1; 1; 0; 0; 1]%Z)]).

(** Ten loans whose [dti] takes three distinct values, eight of them
    equal: the quartile-style edges for three buckets coincide. *)
Definition skewed_dti : Series :=
  floats [Some 1; Some 1; Some 1; Some 1; Some 1; Some 1; Some 1; Some 1;
          Some 2; Some 3]%Z.

Definition skewed_df : DataFrame :=
  mkDataFrame 10
    [ ("dti", skewed_dti);
      ("loan_status", numbers Int64 [0; 1; 0; 1; 0; 1; 0; 1; 0; 1]%Z) ].

Definition credit_text_dti : Credit.CreditHistoryEDA :=
  Credit.init credit_df_text_dti "loan_status".

Definition skewed_credit : Credit.CreditHistoryEDA :=
  Credit.init skewed_df "loan_status".

(** Three loans whose joint income was read as text. *)
Definition income_df_text_joint : DataFrame :=
  mkDataFrame 3
    [ ("annual_inc", floats [Some 50000; None; Some 61000]%Z);
      ("annual_inc_joint", text [Some "n/a"; None; Some "n/a"]);
      ("loan_status", numbers Int64 [0; 1; 0]%Z) ].

Definition income_text_joint : Borrower.BorrowerProfileEDA :=
  Borrower.init income_df_text_joint "loan_status".


(** The rows of two columns where both hold a number. *)
Definition complete (a b : Series) : list (cell * cell) :=
  filter (fun p => is_num (fst p) && is_num (snd p))
         (combine (values a) (values b)).

(** A single loan with every credit column and the target. *)
Definition credit_df_one_loan : DataFrame :=
  mkDataFrame 1
    (map (fun c => (c, floats [Some 12%Z])) Credit.CREDIT_NUMERIC_COLS
     ++ [("loan_status", numbers Int64 [1%Z])]).

Definition credit_one_loan : Credit.CreditHistoryEDA :=
  Credit.init credit_df_one_loan "loan_status".


(** A store with one borrower dataset and a report object on it. *)
Definition sample_store : Store :=
  [Pandas (PFrame sample_borrower_df); Instance 0 "loan_status"].

(* ================================================================== *)
(** * The method monad                                                 *)
(* ================================================================== *)

Section MonadFacts.
Context {S : Type}.

Lemma bind_ok {A B} (m : M S A) (k : A -> M S B) s a s' :
  m s = (Ok a, s') -> bind m k s = k a s'.
Proof. intros H. unfold bind. now rewrite H. Qed.

Lemma bind_err {A B} (m : M S A) (k : A -> M S B) s e s' :
  m s = (Err e, s') -> bind m k s = (Err e, s').
Proof. intros H. unfold bind. now rewrite H. Qed.

Lemma readonly_eta {A} (m : M S A) s :
  readonly m -> m s = (result_of m s, s).
Proof.
  intros H. unfold result_of. specialize (H s).
  destruct (m s) as [r s']. simpl in *. now subst.
Qed.

Lemma readonly_ret {A} (a : A) : readonly (S := S) (ret a).
Proof. intros s. reflexivity. Qed.

Lemma readonly_raise {A} e : readonly (S := S) (A := A) (raise e).
Proof. intros s. reflexivity. Qed.

Lemma readonly_lift {A} (r : Result A) : readonly (S := S) (lift r).
Proof. intros s. reflexivity. Qed.

Lemma readonly_get : readonly (S := S) get.
Proof. intros s. reflexivity. Qed.

Lemma readonly_bind {A B} (m : M S A) (k : A -> M S B) :
  readonly m -> (forall a, readonly (k a)) -> readonly (bind m k).
Proof.
  intros Hm Hk s. unfold bind. specialize (Hm s).
  destruct (m s) as [[a | e] s']; simpl in *; subst; [apply Hk | reflexivity].
Qed.

Lemma readonly_if {A} (c : bool) (m1 m2 : M S A) :
  readonly m1 -> readonly m2 -> readonly (if c then m1 else m2).
Proof. now destruct c. Qed.

Lemma readonly_for_append {A B} (body : A -> M S B) xs :
  (forall x, readonly (body x)) ->
  forall acc, readonly (for_append body xs acc).
Proof.
  intros Hb. induction xs as [| x xs IH]; intros acc; simpl.
  - apply readonly_ret.
  - apply readonly_bind; [apply Hb | intros b; apply IH].
Qed.

Lemma readonly_for_setitem {A V} (key : A -> string) (body : A -> M S V) xs :
  (forall x, In x xs -> readonly (body x)) ->
  forall d, readonly (for_setitem key body xs d).
Proof.
  induction xs as [| x xs IH]; intros Hb d; simpl.
  - apply readonly_ret.
  - apply readonly_bind; [apply Hb; now left |].
    intros v. apply IH. intros y Hy. apply Hb. now right.
Qed.

(** A read-only bind is a bind of results. *)
Lemma bind_readonly {A B} (m : M S A) (k : A -> M S B) s :
  readonly m ->
  bind m k s =
  match result_of m s with
  | Ok a => k a s
  | Err e => (Err e, s)
  end.
Proof.
  intros H. unfold bind. rewrite (readonly_eta m s H).
  unfold result_of. simpl. now destruct (fst (m s)).
Qed.

(** A loop of read-only bodies that appends is a [traverse]. *)
Lemma for_append_traverse {A B} (body : A -> M S B) xs s :
  (forall x, readonly (body x)) ->
  forall acc,
    for_append body xs acc s =
    (bs <~ traverse (fun x => result_of (body x) s) xs ;; Ok (acc ++ bs), s).
Proof.
  intros Hb. induction xs as [| x xs IH]; intros acc; simpl.
  - unfold ret. now rewrite app_nil_r.
  - rewrite bind_readonly by apply Hb.
    destruct (result_of (body x) s) as [b | e]; simpl; [| reflexivity].
    rewrite IH.
    destruct (traverse (fun x0 => result_of (body x0) s) xs); simpl;
      [| reflexivity].
    now rewrite <- app_assoc.
Qed.
End MonadFacts.

(** Close a read-only goal by walking the structure of the method. *)
Ltac prove_readonly :=
  repeat first
    [ apply readonly_ret | apply readonly_raise | apply readonly_lift
    | apply readonly_get
    | apply readonly_bind; [| intro]
    | apply readonly_if
    | apply readonly_for_append; intro
    | apply readonly_for_setitem; intros ? ? ].

(** ** [traverse] *)

Lemma traverse_err_first {A B} (f : A -> Result B) xs :
  (exists x, In x xs /\ is_err (f x)) ->
  exists x e, In x xs /\ f x = Err e /\ traverse f xs = Err e.
Proof.
  induction xs as [| x xs IH]; intros [y [Hy He]]; [contradiction |].
  simpl. destruct (f x) as [b | e] eqn:Hx.
  - destruct Hy as [-> | Hy]; [rewrite Hx in He; contradiction |].
    destruct IH as [z [e [Hz [Hfz Ht]]]]; [now exists y |].
    exists z, e. simpl. rewrite Ht. auto.
  - exists x, e. simpl. auto.
Qed.

Lemma traverse_ext {A B} (f g : A -> Result B) xs :
  (forall x, In x xs -> f x = g x) -> traverse f xs = traverse g xs.
Proof.
  induction xs as [| x xs IH]; intros H; simpl; [reflexivity |].
  rewrite (H x) by now left.
  rewrite IH by (intros y Hy; apply H; now right). reflexivity.
Qed.

Lemma traverse_ok_ex {A B} (f : A -> Result B) xs :
  (forall x, In x xs -> exists b, f x = Ok b) ->
  exists bs, traverse f xs = Ok bs.
Proof.
  induction xs as [| x xs IH]; intros H; simpl; [now exists [] |].
  destruct (H x) as [b Hb]; [now left |].
  destruct IH as [bs Hbs]; [intros y Hy; apply H; now right |].
  exists (b :: bs). now rewrite Hb, Hbs.
Qed.

Lemma traverse_Forall2 {A B} (f : A -> Result B) xs bs :
  traverse f xs = Ok bs -> Forall2 (fun x b => f x = Ok b) xs bs.
Proof.
  revert bs. induction xs as [| x xs IH]; intros bs; simpl.
  - intros [= <-]. constructor.
  - destruct (f x) as [b |] eqn:Hx; simpl; [| discriminate].
    destruct (traverse f xs) as [bs' |]; simpl; [| discriminate].
    intros [= <-]. constructor; auto.
Qed.

Lemma Forall2_map_left {A B} (R : A -> B -> Prop) (g : B -> A) xs bs :
  Forall2 R xs bs -> (forall x b, R x b -> g b = x) -> map g bs = xs.
Proof.
  intros H Hg. induction H; simpl; [reflexivity |].
  f_equal; auto.
Qed.

Lemma Forall2_Forall_right {A B} (R : A -> B -> Prop) (P : B -> Prop) xs bs :
  Forall2 R xs bs -> (forall x b, In x xs -> R x b -> P b) -> Forall P bs.
Proof.
  intros H HP. induction H; constructor.
  - apply (HP x); [now left | assumption].
  - apply IHForall2. intros x' b' Hx'. apply HP. now right.
Qed.

Lemma traverse_err_at {A B} (f : A -> Result B) pre x post e :
  (forall y, In y pre -> exists b, f y = Ok b) ->
  f x = Err e ->
  traverse f (pre ++ x :: post) = Err e.
Proof.
  induction pre as [| y pre IH]; intros Hpre Hx; simpl.
  - now rewrite Hx.
  - destruct (Hpre y) as [b Hb]; [now left |]. rewrite Hb. simpl.
    rewrite IH; [reflexivity | | assumption].
    intros z Hz. apply Hpre. now right.
Qed.

Lemma traverse_length {A B} (f : A -> Result B) xs bs :
  traverse f xs = Ok bs -> length bs = length xs.
Proof.
  revert bs. induction xs as [| x xs IH]; intros bs; simpl.
  - now intros [= <-].
  - destruct (f x); simpl; [| discriminate].
    destruct (traverse f xs) as [bs' |]; simpl; [| discriminate].
    intros [= <-]. simpl. now rewrite (IH bs').
Qed.

(* ================================================================== *)
(** * The reports only read                                            *)
(* ================================================================== *)

Lemma borrower_self_df_readonly : readonly Borrower.self_df.
Proof. unfold Borrower.self_df. prove_readonly. Qed.

Lemma borrower_self_target_col_readonly : readonly Borrower.self_target_col.
Proof. unfold Borrower.self_target_col. prove_readonly. Qed.

Lemma borrower_self_df_getitem_readonly col :
  readonly (Borrower.self_df_getitem col).
Proof.
  unfold Borrower.self_df_getitem.
  apply readonly_bind;
    [apply borrower_self_df_readonly | intro; prove_readonly].
Qed.

Lemma credit_self_df_readonly : readonly Credit.self_df.
Proof. unfold Credit.self_df. prove_readonly. Qed.

Lemma credit_self_target_col_readonly : readonly Credit.self_target_col.
Proof. unfold Credit.self_target_col. prove_readonly. Qed.

Lemma credit_self_df_getitem_readonly col :
  readonly (Credit.self_df_getitem col).
Proof.
  unfold Credit.self_df_getitem.
  apply readonly_bind; [apply credit_self_df_readonly | intro; prove_readonly].
Qed.

(** Read-only goals over the accessors of the two report objects. *)
Ltac prove_readonly_method :=
  repeat first
    [ apply borrower_self_df_readonly
    | apply borrower_self_target_col_readonly
    | apply borrower_self_df_getitem_readonly
    | apply credit_self_df_readonly
    | apply credit_self_target_col_readonly
    | apply credit_self_df_getitem_readonly
    | apply readonly_ret | apply readonly_raise | apply readonly_lift
    | apply readonly_get
    | apply readonly_bind; [| intro]
    | apply readonly_if
    | apply readonly_for_append; intro ].

Lemma structure_summary_readonly : readonly Borrower.structure_summary.
Proof. unfold Borrower.structure_summary. prove_readonly_method. Qed.

Lemma income_summary_readonly : readonly Borrower.income_summary.
Proof. unfold Borrower.income_summary. prove_readonly_method. Qed.

Lemma categorical_freqs_readonly k : readonly (Borrower.categorical_freqs k).
Proof.
  unfold Borrower.categorical_freqs.
  apply readonly_for_setitem. intros x _. prove_readonly_method.
Qed.

Lemma default_rate_by_category_readonly col :
  readonly (Borrower.default_rate_by_category col).
Proof. unfold Borrower.default_rate_by_category. prove_readonly_method. Qed.

Lemma borrower_callable_readonly {A} (inj : A -> Borrower.Any) m :
  readonly m -> readonly (Borrower.callable inj m).
Proof. intros H. unfold Borrower.callable. prove_readonly_method. exact H. Qed.

Lemma borrower_eda_steps_items :
  Borrower.borrower_eda_steps =
  [ ("structure",
      Borrower.callable Borrower.AStructure Borrower.structure_summary);
    ("income", Borrower.callable Borrower.AIncome Borrower.income_summary);
    ("freqs",
      Borrower.callable Borrower.AFreqs (Borrower.categorical_freqs 10));
    ("default_by_home_ownership",
      Borrower.callable Borrower.ARates
        (Borrower.default_rate_by_category "home_ownership"));
    ("default_by_purpose",
      Borrower.callable Borrower.ARates
        (Borrower.default_rate_by_category "purpose")) ].
Proof. reflexivity. Qed.

Lemma borrower_steps_readonly x :
  In x Borrower.borrower_eda_steps -> readonly (snd x).
Proof.
  rewrite borrower_eda_steps_items. intros Hx. simpl in Hx.
  repeat (destruct Hx as [<- | Hx]); try contradiction; simpl;
    apply borrower_callable_readonly;
    auto using structure_summary_readonly, income_summary_readonly,
      categorical_freqs_readonly, default_rate_by_category_readonly.
Qed.

Lemma run_borrower_eda_pipeline_readonly :
  readonly Borrower.run_borrower_eda_pipeline.
Proof.
  unfold Borrower.run_borrower_eda_pipeline.
  apply readonly_for_setitem. intros x Hx.
  now apply borrower_steps_readonly.
Qed.

Lemma credit_structure_summary_readonly :
  readonly Credit.credit_structure_summary.
Proof. unfold Credit.credit_structure_summary. prove_readonly_method. Qed.

Lemma default_rate_by_bucket_readonly obs col bins :
  readonly (Credit.default_rate_by_bucket obs col bins).
Proof. unfold Credit.default_rate_by_bucket. prove_readonly_method. Qed.

Lemma correlation_with_default_readonly :
  readonly Credit.correlation_with_default.
Proof. unfold Credit.correlation_with_default. prove_readonly_method. Qed.

Lemma credit_callable_readonly {A} (inj : A -> Credit.Any) m :
  readonly m -> readonly (Credit.callable inj m).
Proof. intros H. unfold Credit.callable. prove_readonly_method. exact H. Qed.

Lemma credit_steps_readonly observed x :
  In x (Credit.step_name observed) -> readonly (snd x).
Proof.
  intros Hx. unfold Credit.step_name in Hx. simpl in Hx.
  repeat (destruct Hx as [<- | Hx]); try contradiction; simpl;
    apply credit_callable_readonly;
    auto using credit_structure_summary_readonly,
      default_rate_by_bucket_readonly, correlation_with_default_readonly.
Qed.

Lemma credit_history_report_readonly observed :
  readonly (Credit.credit_history_report observed).
Proof.
  unfold Credit.credit_history_report.
  apply readonly_for_setitem. intros x Hx.
  now apply (credit_steps_readonly observed).
Qed.

(* ================================================================== *)
(** * What each method computes                                        *)
(* ================================================================== *)

(** Unfold the accessors and the monad down to results. *)
Ltac run_method :=
  unfold result_of, Borrower.self_df_getitem, Borrower.self_df,
    Borrower.self_target_col, Credit.self_df_getitem, Credit.self_df,
    Credit.self_target_col, bind, get, ret, lift; simpl.

Lemma find_col_has d col :
  has_col d col = true -> exists s, find_col (columns d) col = Some s.
Proof.
  unfold has_col. destruct (find_col (columns d) col) as [s |];
    [now exists s | discriminate].
Qed.

Lemma getitem_has d col :
  has_col d col = true -> exists s, getitem d col = Ok s.
Proof.
  intros H. destruct (find_col_has d col H) as [s Hs].
  exists s. unfold getitem. now rewrite Hs.
Qed.

Lemma getitem_missing d col :
  has_col d col = false -> getitem d col = Err (KeyError col).
Proof.
  unfold has_col, getitem. now destruct (find_col (columns d) col).
Qed.

Lemma has_cols_in d names col :
  has_cols d names = true -> In col names -> has_col d col = true.
Proof.
  unfold has_cols. rewrite forallb_forall. auto.
Qed.

Lemma structure_summary_run e :
  Borrower.structure_summary e =
  (rows <~ traverse (fun col => s <~ getitem (Borrower.df e) col ;;
                                Ok (borrower_row col s))
                    Borrower.BORROWER_COLS ;;
   Ok (mkRowFrame ["column"; "dtype"; "n_missing"; "missing_pct"; "n_unique"]
                  rows),
   e).
Proof.
  unfold Borrower.structure_summary.
  generalize Borrower.BORROWER_COLS as cols. intros cols.
  rewrite bind_readonly by prove_readonly_method.
  unfold result_of at 1.
  rewrite for_append_traverse by (intro; prove_readonly_method).
  simpl fst.
  assert (E : forall col,
             result_of
               (dtype <-
                  (s <- Borrower.self_df_getitem col ;; ret (dtypes s)) ;;
                n_missing <-
                  (s <- Borrower.self_df_getitem col ;;
                   ret (sum_bool (isna s))) ;;
                missing_pct <-
                  (s <- Borrower.self_df_getitem col ;;
                   ret (mean_bool (isna s))) ;;
                n_unique <-
                  (s <- Borrower.self_df_getitem col ;; ret (nunique s)) ;;
                ret {| Borrower.column := col;
                       Borrower.dtype := dtype;
                       Borrower.n_missing := n_missing;
                       Borrower.missing_pct := missing_pct;
                       Borrower.n_unique := n_unique |}) e =
             (s <~ getitem (Borrower.df e) col ;; Ok (borrower_row col s))).
  { intros col. run_method.
    destruct (getitem (Borrower.df e) col) eqn:G; simpl;
      repeat (rewrite G; simpl); reflexivity. }
  cbv zeta. rewrite (traverse_ext _ _ _ (fun col _ => E col)).
  destruct (traverse _ cols); reflexivity.
Qed.

Lemma income_summary_run e :
  Borrower.income_summary e =
  (sub <~ getitem_list (Borrower.df e) ["annual_inc"; "annual_inc_joint"] ;;
   t <~ describe sub ;;
   Ok (T t),
   e).
Proof.
  unfold Borrower.income_summary. run_method.
  destruct (getitem_list _ _) as [sub |]; simpl; [| reflexivity].
  destruct (describe sub); reflexivity.
Qed.

Lemma categorical_freqs_run max_levels e :
  Borrower.categorical_freqs max_levels e =
  (h <~ getitem (Borrower.df e) "home_ownership" ;;
   a <~ getitem (Borrower.df e) "addr_state" ;;
   p <~ getitem (Borrower.df e) "purpose" ;;
   Ok [ ("home_ownership", head max_levels (value_counts h));
        ("addr_state", head max_levels (value_counts a));
        ("purpose", head max_levels (value_counts p)) ],
   e).
Proof.
  unfold Borrower.categorical_freqs. simpl. run_method.
  destruct (getitem _ "home_ownership"); simpl; [| reflexivity].
  destruct (getitem _ "addr_state"); simpl; [| reflexivity].
  destruct (getitem _ "purpose"); reflexivity.
Qed.

Lemma default_rate_by_category_run col e :
  Borrower.default_rate_by_category col e =
  (g <~ groupby (Borrower.df e) col ;;
   sg <~ gb_getitem g (Borrower.target_col e) ;;
   sgb_mean sg,
   e).
Proof.
  unfold Borrower.default_rate_by_category. run_method.
  destruct (groupby _ col) as [g |]; simpl; [| reflexivity].
  destruct (gb_getitem g _); reflexivity.
Qed.

Lemma credit_structure_summary_run e :
  Credit.credit_structure_summary e =
  (rows <~ traverse (fun col => s <~ getitem (Credit.df e) col ;;
                                credit_row (Credit.df e) col s)
                    Credit.CREDIT_NUMERIC_COLS ;;
   Ok (mkRowFrame
         ["column"; "dtype"; "n_missing"; "missing_pct"; "mean"; "std"] rows),
   e).
Proof.
  unfold Credit.credit_structure_summary.
  generalize Credit.CREDIT_NUMERIC_COLS as cols. intros cols.
  rewrite bind_readonly by prove_readonly_method.
  unfold result_of at 1.
  rewrite for_append_traverse by (intro; prove_readonly_method).
  simpl fst. cbv zeta.
  rewrite (traverse_ext _
             (fun col => s <~ getitem (Credit.df e) col ;;
                         credit_row (Credit.df e) col s) cols).
  - destruct (traverse _ cols); reflexivity.
  - intros col _. run_method. unfold credit_row.
    destruct (getitem (Credit.df e) col) as [s |] eqn:G; simpl;
      repeat (rewrite G; simpl); [| reflexivity].
    destruct (dtype_in _ _); simpl; [| reflexivity].
    rewrite G; simpl.
    destruct (Pd.mean s); simpl; [| reflexivity].
    rewrite G; simpl.
    destruct (Pd.std s); reflexivity.
Qed.

Lemma default_rate_by_bucket_run observed col bins e :
  Credit.default_rate_by_bucket observed col bins e =
  (s <~ getitem (Credit.df e) col ;;
   buckets <~ qcut s bins ;;
   sg <~ gb_getitem (groupby_categorical observed (Credit.df e) col buckets)
                    (Credit.target_col e) ;;
   a <~ sgb_agg_count_mean sg ;;
   Ok (reset_index a),
   e).
Proof.
  unfold Credit.default_rate_by_bucket. run_method.
  destruct (getitem _ col) as [s |]; simpl; [| reflexivity].
  destruct (qcut s bins) as [b |]; simpl; [| reflexivity].
  destruct (gb_getitem _ _) as [sg |]; simpl; [| reflexivity].
  destruct (sgb_agg_count_mean sg); reflexivity.
Qed.

Lemma correlation_with_default_run e :
  Credit.correlation_with_default e =
  (l <~ traverse (fun col => a <~ getitem (Credit.df e) col ;;
                             b <~ getitem (Credit.df e) (Credit.target_col e) ;;
                             corr a b)
                 Credit.CREDIT_NUMERIC_COLS ;;
   Ok (combine Credit.CREDIT_NUMERIC_COLS l),
   e).
Proof.
  unfold Credit.correlation_with_default.
  generalize Credit.CREDIT_NUMERIC_COLS as cols. intros cols.
  rewrite bind_readonly by prove_readonly_method.
  unfold result_of at 1.
  rewrite for_append_traverse by (intro; prove_readonly_method).
  simpl fst.
  rewrite (traverse_ext _
             (fun col => a <~ getitem (Credit.df e) col ;;
                         b <~ getitem (Credit.df e) (Credit.target_col e) ;;
                         corr a b) cols).
  - destruct (traverse _ cols); reflexivity.
  - intros col _. run_method.
    destruct (getitem (Credit.df e) col) as [a |]; simpl; [| reflexivity].
    destruct (getitem (Credit.df e) (Credit.target_col e)); reflexivity.
Qed.

(** ** Loops that fill a dict from read-only steps *)

Lemma for_setitem_ok_inv {S A V} (key : A -> string) (body : A -> M S V)
    xs s :
  (forall x, In x xs -> readonly (body x)) ->
  forall d d' s',
    for_setitem key body xs d s = (Ok d', s') ->
    forall x, In x xs -> exists v, result_of (body x) s = Ok v.
Proof.
  induction xs as [| x xs IH]; intros Hb d d' s' H y Hy; [contradiction |].
  simpl in H. rewrite bind_readonly in H by (apply Hb; now left).
  destruct (result_of (body x) s) as [v |] eqn:Hx; [| discriminate].
  destruct Hy as [<- | Hy]; [now exists v |].
  eapply IH; eauto. intros z Hz. apply Hb. now right.
Qed.

Lemma for_setitem_err {S A V} (key : A -> string) (body : A -> M S V) xs s :
  (forall x, In x xs -> readonly (body x)) ->
  (exists x, In x xs /\ is_err (result_of (body x) s)) ->
  forall d, exists x ex,
    In x xs /\ result_of (body x) s = Err ex
    /\ for_setitem key body xs d s = (Err ex, s).
Proof.
  induction xs as [| x xs IH]; intros Hb [y [Hy He]] d; [contradiction |].
  simpl. rewrite bind_readonly by (apply Hb; now left).
  destruct (result_of (body x) s) as [v | ex] eqn:Hx.
  - destruct Hy as [-> | Hy]; [rewrite Hx in He; contradiction |].
    destruct (IH (fun z Hz => Hb z (or_intror Hz))
                 (ex_intro _ y (conj Hy He)) (dict_set d (key x) v))
      as [z [ex [Hz [Hr Hf]]]].
    exists z, ex. auto.
  - exists x, ex. auto.
Qed.

Lemma borrower_callable_result {A} (inj : A -> Borrower.Any) m e :
  result_of (Borrower.callable inj m) e =
  (x <~ result_of m e ;; Ok (inj x)).
Proof.
  unfold Borrower.callable, result_of, bind, ret.
  destruct (m e) as [[a | ex] s']; reflexivity.
Qed.

Lemma credit_callable_result {A} (inj : A -> Credit.Any) m e :
  result_of (Credit.callable inj m) e =
  (x <~ result_of m e ;; Ok (inj x)).
Proof.
  unfold Credit.callable, result_of, bind, ret.
  destruct (m e) as [[a | ex] s']; reflexivity.
Qed.

(* ================================================================== *)
(** * The reports in the object store                                  *)
(* ================================================================== *)

(** ** Reading and writing the store *)

Lemma length_update st r o : length (update st r o) = length st.
Proof.
  revert r. induction st as [| o' st IH]; intros [| r]; simpl; auto.
Qed.

Lemma nth_error_update_eq st r o :
  r < length st -> nth_error (update st r o) r = Some o.
Proof.
  revert r. induction st as [| o' st IH]; intros [| r] Hr; simpl in *;
    try lia; [reflexivity | apply IH; lia].
Qed.

Lemma nth_error_update_neq st r o r' :
  r' <> r -> nth_error (update st r o) r' = nth_error st r'.
Proof.
  revert r r'. induction st as [| o' st IH]; intros [| r] [| r'] Hr;
    simpl; try reflexivity; try congruence.
  apply IH. congruence.
Qed.

Lemma nth_error_Some_lt {A} (l : list A) n a :
  nth_error l n = Some a -> n < length l.
Proof. intros E. apply nth_error_Some. congruence. Qed.

Lemma nth_error_app_Some {A} (l e : list A) n a :
  nth_error l n = Some a -> nth_error (l ++ e) n = Some a.
Proof.
  intros E. rewrite nth_error_app1; [exact E |].
  now apply nth_error_Some_lt in E.
Qed.

Lemma nth_error_app_new {A} (l : list A) a :
  nth_error (l ++ [a]) (length l) = Some a.
Proof. rewrite nth_error_app2, Nat.sub_diag by lia. reflexivity. Qed.

Lemma evolves_refl w st : evolves w st st.
Proof. split; auto. Qed.

Lemma evolves_trans w st1 st2 st3 :
  evolves w st1 st2 -> evolves w st2 st3 -> evolves w st1 st3.
Proof.
  intros [L1 P1] [L2 P2]. split; [lia |].
  intros r Hr Hw. rewrite P2, P1 by (auto; lia). reflexivity.
Qed.

Lemma evolves_app w st extra : evolves w st (st ++ extra).
Proof.
  split; [rewrite length_app; lia |].
  intros r Hr _. now rewrite nth_error_app1.
Qed.

Lemma evolves_update st w o : evolves w st (update st w o).
Proof.
  split; [rewrite length_update; lia |].
  intros r _ Hw. now apply nth_error_update_neq.
Qed.

(** When nothing that was in [st] has changed, [st'] is [st] with
    objects added. *)
Lemma evolves_extends w st st' :
  length st <= w -> evolves w st st' -> exists extra, st' = st ++ extra.
Proof.
  intros Hw [Hl Hp]. exists (skipn (length st) st').
  rewrite <- (firstn_skipn (length st) st') at 1. f_equal.
  apply nth_error_ext. intros n.
  destruct (Nat.lt_ge_cases n (length st)) as [Hn | Hn].
  - rewrite nth_error_firstn.
    destruct (n <? length st) eqn:E; [| apply Nat.ltb_ge in E; lia].
    apply Hp; lia.
  - rewrite (proj2 (nth_error_None st n)) by lia.
    apply nth_error_None. rewrite length_firstn. lia.
Qed.

(** ** Unfolding a value *)

Scheme reads_mut := Minimality for reads Sort Prop
  with reads_all_mut := Minimality for reads_all Sort Prop
  with reads_items_mut := Minimality for reads_items Sort Prop.

Combined Scheme reads_mutind from reads_mut, reads_all_mut, reads_items_mut.

(** Unfolding looks only at the objects from [lo] on. *)
Lemma reads_preserved lo st lo' st' :
  lo' <= lo ->
  (forall r o, lo <= r -> nth_error st r = Some o ->
               nth_error st' r = Some o) ->
  (forall v t, reads lo st v t -> reads lo' st' v t)
  /\ (forall vs ts, reads_all lo st vs ts -> reads_all lo' st' vs ts)
  /\ (forall vs ts, reads_items lo st vs ts -> reads_items lo' st' vs ts).
Proof.
  intros Hlo Hst. apply reads_mutind; intros.
  - now constructor.
  - econstructor; eauto; lia.
  - econstructor; eauto; lia.
  - econstructor; eauto; lia.
  - constructor.
  - now constructor.
  - constructor.
  - now constructor.
Qed.

Lemma reads_evolves lo st v t w st' lo' :
  reads lo st v t -> evolves w st st' -> w < lo -> lo' <= lo ->
  reads lo' st' v t.
Proof.
  intros Hr [_ Hp] Hw Hlo.
  refine (proj1 (reads_preserved lo st lo' st' Hlo _) v t Hr).
  intros r o Hr' E. rewrite Hp; [exact E | | lia].
  now apply nth_error_Some_lt in E.
Qed.

Lemma reads_items_evolves lo st vs ts w st' :
  reads_items lo st vs ts -> evolves w st st' -> w < lo ->
  reads_items lo st' vs ts.
Proof.
  intros Hr [_ Hp] Hw.
  refine (proj2 (proj2 (reads_preserved lo st lo st' (le_n _) _)) vs ts Hr).
  intros r o Hr' E. rewrite Hp; [exact E | | lia].
  now apply nth_error_Some_lt in E.
Qed.

Lemma reads_app lo st v t extra lo' :
  reads lo st v t -> lo' <= lo -> reads lo' (st ++ extra) v t.
Proof.
  intros Hr Hlo.
  refine (proj1 (reads_preserved lo st lo' _ Hlo _) v t Hr).
  intros r o _ E. now apply nth_error_app_Some.
Qed.

(** A value unfolds to one tree only. *)
Lemma reads_functional lo st :
  (forall v t, reads lo st v t -> forall t', reads lo st v t' -> t = t')
  /\ (forall vs ts, reads_all lo st vs ts ->
                    forall ts', reads_all lo st vs ts' -> ts = ts')
  /\ (forall vs ts, reads_items lo st vs ts ->
                    forall ts', reads_items lo st vs ts' -> ts = ts').
Proof.
  apply reads_mutind; intros.
  - inversion H0; subst; try discriminate; reflexivity.
  - inversion H3; subst; try discriminate; try congruence.
    f_equal. apply H2. congruence.
  - inversion H3; subst; try discriminate; try congruence.
    f_equal. apply H2. congruence.
  - inversion H1; subst; try discriminate; congruence.
  - now inversion H.
  - inversion H3; subst. f_equal; auto.
  - now inversion H.
  - inversion H3; subst. f_equal; [f_equal |]; auto.
Qed.

Lemma reads_items_set lo st items ts k v t :
  reads_items lo st items ts -> reads lo st v t ->
  reads_items lo st (dict_set items k v) (dict_set ts k t).
Proof.
  intros Hi Hv. induction Hi as [| k' v' t' vs ts' Hv' Hi IH]; simpl.
  - repeat constructor. exact Hv.
  - destruct (String.eqb k' k); constructor; auto.
Qed.

Lemma update_same st r o : nth_error st r = Some o -> update st r o = st.
Proof.
  revert r. induction st as [| o' st IH]; intros [| r] E; simpl in *;
    try discriminate; [congruence | now rewrite IH].
Qed.

Lemma update_update st r o o' : update (update st r o) r o' = update st r o'.
Proof.
  revert r. induction st as [| o1 st IH]; intros [| r]; simpl; auto.
  now rewrite IH.
Qed.

Lemma evolves_write w st st1 r o :
  evolves w st st1 -> r = w \/ length st <= r -> evolves w st (update st1 r o).
Proof.
  intros [Hl Hp] Hr. split; [rewrite length_update; lia |].
  intros r' Hr' Hw. rewrite nth_error_update_neq by lia. now apply Hp.
Qed.

(** ** Running the primitives *)

Lemma bind_run {S A B} (m : M S A) (k : A -> M S B) s r :
  m s = (r, s) ->
  bind m k s = match r with Ok a => k a s | Err e => (Err e, s) end.
Proof. intros E. unfold bind. rewrite E. now destruct r. Qed.

Lemma list_append_run st l items v :
  nth_error st l = Some (PyList items) ->
  list_append l v st = (Ok tt, update st l (PyList (items ++ [v]))).
Proof. intros E. unfold list_append, bind, load. now rewrite E. Qed.

Lemma dict_setitem_run st d items k v :
  nth_error st d = Some (PyDict items) ->
  dict_setitem d k v st = (Ok tt, update st d (PyDict (dict_set items k v))).
Proof. intros E. unfold dict_setitem, bind, load. now rewrite E. Qed.

(** The loop that fills a dict from a list of pairs. *)
Lemma for_each_setitem_run st ed kvs items :
  nth_error st ed = Some (PyDict items) ->
  for_each kvs (fun vv => dict_setitem ed (fst vv) (snd vv)) st =
  (Ok tt,
   update st ed
     (PyDict (fold_left (fun d vv => dict_set d (fst vv) (snd vv))
                        kvs items))).
Proof.
  revert st items. induction kvs as [| [k v] kvs IH]; intros st items E; simpl.
  - unfold ret. now rewrite update_same.
  - rewrite (bind_ok _ _ _ _ _ (dict_setitem_run st ed items k v E)).
    rewrite (IH _ (dict_set items k v)).
    + now rewrite update_update.
    + apply nth_error_update_eq. now apply nth_error_Some_lt in E.
Qed.

Lemma new_run st p :
  new p st = (Ok (VRef (length st)), st ++ [Pandas p]).
Proof. reflexivity. Qed.

Lemma pd_DataFrame_rows st columns items rows :
  Forall2 (fun v row => exists w, row_dict columns w st v row) items rows ->
  forall acc,
    for_append
      (fun v =>
         match v with
         | VRef r =>
             o <- load r ;;
             match o with
             | PyDict d => ret (record columns d)
             | _ => raise TypeError
             end
         | _ => raise TypeError
         end) items acc st = (Ok (acc ++ rows), st).
Proof.
  induction 1 as [| v row items rows [w [ed [it [-> [_ [E <-]]]]]] _ IH];
    intros acc; simpl.
  - unfold ret. now rewrite app_nil_r.
  - unfold bind at 1. unfold bind at 1. unfold load. rewrite E.
    unfold ret at 1. rewrite IH. now rewrite <- app_assoc.
Qed.

Lemma pd_DataFrame_run st data columns items rows :
  nth_error st data = Some (PyList items) ->
  Forall2 (fun v row => exists w, row_dict columns w st v row) items rows ->
  pd_DataFrame data columns st =
  (Ok (VRef (length st)), st ++ [Pandas (PRecords columns rows)]).
Proof.
  intros E Hrows. unfold pd_DataFrame. unfold bind at 1. unfold load.
  rewrite E.
  rewrite (bind_ok _ _ _ _ _ (pd_DataFrame_rows st columns items rows Hrows [])).
  reflexivity.
Qed.

Lemma pd_Series_run st data index items :
  nth_error st data = Some (PyList items) ->
  length items = length index ->
  pd_Series data index st =
  (Ok (VRef (length st)), st ++ [Pandas (PLabelled (combine index items))]).
Proof.
  intros E Hl. unfold pd_Series. unfold bind at 1. unfold load.
  rewrite E, Hl, Nat.eqb_refl. reflexivity.
Qed.

Lemma new_list_run st : new_list st = (Ok (length st), st ++ [PyList []]).
Proof. reflexivity. Qed.

Lemma new_dict_run st : new_dict st = (Ok (length st), st ++ [PyDict []]).
Proof. reflexivity. Qed.

Lemma row_dict_stable columns l st st' v row :
  row_dict columns l st v row -> evolves l st st' ->
  row_dict columns l st' v row.
Proof.
  intros [ed [items [-> [Hne [E R]]]]] [_ Hp]. exists ed, items.
  repeat split; auto. rewrite Hp; auto. now apply nth_error_Some_lt in E.
Qed.

(** ** A report object in the store *)

Section ReportObject.
Variables (self d : ref) (f : DataFrame) (tc : string).

Lemma report_object_evolves st st' w :
  report_object st self d f tc -> evolves w st st' ->
  w <> self -> w <> d -> report_object st' self d f tc.
Proof.
  intros [Hs Hd] [_ Hp] Hws Hwd. split.
  - rewrite Hp; auto. now apply nth_error_Some_lt in Hs.
  - rewrite Hp; auto. now apply nth_error_Some_lt in Hd.
Qed.

Lemma report_object_app st extra :
  report_object st self d f tc -> report_object (st ++ extra) self d f tc.
Proof. intros [Hs Hd]. split; now apply nth_error_app_Some. Qed.

Lemma report_object_list st l items :
  report_object st self d f tc -> nth_error st l = Some (PyList items) ->
  l <> self /\ l <> d.
Proof. intros [Hs Hd] E. split; intros ->; congruence. Qed.

Lemma report_object_dict st l items :
  report_object st self d f tc -> nth_error st l = Some (PyDict items) ->
  l <> self /\ l <> d.
Proof. intros [Hs Hd] E. split; intros ->; congruence. Qed.

Lemma getattr_df_run st :
  report_object st self d f tc -> getattr_df self st = (Ok d, st).
Proof. intros [Hs _]. unfold getattr_df, bind, load. now rewrite Hs. Qed.

Lemma getattr_target_col_run st :
  report_object st self d f tc -> getattr_target_col self st = (Ok tc, st).
Proof.
  intros [Hs _]. unfold getattr_target_col, bind, load. now rewrite Hs.
Qed.

Lemma frame_run st :
  report_object st self d f tc -> frame d st = (Ok f, st).
Proof. intros [_ Hd]. unfold frame, bind, load. now rewrite Hd. Qed.

Lemma self_df_getitem_run st col :
  report_object st self d f tc ->
  self_df_getitem self col st = (getitem f col, st).
Proof.
  intros Hr. unfold self_df_getitem.
  rewrite (bind_ok _ _ _ _ _ (getattr_df_run st Hr)).
  rewrite (bind_ok _ _ _ _ _ (frame_run st Hr)).
  reflexivity.
Qed.

(** An expression that reads a column and computes from it. *)
Lemma column_expr_run {A} st col (g : Series -> A) :
  report_object st self d f tc ->
  (s <- self_df_getitem self col ;; ret (g s)) st
  = (s <~ getitem f col ;; Ok (g s), st).
Proof.
  intros Hr. rewrite (bind_run _ _ _ _ (self_df_getitem_run st col Hr)).
  now destruct (getitem f col).
Qed.

(** ** Loops that append to a list *)

(** A loop whose body either fails or appends one slot to the list at
    [l], writing to no other object that was there. *)
Lemma for_each_append_run {A B} (Q : Store -> val -> B -> Prop)
    (pure : A -> Result B) (body : A -> Cmd unit) l :
  (forall st st' v b, Q st v b -> evolves l st st' -> Q st' v b) ->
  (forall x st items,
      report_object st self d f tc ->
      nth_error st l = Some (PyList items) ->
      exists res st',
        body x st = (res, st') /\ evolves l st st'
        /\ match pure x with
           | Ok b => res = Ok tt
                     /\ exists v, nth_error st' l = Some (PyList (items ++ [v]))
                                  /\ Q st' v b
           | Err e => res = Err e
           end) ->
  forall xs st items bs,
    report_object st self d f tc ->
    nth_error st l = Some (PyList items) ->
    Forall2 (Q st) items bs ->
    exists res st',
      for_each xs body st = (res, st') /\ evolves l st st'
      /\ match traverse pure xs with
         | Ok new =>
             res = Ok tt
             /\ exists items', nth_error st' l = Some (PyList items')
                               /\ Forall2 (Q st') items' (bs ++ new)
         | Err e => res = Err e
         end.
Proof.
  intros Hstable Hbody.
  induction xs as [| x xs IH]; intros st items bs Hr Hl Hq; simpl.
  - exists (Ok tt), st. split; [reflexivity |].
    split; [apply evolves_refl |]. split; [reflexivity |].
    exists items. rewrite app_nil_r. auto.
  - destruct (Hbody x st items Hr Hl) as [res [st1 [Hrun [Hev Hres]]]].
    destruct (report_object_list st l items Hr Hl) as [Hls Hld].
    destruct (pure x) as [b | e]; simpl.
    + destruct Hres as [-> [v [Hl1 Hq1]]].
      rewrite (bind_ok _ _ _ _ _ Hrun).
      destruct (IH st1 (items ++ [v]) (bs ++ [b])) as [res [st2 [Hrun2 [Hev2 Hres2]]]].
      * eapply report_object_evolves; eauto.
      * exact Hl1.
      * apply Forall2_app; [| now repeat constructor].
        eapply Forall2_impl; [| exact Hq]. intros; eapply Hstable; eauto.
      * exists res, st2. split; [exact Hrun2 |].
        split; [eapply evolves_trans; eauto |].
        destruct (traverse pure xs) as [new | e]; simpl; [| exact Hres2].
        now rewrite <- app_assoc in Hres2.
    + subst res. rewrite (bind_err _ _ _ _ _ Hrun).
      exists (Err e), st1. auto.
Qed.

(** A method that collects one dict per element in a list and makes a
    frame of them. *)
Lemma records_method_run {A B} (pure : A -> Result B) (rec : B -> list val)
    (body : ref -> A -> Cmd unit) (columns : list string) xs :
  (forall l x st items,
      report_object st self d f tc ->
      nth_error st l = Some (PyList items) ->
      exists res st',
        body l x st = (res, st') /\ evolves l st st'
        /\ match pure x with
           | Ok b => res = Ok tt
                     /\ exists v, nth_error st' l = Some (PyList (items ++ [v]))
                                  /\ row_dict columns l st' v (rec b)
           | Err e => res = Err e
           end) ->
  forall st,
    report_object st self d f tc ->
    exists res extra,
      (l <- new_list ;; for_each xs (body l) ;;; pd_DataFrame l columns) st
      = (res, st ++ extra)
      /\ match traverse pure xs with
         | Ok rows =>
             exists v, res = Ok v
                       /\ reads (length st) (st ++ extra) v
                            (TPandas (PRecords columns (map rec rows)))
         | Err e => res = Err e
         end.
Proof.
  intros Hbody st Hr.
  rewrite (bind_ok _ _ _ _ _ (new_list_run st)).
  set (l := length st).
  destruct (for_each_append_run
              (fun st' v b => row_dict columns l st' v (rec b))
              pure (body l) l) with
    (xs := xs) (st := st ++ [PyList []]) (items := @nil val) (bs := @nil B)
    as [res [st2 [Hrun [Hev Hres]]]].
  - intros s1 s2 v b. apply row_dict_stable.
  - apply Hbody.
  - now apply report_object_app.
  - apply nth_error_app_new.
  - constructor.
  - assert (Hev0 : evolves l st st2)
      by (eapply evolves_trans; [apply evolves_app | exact Hev]).
    destruct (evolves_extends l st st2 (le_n _) Hev0) as [extra ->].
    destruct (traverse pure xs) as [rows | e].
    + destruct Hres as [-> [items [Hl Hrows]]]. simpl in Hrows.
      rewrite (bind_ok _ _ _ _ _ Hrun).
      rewrite (pd_DataFrame_run _ l columns items (map rec rows) Hl).
      * exists (Ok (VRef (length (st ++ extra)))), (extra ++ [Pandas (PRecords columns (map rec rows))]).
        rewrite app_assoc. split; [reflexivity |].
        eexists. split; [reflexivity |].
        apply reads_pandas; [rewrite length_app; unfold l; lia |].
        apply nth_error_app_new.
      * clear - Hrows. induction Hrows; simpl; constructor; auto.
        now exists l.
    + subst res. rewrite (bind_err _ _ _ _ _ Hrun).
      exists (Err e), extra. auto.
Qed.


End ReportObject.
(** The end of a loop body that builds a row: fill a new dict from
    the pairs and append it to the list at [l]. *)
Lemma build_row_run s0 s1 l items kvs columns :
  evolves l s0 s1 ->
  nth_error s1 l = Some (PyList items) ->
  exists st',
    (for_each kvs (fun vv => dict_setitem (length s1) (fst vv) (snd vv)) ;;;
     list_append l (VRef (length s1))) (s1 ++ [PyDict []]) = (Ok tt, st')
    /\ evolves l s0 st'
    /\ exists v,
         nth_error st' l = Some (PyList (items ++ [v]))
         /\ row_dict columns l st' v
              (record columns
                 (fold_left (fun d vv => dict_set d (fst vv) (snd vv)) kvs [])).
Proof.
  intros Hev Hl.
  pose proof (nth_error_Some_lt _ _ _ Hl) as Hlt.
  rewrite (bind_ok _ _ _ _ _
             (for_each_setitem_run _ _ kvs [] (nth_error_app_new s1 _))).
  erewrite list_append_run.
  2:{ rewrite nth_error_update_neq by lia.
      exact (nth_error_app_Some _ _ _ _ Hl). }
  eexists. split; [reflexivity |]. split; [| eexists; split].
  - apply evolves_write; [| now left].
    apply evolves_write; [| right; destruct Hev; lia].
    eapply evolves_trans; [exact Hev | apply evolves_app].
  - apply nth_error_update_eq. rewrite length_update, length_app. lia.
  - eexists (length s1), _. repeat split; [lia | ].
    rewrite nth_error_update_neq by lia.
    apply nth_error_update_eq. rewrite length_app. simpl. lia.
Qed.

Lemma structure_summary_implements :
  implements BorrowerObj.structure_summary Borrower.structure_summary
    Borrower.init (fun r => borrower_tree (Borrower.AStructure r)).
Proof.
  intros st self d f tc Hr.
  unfold result_of. rewrite structure_summary_run.
  cbn [fst Borrower.df Borrower.init].
  unfold BorrowerObj.structure_summary.
  set (cols5 := ["column"; "dtype"; "n_missing"; "missing_pct"; "n_unique"]).
  destruct (records_method_run self d f tc
              (fun col => s <~ getitem f col ;; Ok (borrower_row col s))
              borrower_record
              (fun dataframe_list col =>
                 new_dict ;;;
                 dtype <- (s <- self_df_getitem self col ;;
                           ret (VDtype (dtypes s))) ;;
                 n_missing <- (s <- self_df_getitem self col ;;
                               ret (VInt (sum_bool (isna s)))) ;;
                 missing_pct <- (s <- self_df_getitem self col ;;
                                 ret (VFloat (mean_bool (isna s)))) ;;
                 n_unique <- (s <- self_df_getitem self col ;;
                              ret (VInt (nunique s))) ;;
                 empty_dict <- new_dict ;;
                 for_each
                   (combine cols5
                      [VStr col; dtype; n_missing; missing_pct; n_unique])
                   (fun vv => dict_setitem empty_dict (fst vv) (snd vv)) ;;;
                 list_append dataframe_list (VRef empty_dict))
              cols5 Borrower.BORROWER_COLS) with (st := st)
    as [res [extra [Hrun Hres]]]; [| exact Hr |].
  - clear. intros l col s0 items Hr Hl.
    pose proof (report_object_app self d f tc s0 [PyDict []] Hr) as Hr1.
    rewrite (bind_ok _ _ _ _ _ (new_dict_run s0)).
    rewrite (bind_run _ _ _ _ (column_expr_run self d f tc _ col _ Hr1)).
    destruct (getitem f col) as [s |] eqn:G; cbn [rbind].
    2:{ eexists _, _. split; [reflexivity |]. split; [apply evolves_app |].
        reflexivity. }
    do 3 (rewrite (bind_run _ _ _ _ (column_expr_run self d f tc _ col _ Hr1)),
            G; cbn [rbind]).
    rewrite (bind_ok _ _ _ _ _ (new_dict_run _)).
    destruct (build_row_run s0 (s0 ++ [PyDict []]) l items
                (combine cols5
                   [VStr col; VDtype (dtypes s); VInt (sum_bool (isna s));
                    VFloat (mean_bool (isna s)); VInt (nunique s)])
                cols5 (evolves_app l s0 _) (nth_error_app_Some _ _ _ _ Hl))
      as [st' [Hrun [Hev Hrow]]].
    exists (Ok tt), st'. split; [exact Hrun |]. split; [exact Hev |].
    split; [reflexivity | exact Hrow].
  - exists res, extra. split; [exact Hrun |].
    destruct (traverse _ Borrower.BORROWER_COLS); exact Hres.
Qed.

Lemma credit_structure_summary_implements :
  implements CreditObj.credit_structure_summary
    Credit.credit_structure_summary
    Credit.init (fun r => credit_tree (Credit.AStructure r)).
Proof.
  intros st self d f tc Hr.
  unfold result_of. rewrite credit_structure_summary_run.
  cbn [fst Credit.df Credit.init].
  unfold CreditObj.credit_structure_summary.
  set (cols6 :=
         ["column"; "dtype"; "n_missing"; "missing_pct"; "mean"; "std"]).
  destruct (records_method_run self d f tc
              (fun col => s <~ getitem f col ;; credit_row f col s)
              credit_record
              (fun dataframe_list col =>
                 dtype <- (s <- self_df_getitem self col ;;
                           ret (VDtype (dtypes s))) ;;
                 n_missing <- (s <- self_df_getitem self col ;;
                               ret (VInt (sum_bool (isna s)))) ;;
                 missing_pct <- (s <- self_df_getitem self col ;;
                                 ret (VFloat (mean_bool (isna s)))) ;;
                 is_numeric <-
                   (s <- self_df_getitem self col ;;
                    d <- getattr_df self ;;
                    f <- frame d ;;
                    ret (dtype_in (dtypes s)
                           (frame_dtypes (select_dtypes_number f)))) ;;
                 mean_std <-
                   (if is_numeric : bool then
                      mean <- (s <- self_df_getitem self col ;;
                               m <- lift (Pd.mean s) ;; ret (VFloat m)) ;;
                      std <- (s <- self_df_getitem self col ;;
                              sd <- lift (Pd.std s) ;; ret (VReal sd)) ;;
                      ret (mean, std)
                    else ret (VFloat NaN, VReal RNaN)) ;;
                 empty_dict <- new_dict ;;
                 for_each
                   (combine cols6
                      [VStr col; dtype; n_missing; missing_pct;
                       fst mean_std; snd mean_std])
                   (fun vv => dict_setitem empty_dict (fst vv) (snd vv)) ;;;
                 list_append dataframe_list (VRef empty_dict))
              cols6 Credit.CREDIT_NUMERIC_COLS) with (st := st)
    as [res [extra [Hrun Hres]]]; [| exact Hr |].
  - clear. intros l col s0 items Hr Hl.
    rewrite (bind_run _ _ _ _ (column_expr_run self d f tc _ col _ Hr)).
    destruct (getitem f col) as [s |] eqn:G; cbn [rbind].
    2:{ eexists _, _. split; [reflexivity |]. split; [apply evolves_refl |].
        reflexivity. }
    do 2 (rewrite (bind_run _ _ _ _ (column_expr_run self d f tc _ col _ Hr)),
            G; cbn [rbind]).
    unfold bind at 1.
    rewrite (bind_run _ _ _ _ (self_df_getitem_run self d f tc _ col Hr)), G.
    rewrite (bind_ok _ _ _ _ _ (getattr_df_run self d f tc _ Hr)).
    rewrite (bind_ok _ _ _ _ _ (frame_run self d f tc _ Hr)).
    unfold ret at 1. unfold credit_row.
    destruct (dtype_in _ _).
    + unfold bind at 1. unfold bind at 1.
      rewrite (bind_run _ _ _ _ (self_df_getitem_run self d f tc _ col Hr)), G.
      unfold lift at 1, bind at 1.
      destruct (Pd.mean s) as [m | e]; cbn [rbind].
      2:{ eexists _, _. split; [reflexivity |]. split; [apply evolves_refl |].
          reflexivity. }
      unfold ret at 1. unfold bind at 1.
      rewrite (bind_run _ _ _ _ (self_df_getitem_run self d f tc _ col Hr)), G.
      unfold lift at 1, bind at 1.
      destruct (Pd.std s) as [sd | e]; cbn [rbind].
      2:{ eexists _, _. split; [reflexivity |]. split; [apply evolves_refl |].
          reflexivity. }
      unfold ret at 1. unfold ret at 1. cbn [fst snd].
      rewrite (bind_ok _ _ _ _ _ (new_dict_run _)).
      destruct (build_row_run s0 s0 l items
                  (combine cols6
                     [VStr col; VDtype (dtypes s); VInt (sum_bool (isna s));
                      VFloat (mean_bool (isna s)); VFloat m; VReal sd])
                  cols6 (evolves_refl l s0) Hl)
        as [st' [Hrun [Hev Hrow]]].
      exists (Ok tt), st'. split; [exact Hrun |]. split; [exact Hev |].
      split; [reflexivity | exact Hrow].
    + unfold bind at 1, ret at 1. cbn [fst snd].
      rewrite (bind_ok _ _ _ _ _ (new_dict_run _)).
      destruct (build_row_run s0 s0 l items
                  (combine cols6
                     [VStr col; VDtype (dtypes s); VInt (sum_bool (isna s));
                      VFloat (mean_bool (isna s)); VFloat NaN; VReal RNaN])
                  cols6 (evolves_refl l s0) Hl)
        as [st' [Hrun [Hev Hrow]]].
      exists (Ok tt), st'. split; [exact Hrun |]. split; [exact Hev |].
      split; [reflexivity | exact Hrow].
  - exists res, extra. split; [exact Hrun |].
    destruct (traverse _ Credit.CREDIT_NUMERIC_COLS); exact Hres.
Qed.

(** ** Methods that return one pandas object *)

Lemma new_reads st p :
  reads (length st) (st ++ [Pandas p]) (VRef (length st)) (TPandas p).
Proof. apply reads_pandas; [lia | apply nth_error_app_new]. Qed.

Lemma fails_implemented (st : Store) e :
  exists (res : Result val) (extra : list obj),
    (Err e, st) = (res, st ++ extra) /\ res = Err e.
Proof. exists (Err e), []. now rewrite app_nil_r. Qed.

Lemma income_summary_implements :
  implements BorrowerObj.income_summary Borrower.income_summary
    Borrower.init (fun t => borrower_tree (Borrower.AIncome t)).
Proof.
  intros st self d f tc Hr.
  unfold result_of. rewrite income_summary_run.
  cbn [fst Borrower.df Borrower.init].
  unfold BorrowerObj.income_summary.
  rewrite (bind_ok _ _ _ _ _ (getattr_df_run self d f tc _ Hr)).
  rewrite (bind_ok _ _ _ _ _ (frame_run self d f tc _ Hr)).
  unfold bind at 1, lift at 1.
  destruct (getitem_list f _) as [sub | e]; cbn [rbind];
    [| apply fails_implemented].
  unfold bind at 1, lift at 1.
  destruct (describe sub) as [t | e]; cbn [rbind];
    [| apply fails_implemented].
  rewrite new_run. eexists _, _. split; [reflexivity |].
  eexists. split; [reflexivity | apply new_reads].
Qed.

Lemma default_rate_by_category_implements col :
  implements (BorrowerObj.default_rate_by_category col)
    (Borrower.default_rate_by_category col)
    Borrower.init (fun s => borrower_tree (Borrower.ARates s)).
Proof.
  intros st self d f tc Hr.
  unfold result_of. rewrite default_rate_by_category_run.
  cbn [fst Borrower.df Borrower.target_col Borrower.init].
  unfold BorrowerObj.default_rate_by_category.
  rewrite (bind_ok _ _ _ _ _ (getattr_df_run self d f tc _ Hr)).
  rewrite (bind_ok _ _ _ _ _ (frame_run self d f tc _ Hr)).
  unfold bind at 1, lift at 1.
  destruct (groupby f col) as [g | e]; cbn [rbind];
    [| apply fails_implemented].
  rewrite (bind_ok _ _ _ _ _ (getattr_target_col_run self d f tc _ Hr)).
  unfold bind at 1, lift at 1.
  destruct (gb_getitem g tc) as [sg | e]; cbn [rbind];
    [| apply fails_implemented].
  unfold bind at 1, lift at 1.
  destruct (sgb_mean sg) as [r | e]; [| apply fails_implemented].
  rewrite new_run. eexists _, _. split; [reflexivity |].
  eexists. split; [reflexivity | apply new_reads].
Qed.

Lemma default_rate_by_bucket_implements observed col bins :
  implements (CreditObj.default_rate_by_bucket observed col bins)
    (Credit.default_rate_by_bucket observed col bins)
    Credit.init (fun r => credit_tree (Credit.ABuckets r)).
Proof.
  intros st self d f tc Hr.
  unfold result_of. rewrite default_rate_by_bucket_run.
  cbn [fst Credit.df Credit.target_col Credit.init].
  unfold CreditObj.default_rate_by_bucket.
  unfold bind at 1.
  rewrite (bind_run _ _ _ _ (self_df_getitem_run self d f tc _ col Hr)).
  destruct (getitem f col) as [s | e]; cbn [rbind];
    [| apply fails_implemented].
  unfold lift at 1.
  destruct (qcut s bins) as [b | e]; cbn [rbind];
    [| apply fails_implemented].
  unfold bind at 1.
  rewrite (bind_ok _ _ _ _ _ (getattr_df_run self d f tc _ Hr)).
  rewrite (bind_ok _ _ _ _ _ (frame_run self d f tc _ Hr)).
  cbv zeta.
  rewrite (bind_ok _ _ _ _ _ (getattr_target_col_run self d f tc _ Hr)).
  unfold bind at 1, lift at 1.
  destruct (gb_getitem _ tc) as [sg | e]; cbn [rbind];
    [| apply fails_implemented].
  unfold lift at 1.
  destruct (sgb_agg_count_mean sg) as [a | e]; [| apply fails_implemented].
  rewrite new_run. eexists _, _. split; [reflexivity |].
  eexists. split; [reflexivity | apply new_reads].
Qed.

(** ** The correlations *)

Lemma combine_map_r {A B C} (g : B -> C) (a : list A) (b : list B) :
  combine a (map g b) = map (fun kv => (fst kv, g (snd kv))) (combine a b).
Proof.
  revert b. induction a as [| x a IH]; intros [| y b]; simpl; auto.
  now rewrite IH.
Qed.

Lemma Forall2_eq_map {A B} (g : B -> A) l bs :
  Forall2 (fun v b => v = g b) l bs -> l = map g bs.
Proof. induction 1; simpl; congruence. Qed.

Lemma correlation_with_default_implements :
  implements CreditObj.correlation_with_default
    Credit.correlation_with_default
    Credit.init (fun s => credit_tree (Credit.ACorr s)).
Proof.
  intros st self d f tc Hr.
  unfold result_of. rewrite correlation_with_default_run.
  cbn [fst Credit.df Credit.target_col Credit.init].
  unfold CreditObj.correlation_with_default.
  rewrite (bind_ok _ _ _ _ _ (new_list_run st)).
  set (l := length st).
  set (pure := fun col => a <~ getitem f col ;; b <~ getitem f tc ;; corr a b).
  destruct (for_each_append_run self d f tc
              (fun _ v b => v = VReal b) pure
              (fun col =>
                 correlation <-
                   (a <- self_df_getitem self col ;;
                    t <- getattr_target_col self ;;
                    b <- self_df_getitem self t ;;
                    c <- lift (corr a b) ;;
                    ret (VReal c)) ;;
                 list_append l correlation) l) with
    (xs := Credit.CREDIT_NUMERIC_COLS) (st := st ++ [PyList []])
    (items := @nil val) (bs := @nil real64)
    as [res [st2 [Hrun [Hev Hres]]]].
  - auto.
  - clear. intros col s0 items Hr Hl. unfold pure.
    unfold bind at 1.
    rewrite (bind_run _ _ _ _ (self_df_getitem_run self d f tc _ col Hr)).
    destruct (getitem f col) as [a | e]; cbn [rbind].
    2:{ eexists _, _. split; [reflexivity |]. split; [apply evolves_refl |].
        reflexivity. }
    rewrite (bind_ok _ _ _ _ _ (getattr_target_col_run self d f tc _ Hr)).
    rewrite (bind_run _ _ _ _ (self_df_getitem_run self d f tc _ tc Hr)).
    destruct (getitem f tc) as [b | e]; cbn [rbind].
    2:{ eexists _, _. split; [reflexivity |]. split; [apply evolves_refl |].
        reflexivity. }
    unfold bind at 1, lift at 1.
    destruct (corr a b) as [c | e].
    2:{ eexists _, _. split; [reflexivity |]. split; [apply evolves_refl |].
        reflexivity. }
    unfold ret at 1. rewrite (list_append_run _ _ _ _ Hl).
    eexists _, _. split; [reflexivity |].
    split; [apply evolves_update |]. split; [reflexivity |].
    exists (VReal c). split; [| reflexivity].
    apply nth_error_update_eq. now apply nth_error_Some_lt in Hl.
  - now apply report_object_app.
  - apply nth_error_app_new.
  - constructor.
  - assert (Hev0 : evolves l st st2)
      by (eapply evolves_trans; [apply evolves_app | exact Hev]).
    destruct (evolves_extends l st st2 (le_n _) Hev0) as [extra ->].
    destruct (traverse pure Credit.CREDIT_NUMERIC_COLS) as [rows | e] eqn:T.
    + destruct Hres as [-> [items [Hl Hrows]]]. simpl in Hrows.
      apply Forall2_eq_map in Hrows. subst items.
      rewrite (bind_ok _ _ _ _ _ Hrun).
      rewrite (pd_Series_run _ l _ _ Hl)
        by (now rewrite length_map, (traverse_length _ _ _ T)).
      exists (Ok (VRef (length (st ++ extra)))),
        (extra ++ [Pandas (PLabelled (combine Credit.CREDIT_NUMERIC_COLS
                                        (map VReal rows)))]).
      rewrite app_assoc. split; [reflexivity |].
      eexists. split; [reflexivity |]. cbn [rbind credit_tree].
      rewrite <- combine_map_r.
      apply reads_pandas; [rewrite length_app; unfold l; lia |].
      apply nth_error_app_new.
    + subst res. rewrite (bind_err _ _ _ _ _ Hrun).
      exists (Err e), extra. cbn [rbind]. auto.
Qed.

(** ** Loops that fill a dict with results *)

Lemma reads_items_weaken lo st vs ts lo' :
  reads_items lo st vs ts -> lo' <= lo -> reads_items lo' st vs ts.
Proof.
  intros Hr Hlo.
  exact (proj2 (proj2 (reads_preserved lo st lo' st Hlo
                         (fun r o _ E => E))) vs ts Hr).
Qed.

Section DictLoops.
Variables (self d : ref) (f : DataFrame) (tc : string).

Lemma for_each_collect_run {A} (key : A -> string) (call : A -> Cmd val)
    dd xs outs :
  Forall2 (fun x o => call_spec self d f tc (call x) o) xs outs ->
  forall st items ts,
    report_object st self d f tc ->
    nth_error st dd = Some (PyDict items) ->
    reads_items (S dd) st items ts ->
    exists res st',
      for_each xs (fun x => result <- call x ;;
                            dict_setitem dd (key x) result) st = (res, st')
      /\ evolves dd st st'
      /\ match traverse (fun o => o) outs with
         | Ok new =>
             res = Ok tt
             /\ exists items',
                 nth_error st' dd = Some (PyDict items')
                 /\ reads_items (S dd) st' items'
                      (fold_left (fun acc kt => dict_set acc (fst kt) (snd kt))
                                 (combine (map key xs) new) ts)
         | Err e => res = Err e
         end.
Proof.
  induction 1 as [| x o xs outs Hx _ IH]; intros st items ts Hr Hd Hi; simpl.
  - exists (Ok tt), st. split; [reflexivity |].
    split; [apply evolves_refl |]. split; [reflexivity |]. eauto.
  - destruct (Hx st Hr) as [res [extra [Hrun Hres]]].
    pose proof (nth_error_Some_lt _ _ _ Hd) as Hlt.
    destruct o as [t | e]; cbn [rbind].
    + destruct Hres as [v [-> Hv]].
      unfold bind at 1. rewrite (bind_ok _ _ _ _ _ Hrun).
      rewrite (dict_setitem_run _ dd items (key x) v)
        by now apply nth_error_app_Some.
      set (st1 := update (st ++ extra) dd
                         (PyDict (dict_set items (key x) v))).
      assert (Hev : evolves dd st st1)
        by (apply evolves_write; [apply evolves_app | now left]).
      destruct (report_object_dict self d f tc st dd items Hr Hd)
        as [Hds Hdd].
      destruct (IH st1 (dict_set items (key x) v) (dict_set ts (key x) t))
        as [res [st2 [Hrun2 [Hev2 Hres2]]]].
      * eapply report_object_evolves; eauto.
      * apply nth_error_update_eq. rewrite length_app. lia.
      * apply reads_items_set.
        -- eapply reads_items_evolves; eauto.
        -- eapply reads_evolves; [exact Hv | apply evolves_update | |]; lia.
      * exists res, st2. split; [exact Hrun2 |].
        split; [eapply evolves_trans; eauto |].
        destruct (traverse (fun o => o) outs); exact Hres2.
    + subst res. unfold bind at 1. rewrite (bind_err _ _ _ _ _ Hrun).
      exists (Err e), (st ++ extra). split; [reflexivity |].
      split; [apply evolves_app | reflexivity].
Qed.

(** A method that collects the results of calls in a new dict and
    returns it. *)
Lemma dict_method_run {A} (key : A -> string) (call : A -> Cmd val)
    xs outs :
  Forall2 (fun x o => call_spec self d f tc (call x) o) xs outs ->
  forall st,
    report_object st self d f tc ->
    exists res extra,
      (dd <- new_dict ;;
       for_each xs (fun x => result <- call x ;;
                             dict_setitem dd (key x) result) ;;;
       ret (VRef dd)) st = (res, st ++ extra)
      /\ match traverse (fun o => o) outs with
         | Ok new =>
             exists v,
               res = Ok v
               /\ reads (length st) (st ++ extra) v
                    (TDict
                       (fold_left
                          (fun acc kt => dict_set acc (fst kt) (snd kt))
                          (combine (map key xs) new) []))
         | Err e => res = Err e
         end.
Proof.
  intros Hcalls st Hr.
  rewrite (bind_ok _ _ _ _ _ (new_dict_run st)).
  set (dd := length st).
  destruct (for_each_collect_run key call dd xs outs Hcalls
              (st ++ [PyDict []]) [] [])
    as [res [st2 [Hrun [Hev Hres]]]].
  - now apply report_object_app.
  - apply nth_error_app_new.
  - constructor.
  - assert (Hev0 : evolves dd st st2)
      by (eapply evolves_trans; [apply evolves_app | exact Hev]).
    destruct (evolves_extends dd st st2 (le_n _) Hev0) as [extra ->].
    destruct (traverse (fun o => o) outs) as [new | e].
    + destruct Hres as [-> [items [Hd Hi]]].
      rewrite (bind_ok _ _ _ _ _ Hrun).
      exists (Ok (VRef dd)), extra. split; [reflexivity |].
      eexists. split; [reflexivity |].
      apply reads_dict with (items := items); [unfold dd; lia | exact Hd |].
      eapply reads_items_weaken; [exact Hi | unfold dd; lia].
    + subst res. rewrite (bind_err _ _ _ _ _ Hrun).
      exists (Err e), extra. auto.
Qed.

End DictLoops.

Lemma implements_call_spec {S A} heap (pure : M S A) init enc self d f tc :
  implements heap pure init enc ->
  call_spec self d f tc (heap self)
    (a <~ result_of pure (init f tc) ;; Ok (enc a)).
Proof.
  intros Hi st Hr. destruct (Hi st self d f tc Hr) as [res [extra [Hrun H]]].
  exists res, extra. split; [exact Hrun |].
  now destruct (result_of pure (init f tc)).
Qed.

Lemma value_counts_call_spec self d f tc var max_levels :
  call_spec self d f tc
    (s <- self_df_getitem self var ;;
     new (PCounts (head max_levels (value_counts s))))
    (s <~ getitem f var ;;
     Ok (TPandas (PCounts (head max_levels (value_counts s))))).
Proof.
  intros st Hr.
  rewrite (bind_run _ _ _ _ (self_df_getitem_run self d f tc _ var Hr)).
  destruct (getitem f var) as [s | e]; cbn [rbind];
    [| apply fails_implemented].
  rewrite new_run. eexists _, _. split; [reflexivity |].
  eexists. split; [reflexivity | apply new_reads].
Qed.

Lemma categorical_freqs_implements max_levels :
  implements (BorrowerObj.categorical_freqs max_levels)
    (Borrower.categorical_freqs max_levels)
    Borrower.init (fun x => borrower_tree (Borrower.AFreqs x)).
Proof.
  intros st self d f tc Hr.
  unfold result_of. rewrite categorical_freqs_run.
  cbn [fst Borrower.df Borrower.init].
  unfold BorrowerObj.categorical_freqs. cbv zeta.
  destruct (dict_method_run self d f tc (fun var : string => var)
              (fun var => s <- self_df_getitem self var ;;
                          new (PCounts (head max_levels (value_counts s))))
              ["home_ownership"; "addr_state"; "purpose"]
              (map (fun var =>
                      s <~ getitem f var ;;
                      Ok (TPandas (PCounts (head max_levels (value_counts s)))))
                   ["home_ownership"; "addr_state"; "purpose"]))
    with (st := st) as [res [extra [Hrun Hres]]]; [| exact Hr |].
  - repeat constructor; apply value_counts_call_spec.
  - exists res, extra. split; [exact Hrun |].
    cbn [map traverse] in Hres.
    destruct (getitem f "home_ownership"); cbn [rbind] in *; [| exact Hres].
    destruct (getitem f "addr_state"); cbn [rbind] in *; [| exact Hres].
    destruct (getitem f "purpose"); cbn [rbind] in *; exact Hres.
Qed.

(** ** The pipelines *)

(** A loop of read-only steps that fills a dict is a [traverse]. *)
Lemma for_setitem_traverse {S A V} (key : A -> string) (body : A -> M S V)
    xs s :
  (forall x, In x xs -> readonly (body x)) ->
  forall d,
    for_setitem key body xs d s =
    (vs <~ traverse (fun x => result_of (body x) s) xs ;;
     Ok (fold_left (fun acc kv => dict_set acc (fst kv) (snd kv))
                   (combine (map key xs) vs) d),
     s).
Proof.
  induction xs as [| x xs IH]; intros Hb d; simpl; [reflexivity |].
  rewrite bind_readonly by (apply Hb; now left).
  destruct (result_of (body x) s) as [v | e]; cbn [rbind]; [| reflexivity].
  rewrite IH by (intros y Hy; apply Hb; now right).
  destruct (traverse _ xs); reflexivity.
Qed.

Lemma traverse_map {A B C} (h : A -> B) (g : B -> Result C) xs :
  traverse g (map h xs) = traverse (fun x => g (h x)) xs.
Proof.
  induction xs as [| x xs IH]; simpl; [reflexivity |]. now rewrite IH.
Qed.

Lemma traverse_then {A B C} (g : A -> Result B) (enc : B -> C) xs :
  traverse (fun x => a <~ g x ;; Ok (enc a)) xs
  = (vs <~ traverse g xs ;; Ok (map enc vs)).
Proof.
  induction xs as [| x xs IH]; simpl; [reflexivity |].
  destruct (g x); cbn [rbind]; [| reflexivity].
  rewrite IH. now destruct (traverse g xs).
Qed.

Lemma dict_set_map {A B} (enc : A -> B) d k v :
  map (fun kv => (fst kv, enc (snd kv))) (dict_set d k v)
  = dict_set (map (fun kv => (fst kv, enc (snd kv))) d) k (enc v).
Proof.
  induction d as [| [k' v'] d IH]; simpl; [reflexivity |].
  destruct (String.eqb k' k); simpl; [reflexivity | now rewrite IH].
Qed.

Lemma dict_fill_map {A B} (enc : A -> B) keys vs d :
  fold_left (fun acc kt => dict_set acc (fst kt) (snd kt))
            (combine keys (map enc vs))
            (map (fun kv => (fst kv, enc (snd kv))) d)
  = map (fun kv => (fst kv, enc (snd kv)))
        (fold_left (fun acc kv => dict_set acc (fst kv) (snd kv))
                   (combine keys vs) d).
Proof.
  revert vs d. induction keys as [| k keys IH]; intros [| v vs] d; simpl;
    try reflexivity.
  now rewrite <- dict_set_map, IH.
Qed.

Lemma borrower_step_call_spec {A} (inj : A -> Borrower.Any) heap m
    self d f tc :
  implements heap m Borrower.init (fun a => borrower_tree (inj a)) ->
  call_spec self d f tc (heap self)
    (x <~ result_of (Borrower.callable inj m) (Borrower.init f tc) ;;
     Ok (borrower_tree x)).
Proof.
  intros Hi. rewrite borrower_callable_result.
  pose proof (implements_call_spec heap m _ _ self d f tc Hi) as H.
  now destruct (result_of m (Borrower.init f tc)).
Qed.

Lemma credit_step_call_spec {A} (inj : A -> Credit.Any) heap m
    self d f tc :
  implements heap m Credit.init (fun a => credit_tree (inj a)) ->
  call_spec self d f tc (heap self)
    (x <~ result_of (Credit.callable inj m) (Credit.init f tc) ;;
     Ok (credit_tree x)).
Proof.
  intros Hi. rewrite credit_callable_result.
  pose proof (implements_call_spec heap m _ _ self d f tc Hi) as H.
  now destruct (result_of m (Credit.init f tc)).
Qed.

Lemma run_borrower_eda_pipeline_implements :
  implements BorrowerObj.run_borrower_eda_pipeline
    Borrower.run_borrower_eda_pipeline
    Borrower.init (dict_tree borrower_tree).
Proof.
  intros st self d f tc Hr.
  unfold result_of, Borrower.run_borrower_eda_pipeline.
  rewrite for_setitem_traverse by apply borrower_steps_readonly.
  cbn [fst].
  unfold BorrowerObj.run_borrower_eda_pipeline.
  destruct (dict_method_run self d f tc
              (fun kv : string * Cmd val => fst kv) (fun kv => snd kv)
              (BorrowerObj.borrower_eda_steps self)
              (map (fun kv => x <~ result_of (snd kv) (Borrower.init f tc) ;;
                              Ok (borrower_tree x))
                   Borrower.borrower_eda_steps))
    with (st := st) as [res [extra [Hrun Hres]]]; [| exact Hr |].
  - rewrite borrower_eda_steps_items.
    repeat constructor; cbn [snd];
      apply borrower_step_call_spec;
      auto using structure_summary_implements, income_summary_implements,
        categorical_freqs_implements, default_rate_by_category_implements.
  - exists res, extra. split; [exact Hrun |].
    rewrite traverse_map, traverse_then in Hres.
    cbv beta in *.
    match type of Hres with
    | context [traverse ?g ?xs] => destruct (traverse g xs) as [vs | e]
    end; cbn [rbind] in *; [| exact Hres].
    unfold dict_tree.
    rewrite <- (dict_fill_map borrower_tree _ vs []).
    exact Hres.
Qed.

Lemma credit_history_report_implements observed :
  implements (CreditObj.credit_history_report observed)
    (Credit.credit_history_report observed)
    Credit.init (dict_tree credit_tree).
Proof.
  intros st self d f tc Hr.
  unfold result_of, Credit.credit_history_report.
  rewrite for_setitem_traverse by apply credit_steps_readonly.
  cbn [fst].
  unfold CreditObj.credit_history_report. cbv zeta.
  destruct (dict_method_run self d f tc
              (fun kv : string * Cmd val => fst kv) (fun kv => snd kv)
              (CreditObj.step_name observed self)
              (map (fun kv => x <~ result_of (snd kv) (Credit.init f tc) ;;
                              Ok (credit_tree x))
                   (Credit.step_name observed)))
    with (st := st) as [res [extra [Hrun Hres]]]; [| exact Hr |].
  - repeat constructor; cbn [snd];
      apply credit_step_call_spec;
      auto using credit_structure_summary_implements,
        default_rate_by_bucket_implements,
        correlation_with_default_implements.
  - exists res, extra. split; [exact Hrun |].
    rewrite traverse_map, traverse_then in Hres.
    cbv beta in *.
    match type of Hres with
    | context [traverse ?g ?xs] => destruct (traverse g xs) as [vs | e]
    end; cbn [rbind] in *; [| exact Hres].
    unfold dict_tree.
    rewrite <- (dict_fill_map credit_tree _ vs []).
    exact Hres.
Qed.

(** ** Calling twice *)

Lemma implements_repeatable {S A} heap (pure : M S A) init enc
    st self d f tc :
  implements heap pure init enc ->
  report_object st self d f tc ->
  repeatable_call heap st self.
Proof.
  intros Hi Hr.
  destruct (Hi st self d f tc Hr) as [res1 [extra1 [Hrun1 H1]]].
  destruct (Hi (st ++ extra1) self d f tc
               (report_object_app self d f tc st extra1 Hr))
    as [res2 [extra2 [Hrun2 H2]]].
  exists res1, extra1, res2, extra2.
  split; [exact Hrun1 |]. split; [exact Hrun2 |].
  destruct (result_of pure (init f tc)) as [a | e].
  - destruct H1 as [v1 [-> R1]], H2 as [v2 [-> R2]]. now exists (enc a).
  - now subst.
Qed.

(** The property is not automatic: a call that appends to a list it
    was given does not have it. *)
Lemma repeatable_call_excludes_append :
  ~ repeatable_call (fun l => list_append l (VInt 0) ;;; ret (VRef l))
      [PyList []] 0.
Proof.
  intros [res1 [extra1 [res2 [extra2 [H1 _]]]]].
  vm_compute in H1. discriminate H1.
Qed.

(** C9.  In the store, where the report object holds a reference to
    the dataset and lists and dicts are filled in place: every report
    method and both pipeline functions, called on a report object,
    leave every object that exists, and with them the dataset, the
    report object and whatever else refers to them, as it was, and
    only add objects; called twice in a row, both calls fail with the
    same exception or both return a value built from objects of their
    own, and the two values unfold to the same tree. *)
Theorem reports_repeatable_in_store st self d f tc :
  report_object st self d f tc ->
  repeatable_call BorrowerObj.structure_summary st self
  /\ repeatable_call BorrowerObj.income_summary st self
  /\ (forall max_levels,
        repeatable_call (BorrowerObj.categorical_freqs max_levels) st self)
  /\ (forall col,
        repeatable_call (BorrowerObj.default_rate_by_category col) st self)
  /\ repeatable_call BorrowerObj.run_borrower_eda_pipeline st self
  /\ repeatable_call CreditObj.credit_structure_summary st self
  /\ (forall observed col bins,
        repeatable_call
          (CreditObj.default_rate_by_bucket observed col bins) st self)
  /\ repeatable_call CreditObj.correlation_with_default st self
  /\ (forall observed,
        repeatable_call (CreditObj.credit_history_report observed) st self).
Proof.
  intros Hr.
  repeat match goal with |- _ /\ _ => split end; intros;
    eapply implements_repeatable; try exact Hr.
  - apply structure_summary_implements.
  - apply income_summary_implements.
  - apply categorical_freqs_implements.
  - apply default_rate_by_category_implements.
  - apply run_borrower_eda_pipeline_implements.
  - apply credit_structure_summary_implements.
  - apply default_rate_by_bucket_implements.
  - apply correlation_with_default_implements.
  - apply credit_history_report_implements.
Qed.

Lemma reports_repeatable_in_store_witness :
  report_object sample_store 1 0 sample_borrower_df "loan_status"
  /\ repeatable_call BorrowerObj.structure_summary sample_store 1
  /\ repeatable_call BorrowerObj.income_summary sample_store 1
  /\ (forall max_levels,
        repeatable_call (BorrowerObj.categorical_freqs max_levels)
          sample_store 1)
  /\ (forall col,
        repeatable_call (BorrowerObj.default_rate_by_category col)
          sample_store 1)
  /\ repeatable_call BorrowerObj.run_borrower_eda_pipeline sample_store 1
  /\ repeatable_call CreditObj.credit_structure_summary sample_store 1
  /\ (forall observed col bins,
        repeatable_call
          (CreditObj.default_rate_by_bucket observed col bins)
          sample_store 1)
  /\ repeatable_call CreditObj.correlation_with_default sample_store 1
  /\ (forall observed,
        repeatable_call (CreditObj.credit_history_report observed)
          sample_store 1).
Proof.
  split; [split; reflexivity |].
  exact (reports_repeatable_in_store sample_store 1 0 sample_borrower_df
           "loan_status" (conj eq_refl eq_refl)).
Defined.

(* ================================================================== *)
(** * Structure tables                                                 *)
(* ================================================================== *)

Lemma find_col_In cols col s :
  find_col cols col = Some s -> In (col, s) cols.
Proof.
  induction cols as [| [n t] cols IH]; simpl; [discriminate |].
  destruct (String.eqb n col) eqn:E.
  - apply String.eqb_eq in E. subst n. intros [= ->]. now left.
  - intros H. right. auto.
Qed.

Lemma getitem_In d col s : getitem d col = Ok s -> In (col, s) (columns d).
Proof.
  unfold getitem. destruct (find_col (columns d) col) eqn:E; [| discriminate].
  intros [= <-]. now apply find_col_In.
Qed.

Lemma wf_df_column d col s :
  wf_df d = true -> getitem d col = Ok s ->
  length (values s) = index_len d /\ wf_series s = true.
Proof.
  unfold wf_df. intros H G.
  rewrite forallb_forall in H. specialize (H _ (getitem_In _ _ _ G)).
  simpl in H. apply andb_prop in H. destruct H as [H1 H2].
  apply Nat.eqb_eq in H1. auto.
Qed.

Lemma mean_bool_ratio l : mean_bool l = ratio (sum_bool l) (length l).
Proof. now destruct l. Qed.

Lemma isna_length s : length (isna s) = length (values s).
Proof. unfold isna. apply length_map. Qed.

Lemma structure_summary_ok e :
  has_cols (Borrower.df e) Borrower.BORROWER_COLS = true ->
  exists rows,
    Borrower.structure_summary e =
    (Ok (mkRowFrame
           ["column"; "dtype"; "n_missing"; "missing_pct"; "n_unique"] rows),
     e)
    /\ Forall2 (fun col r => exists s, getitem (Borrower.df e) col = Ok s
                                       /\ r = borrower_row col s)
               Borrower.BORROWER_COLS rows.
Proof.
  intros H. rewrite structure_summary_run.
  destruct (traverse_ok_ex
              (fun col => s <~ getitem (Borrower.df e) col ;;
                          Ok (borrower_row col s))
              Borrower.BORROWER_COLS) as [rows Hrows].
  { intros col Hc.
    destruct (getitem_has _ _ (has_cols_in _ _ _ H Hc)) as [s Hs].
    exists (borrower_row col s). now rewrite Hs. }
  exists rows. rewrite Hrows. split; [reflexivity |].
  apply traverse_Forall2 in Hrows.
  eapply Forall2_impl; [| exact Hrows].
  intros col r Hr. simpl in Hr.
  destruct (getitem (Borrower.df e) col) as [s |]; simpl in Hr;
    [| discriminate].
  exists s. split; [reflexivity | congruence].
Qed.

(** C2.  On a well-formed dataset that has every borrower column,
    [structure_summary] returns a table with one row per column of
    [BORROWER_COLS], in the order of that list; in each row
    [n_missing] is the number of missing entries of the row's column
    and [missing_pct] is [n_missing] divided by the number of rows of
    the dataset. *)
Theorem structure_summary_rows e :
  wf_df (Borrower.df e) = true ->
  has_cols (Borrower.df e) Borrower.BORROWER_COLS = true ->
  exists t,
    Borrower.structure_summary e = (Ok t, e)
    /\ map Borrower.column (rf_rows t) = Borrower.BORROWER_COLS
    /\ Forall (fun r =>
                 (exists s, getitem (Borrower.df e) (Borrower.column r) = Ok s
                            /\ Borrower.n_missing r = sum_bool (isna s))
                 /\ Borrower.missing_pct r =
                    ratio (Borrower.n_missing r) (index_len (Borrower.df e)))
              (rf_rows t).
Proof.
  intros Hwf Hcols.
  destruct (structure_summary_ok e Hcols) as [rows [Hrun Hrows]].
  eexists. split; [exact Hrun |]. simpl. split.
  - eapply Forall2_map_left; [exact Hrows |].
    intros col r [s [_ ->]]. reflexivity.
  - eapply Forall2_Forall_right; [exact Hrows |].
    intros col r _ [s [Hs ->]]. simpl. split.
    + exists s. auto.
    + rewrite mean_bool_ratio, isna_length.
      now destruct (wf_df_column _ _ _ Hwf Hs) as [-> _].
Qed.

Lemma structure_summary_rows_witness :
  exists t,
    Borrower.structure_summary sample_borrower = (Ok t, sample_borrower)
    /\ map Borrower.column (rf_rows t) = Borrower.BORROWER_COLS
    /\ Forall (fun r =>
                 (exists s,
                     getitem sample_borrower_df (Borrower.column r) = Ok s
                     /\ Borrower.n_missing r = sum_bool (isna s))
                 /\ Borrower.missing_pct r = ratio (Borrower.n_missing r) 4)
              (rf_rows t).
Proof.
  apply (structure_summary_rows sample_borrower); reflexivity.
Defined.

Lemma dtype_eqb_eq a b : dtype_eqb a b = true <-> a = b.
Proof. destruct a, b; simpl; split; congruence. Qed.

(** The membership test of the source is the test "is a number dtype". *)
Lemma dtype_in_number d col s :
  getitem d col = Ok s ->
  dtype_in (dtypes s) (frame_dtypes (select_dtypes_number d)) =
  is_number (dtypes s).
Proof.
  intros G. apply getitem_In in G.
  unfold dtype_in, frame_dtypes, select_dtypes_number. simpl.
  destruct (is_number (dtypes s)) eqn:N.
  - apply existsb_exists. exists (dtypes s). split.
    + apply in_map_iff. exists (col, s). split; [reflexivity |].
      apply filter_In. auto.
    + now apply dtype_eqb_eq.
  - apply not_true_is_false. intros H. apply existsb_exists in H.
    destruct H as [t [Ht Heq]]. apply dtype_eqb_eq in Heq. subst t.
    apply in_map_iff in Ht. destruct Ht as [[c' s'] [Hd Hin]].
    apply filter_In in Hin. destruct Hin as [_ Hn]. simpl in *.
    congruence.
Qed.

Lemma to_numeric_ok ex l :
  forallb (fun c => negb (is_text c)) l = true ->
  exists xs, to_numeric ex l = Ok xs.
Proof.
  induction l as [| c l IH]; simpl; [now exists [] |].
  intros H. apply andb_prop in H. destruct H as [Hc Hl].
  destruct (IH Hl) as [xs Hxs].
  destruct c; simpl in *; try discriminate; rewrite Hxs; simpl; eauto.
Qed.

Lemma wf_number_no_text s :
  wf_series s = true -> is_number (dtypes s) = true ->
  no_text s = true.
Proof. unfold wf_series. destruct (dtypes s); simpl; congruence. Qed.

Lemma credit_row_ok d col s :
  wf_df d = true -> getitem d col = Ok s ->
  exists r,
    credit_row d col s = Ok r
    /\ Credit.column r = col
    /\ Credit.dtype r = dtypes s
    /\ if is_number (dtypes s)
       then Pd.mean s = Ok (Credit.mean r) /\ Pd.std s = Ok (Credit.std r)
       else Credit.mean r = NaN /\ Credit.std r = RNaN.
Proof.
  intros Hwf G. unfold credit_row. rewrite (dtype_in_number d col s G).
  destruct (is_number (dtypes s)) eqn:N.
  - destruct (wf_df_column _ _ _ Hwf G) as [_ Hs].
    destruct (to_numeric_ok TypeError _ (wf_number_no_text s Hs N)) as [xs Hxs].
    unfold Pd.mean, Pd.std. rewrite Hxs. simpl.
    eexists. split; [reflexivity |]. simpl. auto.
  - eexists. split; [reflexivity |]. simpl. auto.
Qed.

Lemma credit_structure_summary_ok e :
  wf_df (Credit.df e) = true ->
  has_cols (Credit.df e) Credit.CREDIT_NUMERIC_COLS = true ->
  exists rows,
    Credit.credit_structure_summary e =
    (Ok (mkRowFrame
           ["column"; "dtype"; "n_missing"; "missing_pct"; "mean"; "std"] rows),
     e)
    /\ Forall2 (fun col r => exists s, getitem (Credit.df e) col = Ok s
                                       /\ credit_row (Credit.df e) col s = Ok r)
               Credit.CREDIT_NUMERIC_COLS rows.
Proof.
  intros Hwf H. rewrite credit_structure_summary_run.
  destruct (traverse_ok_ex
              (fun col => s <~ getitem (Credit.df e) col ;;
                          credit_row (Credit.df e) col s)
              Credit.CREDIT_NUMERIC_COLS) as [rows Hrows].
  { intros col Hc.
    destruct (getitem_has _ _ (has_cols_in _ _ _ H Hc)) as [s Hs].
    destruct (credit_row_ok _ _ _ Hwf Hs) as [r [Hr _]].
    exists r. now rewrite Hs. }
  exists rows. rewrite Hrows. split; [reflexivity |].
  apply traverse_Forall2 in Hrows.
  eapply Forall2_impl; [| exact Hrows].
  intros col r Hr. simpl in Hr.
  destruct (getitem (Credit.df e) col) as [s |]; simpl in Hr; [| discriminate].
  exists s. auto.
Qed.

(** C7 (amended).  The credit column list has 29 entries.  On a
    well-formed dataset that has all 29, [credit_structure_summary]
    returns one row per column of [CREDIT_NUMERIC_COLS], in the order
    of that list; a row of a column with a number dtype carries the
    column's mean and standard deviation, and a row of any other column
    carries NaN for both. *)
Theorem credit_structure_summary_rows e :
  wf_df (Credit.df e) = true ->
  has_cols (Credit.df e) Credit.CREDIT_NUMERIC_COLS = true ->
  length Credit.CREDIT_NUMERIC_COLS = 29
  /\ exists t,
       Credit.credit_structure_summary e = (Ok t, e)
       /\ map Credit.column (rf_rows t) = Credit.CREDIT_NUMERIC_COLS
       /\ Forall (fun r =>
                    exists s,
                      getitem (Credit.df e) (Credit.column r) = Ok s
                      /\ Credit.dtype r = dtypes s
                      /\ if is_number (dtypes s)
                         then Pd.mean s = Ok (Credit.mean r)
                              /\ Pd.std s = Ok (Credit.std r)
                         else Credit.mean r = NaN /\ Credit.std r = RNaN)
                 (rf_rows t).
Proof.
  intros Hwf Hcols. split; [reflexivity |].
  destruct (credit_structure_summary_ok e Hwf Hcols) as [rows [Hrun Hrows]].
  eexists. split; [exact Hrun |]. simpl. split.
  - eapply Forall2_map_left; [exact Hrows |].
    intros col r [s [Hs Hr]].
    now destruct (credit_row_ok _ _ _ Hwf Hs) as [r' [Hr' [Hc _]]];
      rewrite Hr in Hr'; injection Hr' as ->.
  - eapply Forall2_Forall_right; [exact Hrows |].
    intros col r _ [s [Hs Hr]].
    destruct (credit_row_ok _ _ _ Hwf Hs) as [r' [Hr' [Hc [Hd Hm]]]].
    rewrite Hr in Hr'. injection Hr' as <-. subst col.
    exists s. auto.
Qed.

Lemma credit_structure_summary_rows_witness :
  length Credit.CREDIT_NUMERIC_COLS = 29
  /\ exists t,
       Credit.credit_structure_summary sample_credit = (Ok t, sample_credit)
       /\ map Credit.column (rf_rows t) = Credit.CREDIT_NUMERIC_COLS
       /\ Forall (fun r =>
                    exists s,
                      getitem sample_credit_df (Credit.column r) = Ok s
                      /\ Credit.dtype r = dtypes s
                      /\ if is_number (dtypes s)
                         then Pd.mean s = Ok (Credit.mean r)
                              /\ Pd.std s = Ok (Credit.std r)
                         else Credit.mean r = NaN /\ Credit.std r = RNaN)
                 (rf_rows t).
Proof.
  apply (credit_structure_summary_rows sample_credit); reflexivity.
Defined.

(** C7 as stated fails: the list has 29 columns, not 28, and a dataset
    with 28 of them (all but the last) gets no table at all. *)
Lemma credit_structure_summary_28_columns :
  length Credit.CREDIT_NUMERIC_COLS <> 28
  /\ wf_df credit_df_28_columns = true
  /\ has_cols credit_df_28_columns (firstn 28 Credit.CREDIT_NUMERIC_COLS)
     = true
  /\ Credit.credit_structure_summary credit_28_columns =
     (Err (KeyError "collections_12_mths_ex_med"),
      credit_28_columns).
Proof.
  split; [discriminate |]. split; [reflexivity |]. split; [reflexivity |].
  rewrite credit_structure_summary_run.
  change Credit.CREDIT_NUMERIC_COLS with
    (firstn 28 Credit.CREDIT_NUMERIC_COLS ++ ["collections_12_mths_ex_med"]).
  rewrite (traverse_err_at _ _ _ _ (KeyError "collections_12_mths_ex_med"));
    [reflexivity | | reflexivity].
  intros col Hc.
  assert (Hh : has_col credit_df_28_columns col = true)
    by (apply (has_cols_in _ (firstn 28 Credit.CREDIT_NUMERIC_COLS));
        [reflexivity | exact Hc]).
  destruct (getitem_has _ _ Hh) as [s Hs].
  destruct (credit_row_ok credit_df_28_columns col s eq_refl Hs) as [r [Hr _]].
  exists r. simpl. rewrite Hs. exact Hr.
Qed.

(* ================================================================== *)
(** * When the borrower steps succeed                                  *)
(* ================================================================== *)

Lemma describe_numeric_cols_ok cols :
  Forall (fun c => no_text (snd c) = true) cols ->
  exists ds, describe_numeric_cols cols = Ok ds.
Proof.
  induction 1 as [| [n s] cols Hs _ IH]; simpl; [now exists [] |].
  unfold describe_numeric_1d. simpl in Hs.
  destruct (to_numeric_ok TypeError _ Hs) as [xs ->]. simpl.
  destruct IH as [ds ->]. simpl. eauto.
Qed.

Lemma describe_ok d :
  columns d <> [] ->
  Forall (fun c => wf_series (snd c) = true) (columns d) ->
  exists t, describe d = Ok t.
Proof.
  intros Hne Hwf. unfold describe.
  destruct (columns d) as [| c cs] eqn:E; [congruence |].
  destruct (columns (select_dtypes_number d)) as [| n ns] eqn:N; [eauto |].
  destruct (describe_numeric_cols_ok (n :: ns)) as [ds ->]; [| simpl; eauto].
  rewrite <- N. unfold select_dtypes_number. simpl. rewrite E.
  apply Forall_forall. intros x Hx. apply filter_In in Hx.
  destruct Hx as [Hx Hn]. rewrite Forall_forall in Hwf.
  apply wf_number_no_text; auto.
Qed.

Lemma income_summary_ok e :
  wf_df (Borrower.df e) = true ->
  has_cols (Borrower.df e) ["annual_inc"; "annual_inc_joint"] = true ->
  exists t, Borrower.income_summary e = (Ok t, e).
Proof.
  intros Hwf H. rewrite income_summary_run.
  destruct (getitem_has (Borrower.df e) "annual_inc") as [s1 H1];
    [eapply has_cols_in; [exact H | simpl; tauto] |].
  destruct (getitem_has (Borrower.df e) "annual_inc_joint") as [s2 H2];
    [eapply has_cols_in; [exact H | simpl; tauto] |].
  unfold getitem_list. simpl. rewrite H1, H2. simpl.
  destruct (describe_ok
              {| index_len := index_len (Borrower.df e);
                 columns := [("annual_inc", s1); ("annual_inc_joint", s2)] |})
    as [t ->]; [discriminate | | simpl; eauto].
  simpl. repeat constructor; simpl;
    [apply (wf_df_column _ _ _ Hwf H1) | apply (wf_df_column _ _ _ Hwf H2)].
Qed.

Lemma categorical_freqs_ok max_levels e :
  has_cols (Borrower.df e) ["home_ownership"; "addr_state"; "purpose"] = true ->
  exists h a p,
    getitem (Borrower.df e) "home_ownership" = Ok h
    /\ getitem (Borrower.df e) "addr_state" = Ok a
    /\ getitem (Borrower.df e) "purpose" = Ok p
    /\ Borrower.categorical_freqs max_levels e =
       (Ok [ ("home_ownership", head max_levels (value_counts h));
             ("addr_state", head max_levels (value_counts a));
             ("purpose", head max_levels (value_counts p)) ],
        e).
Proof.
  intros H. rewrite categorical_freqs_run.
  destruct (getitem_has (Borrower.df e) "home_ownership") as [h Hh];
    [eapply has_cols_in; [exact H | simpl; tauto] |].
  destruct (getitem_has (Borrower.df e) "addr_state") as [a Ha];
    [eapply has_cols_in; [exact H | simpl; tauto] |].
  destruct (getitem_has (Borrower.df e) "purpose") as [p Hp];
    [eapply has_cols_in; [exact H | simpl; tauto] |].
  exists h, a, p. rewrite Hh, Ha, Hp. auto.
Qed.

Lemma default_rate_by_category_ok col e k t :
  getitem (Borrower.df e) col = Ok k ->
  getitem (Borrower.df e) (Borrower.target_col e) = Ok t ->
  no_text t = true ->
  exists ts,
    to_numeric TypeError (values t) = Ok ts
    /\ Borrower.default_rate_by_category col e =
       (Ok (map (fun il =>
                   (snd il,
                    mean_floats
                      (members
                         (map (fun c => if isna_cell c then None
                                        else index_of c
                                               (sort_cells
                                                  (unique (dropna (values k)))))
                              (values k))
                         ts (fst il))))
                (enumerate (sort_cells (unique (dropna (values k)))))),
        e).
Proof.
  intros Hk Ht Hn. rewrite default_rate_by_category_run.
  unfold groupby. rewrite Hk. simpl. unfold gb_getitem. simpl.
  rewrite Ht. simpl. unfold sgb_mean. simpl.
  destruct (to_numeric_ok TypeError _ Hn) as [ts Hts].
  exists ts. rewrite Hts. simpl. split; [reflexivity |].
  unfold result_groups. simpl. f_equal. f_equal. f_equal.
  apply forallb_filter_id. apply forallb_forall. reflexivity.
Qed.

(** ** The borrower pipeline *)

(** C5.  When the five borrower steps succeed on a report object, the
    pipeline returns a dict with exactly the keys "structure", "income",
    "freqs", "default_by_home_ownership", "default_by_purpose", in this
    order, each holding the result of its own step. *)
Theorem run_borrower_eda_pipeline_result e r1 r2 r3 r4 r5 :
  result_of Borrower.structure_summary e = Ok r1 ->
  result_of Borrower.income_summary e = Ok r2 ->
  result_of (Borrower.categorical_freqs 10) e = Ok r3 ->
  result_of (Borrower.default_rate_by_category "home_ownership") e = Ok r4 ->
  result_of (Borrower.default_rate_by_category "purpose") e = Ok r5 ->
  Borrower.run_borrower_eda_pipeline e =
  (Ok [ ("structure", Borrower.AStructure r1);
        ("income", Borrower.AIncome r2);
        ("freqs", Borrower.AFreqs r3);
        ("default_by_home_ownership", Borrower.ARates r4);
        ("default_by_purpose", Borrower.ARates r5) ],
   e).
Proof.
  intros H1 H2 H3 H4 H5.
  unfold Borrower.run_borrower_eda_pipeline.
  rewrite borrower_eda_steps_items. simpl for_setitem.
  rewrite bind_readonly
    by (apply borrower_callable_readonly, structure_summary_readonly).
  rewrite borrower_callable_result, H1. simpl.
  rewrite bind_readonly
    by (apply borrower_callable_readonly, income_summary_readonly).
  rewrite borrower_callable_result, H2. simpl.
  rewrite bind_readonly
    by (apply borrower_callable_readonly, categorical_freqs_readonly).
  rewrite borrower_callable_result, H3. simpl.
  rewrite bind_readonly
    by (apply borrower_callable_readonly, default_rate_by_category_readonly).
  rewrite borrower_callable_result, H4. simpl.
  rewrite bind_readonly
    by (apply borrower_callable_readonly, default_rate_by_category_readonly).
  rewrite borrower_callable_result, H5. reflexivity.
Qed.

Lemma run_borrower_eda_pipeline_result_witness :
  exists d,
    Borrower.run_borrower_eda_pipeline sample_borrower = (Ok d, sample_borrower)
    /\ keys d = ["structure"; "income"; "freqs"; "default_by_home_ownership";
                 "default_by_purpose"].
Proof.
  destruct (structure_summary_ok sample_borrower eq_refl) as [rows [H1 _]].
  destruct (income_summary_ok sample_borrower eq_refl eq_refl) as [t H2].
  destruct (categorical_freqs_ok 10 sample_borrower eq_refl)
    as [h [a [p [_ [_ [_ H3]]]]]].
  destruct (default_rate_by_category_ok "home_ownership" sample_borrower
              _ _ eq_refl eq_refl eq_refl) as [ts4 [_ H4]].
  destruct (default_rate_by_category_ok "purpose" sample_borrower
              _ _ eq_refl eq_refl eq_refl) as [ts5 [_ H5]].
  eexists. split.
  - apply (run_borrower_eda_pipeline_result sample_borrower);
      unfold result_of;
      [rewrite H1 | rewrite H2 | rewrite H3 | rewrite H4 | rewrite H5];
      reflexivity.
  - reflexivity.
Defined.

(* ================================================================== *)
(** * Distinct values and frequencies                                  *)
(* ================================================================== *)

Lemma cell_eqb_eq a b : cell_eqb a b = true <-> a = b.
Proof.
  destruct a as [| p | s], b as [| q | t]; simpl;
    try (split; [discriminate | congruence]); try tauto.
  - unfold Qc_eq_bool. destruct (Qc_eq_dec p q) as [-> | N].
    + tauto.
    + split; [discriminate | congruence].
  - rewrite String.eqb_eq. split; congruence.
Qed.

Lemma cell_eqb_refl a : cell_eqb a a = true.
Proof. now apply cell_eqb_eq. Qed.

Lemma Qc_eq_bool_eq p q : Qc_eq_bool p q = true <-> p = q.
Proof.
  unfold Qc_eq_bool. destruct (Qc_eq_dec p q) as [-> | N]; [tauto |].
  split; [discriminate | congruence].
Qed.

Section UniqueBy.
Context {A : Type} (eqb : A -> A -> bool).
Hypothesis eqb_eq : forall x y, eqb x y = true <-> x = y.

Lemma unique_by_In x l : In x (unique_by eqb l) <-> In x l.
Proof.
  induction l as [| y l IH]; simpl; [tauto |].
  rewrite filter_In, IH. cbv beta. split.
  - intros [-> | [H _]]; auto.
  - intros [-> | H]; [now left |].
    destruct (eqb x y) eqn:E.
    + apply eqb_eq in E. subst. now left.
    + right. split; [assumption | reflexivity].
Qed.

Lemma unique_by_NoDup l : NoDup (unique_by eqb l).
Proof.
  induction l as [| y l IH]; simpl; constructor.
  - rewrite filter_In. cbv beta. intros [_ H].
    assert (E : eqb y y = true) by now apply eqb_eq.
    now rewrite E in H.
  - now apply NoDup_filter.
Qed.

Lemma unique_by_length l : length (unique_by eqb l) <= length l.
Proof.
  induction l as [| y l IH]; simpl; [lia |].
  pose proof (filter_length_le (fun z => negb (eqb z y)) (unique_by eqb l)).
  lia.
Qed.
End UniqueBy.

Lemma unique_by_NoDup_id {A} (eqb : A -> A -> bool) l :
  (forall x y, eqb x y = true <-> x = y) ->
  NoDup l -> unique_by eqb l = l.
Proof.
  intros Heq. induction 1 as [| x l Hx _ IH]; simpl; [reflexivity |].
  rewrite IH. f_equal. apply forallb_filter_id. apply forallb_forall.
  intros y Hy. apply negb_true_iff, not_true_is_false.
  intros E. apply Heq in E. now subst.
Qed.

Lemma unique_In x l : In x (unique l) <-> In x l.
Proof. apply unique_by_In, cell_eqb_eq. Qed.

Lemma unique_NoDup l : NoDup (unique l).
Proof. apply unique_by_NoDup, cell_eqb_eq. Qed.

Lemma dropna_In x l : In x (dropna l) <-> In x l /\ x <> NA.
Proof.
  unfold dropna. rewrite filter_In. destruct x; simpl; intuition congruence.
Qed.

Lemma count_cell_dropna v l :
  v <> NA -> count_cell v (dropna l) = count_cell v l.
Proof.
  intros Hv. unfold count_cell, dropna.
  induction l as [| c l IH]; simpl; [reflexivity |].
  destruct c; simpl.
  - destruct v; simpl; congruence.
  - destruct (cell_eqb v (Num q)); simpl; now rewrite IH.
  - destruct (cell_eqb v (Str s)); simpl; now rewrite IH.
Qed.

Lemma count_cell_pos v l : In v l -> 0 < count_cell v l.
Proof.
  unfold count_cell. induction l as [| c l IH]; simpl; [contradiction |].
  intros [-> | H].
  - rewrite cell_eqb_refl. simpl. lia.
  - destruct (cell_eqb v c); simpl; [lia | auto].
Qed.

(** ** Sorting by descending count *)

Lemma insert_desc_perm x l : Permutation (insert_desc x l) (x :: l).
Proof.
  induction l as [| y l IH]; simpl; [reflexivity |].
  destruct (snd y <=? snd x); [reflexivity |].
  rewrite IH. apply perm_swap.
Qed.

Lemma sort_desc_perm l : Permutation (sort_desc l) l.
Proof.
  induction l as [| x l IH]; simpl; [reflexivity |].
  rewrite insert_desc_perm. now constructor.
Qed.

Lemma insert_desc_sorted x l :
  Sorted (fun a b => snd b <= snd a) l ->
  Sorted (fun a b => snd b <= snd a) (insert_desc x l).
Proof.
  induction 1 as [| y l Hs IH Hhd]; simpl; [repeat constructor |].
  destruct (snd y <=? snd x) eqn:E.
  - apply Nat.leb_le in E. repeat constructor; assumption.
  - apply Nat.leb_gt in E. constructor; [exact IH |].
    destruct l as [| z l]; simpl.
    + constructor. lia.
    + inversion Hhd; subst. destruct (snd z <=? snd x); constructor; lia.
Qed.

Lemma sort_desc_sorted l : Sorted (fun a b => snd b <= snd a) (sort_desc l).
Proof.
  induction l as [| x l IH]; simpl; [constructor |].
  now apply insert_desc_sorted.
Qed.

Lemma Sorted_firstn {A} (R : A -> A -> Prop) n l :
  Sorted R l -> Sorted R (firstn n l).
Proof.
  revert l. induction n as [| n IH]; intros l H; simpl; [constructor |].
  destruct l as [| x l]; [constructor |].
  inversion H; subst. constructor; [now apply IH |].
  destruct n; simpl; [constructor |].
  destruct l; [constructor |]. inversion H3; subst. now constructor.
Qed.

Lemma Sorted_map_snd {A} (l : list (A * nat)) :
  Sorted (fun a b => snd b <= snd a) l -> descending (map snd l).
Proof.
  unfold descending. induction 1 as [| x l Hs IH Hhd]; simpl; constructor.
  - exact IH.
  - destruct Hhd; simpl; now constructor.
Qed.

Lemma head_prefix {A} n (l : list A) : prefix_of (head n l) l.
Proof.
  unfold head, prefix_of.
  destruct (0 <=? n)%Z; eexists; symmetry; apply firstn_skipn.
Qed.

Lemma head_length {A} n (l : list A) :
  (0 <= n)%Z -> length (head n l) <= Z.to_nat n.
Proof.
  intros H. unfold head. apply Z.leb_le in H. rewrite H.
  apply firstn_le_length.
Qed.

Lemma head_sorted {A} (R : A -> A -> Prop) n l :
  Sorted R l -> Sorted R (head n l).
Proof.
  intros H. unfold head. destruct (0 <=? n)%Z; now apply Sorted_firstn.
Qed.

Lemma value_counts_sorted s :
  Sorted (fun a b => snd b <= snd a) (value_counts s).
Proof. apply sort_desc_sorted. Qed.

(** The levels of [value_counts] are the distinct non-missing values. *)
Lemma value_counts_levels s :
  Permutation (map fst (value_counts s)) (unique (dropna (values s))).
Proof.
  unfold value_counts. rewrite sort_desc_perm, map_map. simpl.
  now rewrite map_id.
Qed.

Lemma value_counts_entry s v c :
  In (v, c) (value_counts s) ->
  v <> NA /\ In v (values s) /\ c = count_cell v (values s) /\ 0 < c.
Proof.
  unfold value_counts. intros H.
  apply (Permutation_in _ (sort_desc_perm _)) in H.
  apply in_map_iff in H. destruct H as [x [[= <- <-] Hx]].
  apply unique_In, dropna_In in Hx. destruct Hx as [Hin Hna].
  rewrite count_cell_dropna by assumption.
  auto using count_cell_pos.
Qed.

Lemma value_counts_NoDup s : NoDup (map fst (value_counts s)).
Proof.
  eapply Permutation_NoDup; [symmetry; apply value_counts_levels |].
  apply unique_NoDup.
Qed.

Lemma prefix_of_In {A} (l full : list A) x :
  prefix_of l full -> In x l -> In x full.
Proof. intros [rest ->] H. apply in_or_app. now left. Qed.

Lemma prefix_of_map {A B} (f : A -> B) l full :
  prefix_of l full -> prefix_of (map f l) (map f full).
Proof. intros [rest ->]. exists (map f rest). apply map_app. Qed.

Lemma prefix_of_NoDup {A} (l full : list A) :
  prefix_of l full -> NoDup full -> NoDup l.
Proof. intros [rest ->] H. now apply NoDup_app_remove_r in H. Qed.

(** C4.  With a non-negative [max_levels], on a dataset that has
    [home_ownership], [addr_state] and [purpose], [categorical_freqs]
    returns a dict with these three keys whose entries each hold at most
    [max_levels] (value, count) pairs, with counts in descending
    order. *)
Theorem categorical_freqs_top_levels e max_levels :
  (0 <= max_levels)%Z ->
  has_cols (Borrower.df e) ["home_ownership"; "addr_state"; "purpose"] = true ->
  exists d,
    Borrower.categorical_freqs max_levels e = (Ok d, e)
    /\ keys d = ["home_ownership"; "addr_state"; "purpose"]
    /\ Forall (fun kv => length (snd kv) <= Z.to_nat max_levels
                         /\ descending (map snd (snd kv))) d.
Proof.
  intros Hk Hcols.
  destruct (categorical_freqs_ok max_levels e Hcols)
    as [h [a [p [_ [_ [_ Hrun]]]]]].
  eexists. split; [exact Hrun |]. split; [reflexivity |].
  repeat constructor; simpl;
    try (now apply head_length);
    apply Sorted_map_snd, head_sorted, value_counts_sorted.
Qed.

Lemma categorical_freqs_top_levels_witness :
  exists d,
    Borrower.categorical_freqs 2 sample_borrower = (Ok d, sample_borrower)
    /\ keys d = ["home_ownership"; "addr_state"; "purpose"]
    /\ Forall (fun kv => length (snd kv) <= 2
                         /\ descending (map snd (snd kv))) d.
Proof.
  apply (categorical_freqs_top_levels sample_borrower 2); [lia | reflexivity].
Defined.

(** C10.  Whatever [max_levels] is, each list that [categorical_freqs]
    returns is an initial segment of the column's distinct non-missing
    values ranked by frequency: no level is a missing value, every level
    occurs in the column with the count reported next to it, and no
    level is listed twice -- however many entries of the column are
    missing. *)
Theorem categorical_freqs_skips_missing e max_levels d e' :
  Borrower.categorical_freqs max_levels e = (Ok d, e') ->
  Forall (fun kv =>
            exists s,
              getitem (Borrower.df e) (fst kv) = Ok s
              /\ prefix_of (snd kv) (value_counts s)
              /\ Permutation (map fst (value_counts s))
                             (unique (dropna (values s)))
              /\ NoDup (map fst (snd kv))
              /\ Forall (fun vc => fst vc <> NA
                                   /\ In (fst vc) (values s)
                                   /\ snd vc = count_cell (fst vc) (values s)
                                   /\ 0 < snd vc)
                        (snd kv)) d.
Proof.
  rewrite categorical_freqs_run.
  destruct (getitem _ "home_ownership") as [h |] eqn:Hh; simpl;
    [| discriminate].
  destruct (getitem _ "addr_state") as [a |] eqn:Ha; simpl; [| discriminate].
  destruct (getitem _ "purpose") as [p |] eqn:Hp; simpl; [| discriminate].
  intros [= <- _].
  assert (K : forall s,
             prefix_of (head max_levels (value_counts s)) (value_counts s)
             /\ Permutation (map fst (value_counts s))
                            (unique (dropna (values s)))
             /\ NoDup (map fst (head max_levels (value_counts s)))
             /\ Forall (fun vc => fst vc <> NA
                                  /\ In (fst vc) (values s)
                                  /\ snd vc = count_cell (fst vc) (values s)
                                  /\ 0 < snd vc)
                       (head max_levels (value_counts s))).
  { intros s. pose proof (head_prefix max_levels (value_counts s)) as P.
    split; [exact P |]. split; [apply value_counts_levels |]. split.
    - eapply prefix_of_NoDup; [apply prefix_of_map, P |].
      apply value_counts_NoDup.
    - apply Forall_forall. intros [v c] Hvc. simpl.
      apply value_counts_entry. eapply prefix_of_In; eauto. }
  repeat constructor; simpl; eexists; (split; [eassumption | apply K]).
Qed.

Lemma categorical_freqs_skips_missing_witness :
  exists d,
    Borrower.categorical_freqs 10 sample_borrower = (Ok d, sample_borrower)
    /\ Forall (fun kv =>
                 exists s,
                   getitem sample_borrower_df (fst kv) = Ok s
                   /\ prefix_of (snd kv) (value_counts s)
                   /\ Permutation (map fst (value_counts s))
                                  (unique (dropna (values s)))
                   /\ NoDup (map fst (snd kv))
                   /\ Forall (fun vc => fst vc <> NA
                                        /\ In (fst vc) (values s)
                                        /\ snd vc =
                                           count_cell (fst vc) (values s)
                                        /\ 0 < snd vc)
                             (snd kv)) d.
Proof.
  destruct (categorical_freqs_ok 10 sample_borrower eq_refl)
    as [h [a [p [_ [_ [_ Hrun]]]]]].
  eexists. split; [exact Hrun |].
  apply (categorical_freqs_skips_missing sample_borrower 10 _ _ Hrun).
Defined.

(* ================================================================== *)
(** * Default rate by category                                         *)
(* ================================================================== *)

Lemma Qc_div_unit (s n : Qc) :
  (0 <= s)%Qc -> (s <= n)%Qc -> (0 < n)%Qc ->
  (0 <= s / n)%Qc /\ (s / n <= 1)%Qc.
Proof.
  unfold Qcle, Qclt, Qcdiv, Qcmult, Qcinv, Q2Qc. cbn [this].
  intros H0 H1 Hn. rewrite !Qred_correct.
  split.
  - apply Qle_shift_div_l; [exact Hn |]. now rewrite Qmult_0_l.
  - apply Qle_shift_div_r; [exact Hn |]. now rewrite Qmult_1_l.
Qed.

Lemma nat2Qc_S n : nat2Qc (S n) = (nat2Qc n + 1)%Qc.
Proof.
  unfold nat2Qc. apply Qc_is_canon.
  unfold Qcplus, Q2Qc. cbn [this]. rewrite !Qred_correct.
  rewrite Nat2Z.inj_succ. unfold Z.succ. rewrite inject_Z_plus. reflexivity.
Qed.

Lemma nat2Qc_pos n : 0 < n -> (0 < nat2Qc n)%Qc.
Proof.
  intros H. unfold nat2Qc, Qclt, Q2Qc. cbn [this]. rewrite !Qred_correct.
  unfold Qlt. simpl. lia.
Qed.

(** A sum of zeros and ones lies between zero and the number of terms. *)
Lemma Qc_sum_binary v :
  Forall (fun x => x = 0%Qc \/ x = 1%Qc) v ->
  (0 <= Qc_sum v)%Qc /\ (Qc_sum v <= nat2Qc (length v))%Qc.
Proof.
  induction 1 as [| x v Hx _ [IH0 IH1]]; simpl.
  - split; apply Qcle_refl.
  - rewrite nat2Qc_S. destruct Hx as [-> | ->].
    + rewrite Qcplus_0_l. split; [exact IH0 |].
      eapply Qcle_trans; [exact IH1 |].
      rewrite <- (Qcplus_0_r (nat2Qc (length v))) at 1.
      apply Qcplus_le_compat; [apply Qcle_refl | discriminate].
    + rewrite (Qcplus_comm 1). split.
      * rewrite <- (Qcplus_0_r 0). apply Qcplus_le_compat; [exact IH0 |].
        discriminate.
      * apply Qcplus_le_compat; [exact IH1 | apply Qcle_refl].
Qed.

Lemma mean_floats_binary xs :
  Forall (fun o => o = Some 0%Qc \/ o = Some 1%Qc) xs ->
  xs <> [] ->
  unit_interval (mean_floats xs).
Proof.
  intros Hb Hne. unfold mean_floats, unit_interval.
  assert (Hs : Forall (fun x => x = 0%Qc \/ x = 1%Qc) (somes xs)
               /\ somes xs <> []).
  { split.
    - clear Hne. induction Hb as [| o' xs' Ho _ IH]; simpl; [constructor |].
      destruct Ho as [-> | ->]; constructor; auto.
    - destruct Hb as [| o' xs' [-> | ->] _]; [congruence | |]; discriminate. }
  destruct Hs as [Hs Hn].
  destruct (somes xs) as [| x v] eqn:E; [congruence |].
  eexists. split; [reflexivity |].
  destruct (Qc_sum_binary _ Hs) as [H0 H1].
  apply Qc_div_unit; auto. apply nat2Qc_pos. simpl. lia.
Qed.

Lemma to_numeric_binary ex s :
  is_binary s = true ->
  exists ts,
    to_numeric ex (values s) = Ok ts
    /\ length ts = length (values s)
    /\ Forall (fun o => o = Some 0%Qc \/ o = Some 1%Qc) ts.
Proof.
  unfold is_binary. induction (values s) as [| c l IH]; simpl.
  - exists []. repeat split. constructor.
  - intros H. apply andb_prop in H. destruct H as [Hc Hl].
    destruct (IH Hl) as [ts [Hts [Hlen Hall]]].
    apply orb_prop in Hc.
    destruct Hc as [Hc | Hc]; apply cell_eqb_eq in Hc; subst c;
      rewrite Hts; simpl; eexists; (split; [reflexivity |]);
      simpl; auto.
Qed.

Lemma is_binary_no_text s :
  is_binary s = true -> no_text s = true.
Proof.
  unfold is_binary, no_text. rewrite !forallb_forall. intros H c Hc.
  specialize (H c Hc). apply orb_prop in H.
  destruct H as [H | H]; apply cell_eqb_eq in H; now subst c.
Qed.

(** ** Group keys *)

Lemma insert_cell_perm x l : Permutation (insert_cell x l) (x :: l).
Proof.
  induction l as [| y l IH]; simpl; [reflexivity |].
  destruct (cell_leb x y); [reflexivity |].
  rewrite IH. apply perm_swap.
Qed.

Lemma sort_cells_perm l : Permutation (sort_cells l) l.
Proof.
  induction l as [| x l IH]; simpl; [reflexivity |].
  rewrite insert_cell_perm. now constructor.
Qed.

Lemma group_labels_NoDup l : NoDup (sort_cells (unique (dropna l))).
Proof.
  eapply Permutation_NoDup; [symmetry; apply sort_cells_perm |].
  apply unique_NoDup.
Qed.

Lemma group_labels_In v l :
  In v (sort_cells (unique (dropna l))) <-> In v l /\ v <> NA.
Proof.
  split.
  - intros H. apply dropna_In, unique_In.
    eapply Permutation_in; [apply sort_cells_perm | exact H].
  - intros H. apply dropna_In, unique_In in H.
    eapply Permutation_in; [symmetry; apply sort_cells_perm | exact H].
Qed.

Lemma enumerate_from_snd {A} (l : list A) n :
  map snd (combine (seq n (length l)) l) = l.
Proof.
  revert n. induction l as [| x l IH]; intros n; simpl; [reflexivity |].
  now rewrite IH.
Qed.

Lemma enumerate_snd {A} (l : list A) : map snd (enumerate l) = l.
Proof. apply enumerate_from_snd. Qed.

Lemma enumerate_from_nth {A} (l : list A) n i x :
  In (i, x) (combine (seq n (length l)) l) ->
  n <= i /\ nth_error l (i - n) = Some x.
Proof.
  revert n. induction l as [| y l IH]; intros n; simpl; [contradiction |].
  intros [[= <- <-] | H].
  - rewrite Nat.sub_diag. auto.
  - apply IH in H. destruct H as [Hle Hn].
    split; [lia |].
    replace (i - n) with (S (i - S n)) by lia. exact Hn.
Qed.

Lemma enumerate_nth {A} (l : list A) i x :
  In (i, x) (enumerate l) -> nth_error l i = Some x.
Proof.
  intros H. apply enumerate_from_nth in H.
  now rewrite Nat.sub_0_r in H.
Qed.

Lemma index_of_nth c l i :
  index_of c l = Some i -> nth_error l i = Some c.
Proof.
  revert i. induction l as [| y l IH]; intros i; simpl; [discriminate |].
  destruct (cell_eqb c y) eqn:E.
  - apply cell_eqb_eq in E. subst. now intros [= <-].
  - destruct (index_of c l) as [j |]; [| discriminate].
    intros [= <-]. simpl. now apply IH.
Qed.

Lemma nth_index_of c l i :
  NoDup l -> nth_error l i = Some c -> index_of c l = Some i.
Proof.
  revert i. induction l as [| y l IH]; intros i Hnd Hn.
  - destruct i; discriminate.
  - inversion Hnd as [| ? ? Hy Hl]; subst. simpl.
    destruct i as [| i]; simpl in Hn.
    + injection Hn as ->. now rewrite cell_eqb_refl.
    + destruct (cell_eqb c y) eqn:E.
      * apply cell_eqb_eq in E. subst. apply nth_error_In in Hn. contradiction.
      * now rewrite (IH i Hl Hn).
Qed.

(** The rows of the group with label [label] are the rows whose key is
    [label]. *)
Lemma members_rows_where {A} labels i label ks (xs : list A) :
  NoDup labels -> nth_error labels i = Some label -> label <> NA ->
  members (map (fun c => if isna_cell c then None else index_of c labels) ks)
          xs i =
  rows_where label ks xs.
Proof.
  intros Hnd Hn Hna. unfold members, rows_where.
  revert xs. induction ks as [| c ks IH]; intros xs; simpl; [reflexivity |].
  destruct xs as [| x xs]; simpl; [reflexivity |].
  assert (E : in_group i (if isna_cell c then None else index_of c labels) =
              cell_eqb c label).
  { destruct (cell_eqb c label) eqn:Hc.
    - apply cell_eqb_eq in Hc. subst c.
      destruct label; [congruence | |]; simpl;
        rewrite (nth_index_of _ _ _ Hnd Hn); simpl; apply Nat.eqb_refl.
    - destruct (isna_cell c); [reflexivity |].
      destruct (index_of c labels) as [j |] eqn:Hj; [| reflexivity].
      simpl. apply Nat.eqb_neq. intros ->.
      apply index_of_nth in Hj. rewrite Hn in Hj. injection Hj as ->.
      now rewrite cell_eqb_refl in Hc. }
  rewrite E. destruct (cell_eqb c label); simpl; now rewrite IH.
Qed.

Lemma rows_where_nonempty {A} key ks (xs : list A) :
  In key ks -> length xs = length ks -> rows_where key ks xs <> [].
Proof.
  unfold rows_where. revert xs.
  induction ks as [| c ks IH]; intros xs; [contradiction |].
  destruct xs as [| x xs]; [discriminate |]. simpl.
  intros [-> | Hin] [= Hlen].
  - rewrite cell_eqb_refl. discriminate.
  - destruct (cell_eqb c key); [discriminate | now apply IH].
Qed.

Lemma rows_where_Forall {A} (P : A -> Prop) key ks xs :
  Forall P xs -> Forall P (rows_where key ks xs).
Proof.
  unfold rows_where. intros H. apply Forall_forall. intros x Hx.
  apply in_map_iff in Hx. destruct Hx as [[c y] [<- Hin]].
  apply filter_In in Hin. destruct Hin as [Hin _].
  apply in_combine_r in Hin. rewrite Forall_forall in H. now apply H.
Qed.

(** C3.  On a well-formed dataset with column [col] and a 0/1 target,
    [default_rate_by_category col] returns one entry per distinct
    non-missing value of [col] and for no other key; the value at a key
    is the mean of the target over the rows where [col] holds that key,
    and lies between 0 and 1. *)
Theorem default_rate_by_category_rates e col k t :
  wf_df (Borrower.df e) = true ->
  getitem (Borrower.df e) col = Ok k ->
  getitem (Borrower.df e) (Borrower.target_col e) = Ok t ->
  is_binary t = true ->
  exists r ts,
    Borrower.default_rate_by_category col e = (Ok r, e)
    /\ to_numeric TypeError (values t) = Ok ts
    /\ NoDup (map fst r)
    /\ (forall v, In v (map fst r) <-> In v (values k) /\ v <> NA)
    /\ Forall (fun kv =>
                 snd kv = mean_floats (rows_where (fst kv) (values k) ts)
                 /\ unit_interval (snd kv)) r.
Proof.
  intros Hwf Hk Ht Hb.
  destruct (default_rate_by_category_ok col e k t Hk Ht
              (is_binary_no_text _ Hb)) as [ts [Hts Hrun]].
  destruct (to_numeric_binary TypeError t Hb) as [ts' [Hts' [Hlen Hall]]].
  rewrite Hts in Hts'. injection Hts' as <-.
  eexists. exists ts. split; [exact Hrun |]. split; [exact Hts |].
  set (labels := sort_cells (unique (dropna (values k)))).
  assert (Hfst : forall (f : nat * cell -> float64),
             map fst (map (fun il => (snd il, f il)) (enumerate labels))
             = labels).
  { intros f. rewrite map_map. simpl. apply enumerate_snd. }
  split; [rewrite Hfst; apply group_labels_NoDup |].
  split; [intros v; rewrite Hfst; apply group_labels_In |].
  apply Forall_forall. intros kv Hkv.
  apply in_map_iff in Hkv. destruct Hkv as [[i label] [<- Hin]]. simpl.
  apply enumerate_nth in Hin.
  assert (Hl : In label (values k) /\ label <> NA)
    by (apply group_labels_In; eapply nth_error_In; exact Hin).
  destruct Hl as [Hl Hna].
  rewrite (members_rows_where labels i label);
    [| apply group_labels_NoDup | exact Hin | exact Hna].
  split; [reflexivity |].
  apply mean_floats_binary.
  - now apply rows_where_Forall.
  - apply rows_where_nonempty; [exact Hl |].
    rewrite Hlen.
    destruct (wf_df_column _ _ _ Hwf Hk) as [-> _].
    now destruct (wf_df_column _ _ _ Hwf Ht) as [-> _].
Qed.

Lemma default_rate_by_category_rates_witness :
  exists r ts,
    Borrower.default_rate_by_category "home_ownership" sample_borrower =
    (Ok r, sample_borrower)
    /\ to_numeric TypeError (values sample_loan_status) = Ok ts
    /\ NoDup (map fst r)
    /\ (forall v,
           In v (map fst r) <->
           In v (values sample_home_ownership) /\ v <> NA)
    /\ Forall (fun kv =>
                 snd kv =
                 mean_floats
                   (rows_where (fst kv) (values sample_home_ownership) ts)
                 /\ unit_interval (snd kv)) r.
Proof.
  apply (default_rate_by_category_rates sample_borrower "home_ownership");
    reflexivity.
Defined.

(* ================================================================== *)
(** * Correlation with the target                                      *)
(* ================================================================== *)

(** ** The Cauchy-Schwarz inequality *)

Lemma sq_le_le (x y : R) : (x * x <= y * y)%R -> (0 <= y)%R -> (x <= y)%R.
Proof. intros H Hy. nra. Qed.

Lemma sum_xx_nonneg l : (0 <= sum_xx l)%R.
Proof.
  unfold sum_xx. induction l as [| [a b] l IH]; simpl in *; [lra | nra].
Qed.

Lemma sum_yy_nonneg l : (0 <= sum_yy l)%R.
Proof.
  unfold sum_yy. induction l as [| [a b] l IH]; simpl in *; [lra | nra].
Qed.

Lemma cauchy_schwarz l : (sum_xy l * sum_xy l <= sum_xx l * sum_yy l)%R.
Proof.
  induction l as [| [a b] l IH].
  - unfold sum_xy, sum_xx, sum_yy. simpl. lra.
  - pose proof (sum_xx_nonneg l) as HA.
    pose proof (sum_yy_nonneg l) as HB.
    unfold sum_xy, sum_xx, sum_yy in *. simpl.
    set (C := Rsum (map (fun ab => (fst ab * snd ab)%R) l)) in *.
    set (A := Rsum (map (fun ab => (fst ab * fst ab)%R) l)) in *.
    set (B := Rsum (map (fun ab => (snd ab * snd ab)%R) l)) in *.
    clearbody A B C.
    assert (H : (2 * (a * b * C) <= a * a * B + A * (b * b))%R).
    { assert (H2 : ((a * b * C) * (a * b * C)
                    <= (a * a * B) * (A * (b * b)))%R).
      { replace ((a * b * C) * (a * b * C))%R
          with ((a * a) * (b * b) * (C * C))%R by ring.
        replace ((a * a * B) * (A * (b * b)))%R
          with ((a * a) * (b * b) * (A * B))%R by ring.
        apply Rmult_le_compat_l; [| exact IH].
        apply Rmult_le_pos; apply Rle_0_sqr. }
      assert (Hu : (0 <= a * a * B)%R)
        by (apply Rmult_le_pos; [apply Rle_0_sqr | exact HB]).
      assert (Hv : (0 <= A * (b * b))%R)
        by (apply Rmult_le_pos; [exact HA | apply Rle_0_sqr]).
      remember (a * b * C)%R as W. remember (a * a * B)%R as U.
      remember (A * (b * b))%R as V.
      apply sq_le_le; [| lra].
      pose proof (Rle_0_sqr (U - V)) as Hsq. unfold Rsqr in Hsq. lra. }
    nra.
Qed.

Lemma ratio_in_unit (x sa sb : R) :
  (0 < sa)%R -> (0 < sb)%R -> (x * x <= (sa * sb) * (sa * sb))%R ->
  (-1 <= x / sa / sb <= 1)%R.
Proof.
  intros Ha Hb H.
  assert (Hy : (0 < sa * sb)%R) by nra.
  assert (Hx1 : (x <= sa * sb)%R) by (apply sq_le_le; lra).
  assert (Hx2 : (- x <= sa * sb)%R) by (apply sq_le_le; [nra | lra]).
  replace (x / sa / sb)%R with (x / (sa * sb))%R by (field; lra).
  split.
  - apply (Rmult_le_reg_r (sa * sb)); [exact Hy |].
    unfold Rdiv. rewrite Rmult_assoc, Rinv_l by lra. lra.
  - apply (Rmult_le_reg_r (sa * sb)); [exact Hy |].
    unfold Rdiv. rewrite Rmult_assoc, Rinv_l by lra. lra.
Qed.

(** ** Pearson's coefficient *)

Lemma combine_diag_fst {A} (l : list A) : map fst (combine l l) = l.
Proof. induction l as [| x l IH]; simpl; [reflexivity | now rewrite IH]. Qed.

Lemma combine_diag_snd {A} (l : list A) : map snd (combine l l) = l.
Proof. induction l as [| x l IH]; simpl; [reflexivity | now rewrite IH]. Qed.

Lemma map_combine_diag {A B} (f : A * A -> B) l :
  map f (combine l l) = map (fun x => f (x, x)) l.
Proof. induction l as [| x l IH]; simpl; [reflexivity | now rewrite IH]. Qed.

Lemma codev_centred p : codev p = sum_xy (centred p).
Proof. unfold codev, sum_xy, centred. now rewrite map_map. Qed.

Lemma sqdev_fst_centred p : sqdev (map fst p) = sum_xx (centred p).
Proof.
  unfold sqdev, codev, sum_xx, centred.
  rewrite combine_diag_fst, combine_diag_snd, map_combine_diag, !map_map.
  reflexivity.
Qed.

Lemma sqdev_snd_centred p : sqdev (map snd p) = sum_yy (centred p).
Proof.
  unfold sqdev, codev, sum_yy, centred.
  rewrite combine_diag_fst, combine_diag_snd, map_combine_diag, !map_map.
  reflexivity.
Qed.

(** With at least two observations and neither variable constant,
    Pearson's coefficient lies between -1 and 1. *)
Lemma pearson_range p :
  2 <= length p ->
  (sqdev (map fst p) / INR (length p - 1))%R <> 0%R ->
  (sqdev (map snd p) / INR (length p - 1))%R <> 0%R ->
  (-1 <= pearson p <= 1)%R.
Proof.
  intros Hlen Hx Hy. unfold pearson.
  assert (Hn : (0 < INR (length p - 1))%R) by (apply lt_0_INR; lia).
  set (n1 := INR (length p - 1)) in *.
  rewrite codev_centred, sqdev_fst_centred, sqdev_snd_centred in *.
  pose proof (sum_xx_nonneg (centred p)) as HA.
  pose proof (sum_yy_nonneg (centred p)) as HB.
  pose proof (cauchy_schwarz (centred p)) as CS.
  set (A := sum_xx (centred p)) in *.
  set (B := sum_yy (centred p)) in *.
  set (C := sum_xy (centred p)) in *.
  clearbody A B C n1.
  assert (Hinv : (0 < / n1)%R) by now apply Rinv_0_lt_compat.
  assert (HAn : (0 < A / n1)%R).
  { assert (0 <= A / n1)%R
      by (unfold Rdiv; apply Rmult_le_pos; lra).
    lra. }
  assert (HBn : (0 < B / n1)%R).
  { assert (0 <= B / n1)%R
      by (unfold Rdiv; apply Rmult_le_pos; lra).
    lra. }
  apply ratio_in_unit; [now apply sqrt_lt_R0 | now apply sqrt_lt_R0 |].
  replace (sqrt (A / n1) * sqrt (B / n1) * (sqrt (A / n1) * sqrt (B / n1)))%R
    with ((sqrt (A / n1) * sqrt (A / n1)) * (sqrt (B / n1) * sqrt (B / n1)))%R
    by ring.
  rewrite !sqrt_sqrt by lra.
  replace (C / n1 * (C / n1))%R with (C * C / (n1 * n1))%R by (field; lra).
  replace (A / n1 * (B / n1))%R with (A * B / (n1 * n1))%R by (field; lra).
  apply Rmult_le_compat_r; [| exact CS].
  apply Rlt_le, Rinv_0_lt_compat. nra.
Qed.

Lemma clip_id x : (-1 <= x <= 1)%R -> clip (-1) 1 x = x.
Proof.
  intros [H1 H2]. unfold clip.
  rewrite (Rmin_right 1 x) by exact H2. now apply Rmax_right.
Qed.

(** [corrcoef] returns NaN or Pearson's coefficient; clipping never
    changes an exact coefficient. *)
Lemma corrcoef_pearson p :
  corrcoef p = RNaN
  \/ (corrcoef p = RFin (pearson p) /\ (-1 <= pearson p <= 1)%R).
Proof.
  unfold corrcoef.
  destruct (length p <? 2) eqn:E; [now left |].
  destruct (Req_dec_T _ 0) as [| Hx]; [now left |].
  destruct (Req_dec_T _ 0) as [| Hy]; [now left |].
  right. apply Nat.ltb_ge in E.
  pose proof (pearson_range p E Hx Hy) as Hr.
  split; [| exact Hr].
  f_equal. now apply clip_id.
Qed.

Lemma corr_ok a b :
  no_text a = true -> no_text b = true ->
  exists xs ys v,
    to_numeric ValueError (values a) = Ok xs
    /\ to_numeric ValueError (values b) = Ok ys
    /\ corr a b = Ok v
    /\ coefficient_of xs ys v.
Proof.
  intros Ha Hb. unfold corr.
  destruct (to_numeric_ok ValueError _ Ha) as [xs Hxs].
  destruct (to_numeric_ok ValueError _ Hb) as [ys Hys].
  exists xs, ys.
  destruct (values a) as [| c l] eqn:E.
  - exists RNaN. repeat split; auto. now left.
  - rewrite Hxs, Hys. simpl.
    destruct (length (valid_pairs xs ys) <? 1).
    + exists RNaN. repeat split; auto. now left.
    + eexists. repeat split; auto. apply corrcoef_pearson.
Qed.

Lemma numeric_cols_in d names c :
  numeric_cols d names = true -> In c names ->
  exists s, getitem d c = Ok s /\ no_text s = true.
Proof.
  unfold numeric_cols, getitem, no_text. rewrite forallb_forall.
  intros H Hin.
  specialize (H c Hin). destruct (find_col (columns d) c) as [s |];
    [eauto | discriminate].
Qed.

Lemma combine_fst_eq {A B} (l : list A) (l' : list B) :
  length l' = length l -> map fst (combine l l') = l.
Proof.
  revert l'. induction l as [| x l IH]; intros [| y l']; simpl;
    try discriminate; try reflexivity.
  intros [= H]. now rewrite IH.
Qed.

Lemma Forall2_combine_In {A B} (R : A -> B -> Prop) xs ys x y :
  Forall2 R xs ys -> In (x, y) (combine xs ys) -> R x y.
Proof.
  induction 1 as [| a b xs ys Hab _ IH]; simpl; [contradiction |].
  intros [[= <- <-] | H]; auto.
Qed.

(** C6 (amended).  The credit column list has 29 entries.  On a dataset
    that has all 29 and the target, none of them holding text,
    [correlation_with_default] returns one entry per column of
    [CREDIT_NUMERIC_COLS], in the order of that list; the value for a
    column is NaN or the Pearson coefficient of the rows where both
    the column and the target are present, which lies between -1 and
    1. *)
Theorem correlation_with_default_index e :
  numeric_cols (Credit.df e)
    (Credit.CREDIT_NUMERIC_COLS ++ [Credit.target_col e]) = true ->
  length Credit.CREDIT_NUMERIC_COLS = 29
  /\ exists r t ts,
       Credit.correlation_with_default e = (Ok r, e)
       /\ map fst r = Credit.CREDIT_NUMERIC_COLS
       /\ getitem (Credit.df e) (Credit.target_col e) = Ok t
       /\ to_numeric ValueError (values t) = Ok ts
       /\ Forall (fun kv =>
                    exists a xs,
                      getitem (Credit.df e) (fst kv) = Ok a
                      /\ to_numeric ValueError (values a) = Ok xs
                      /\ coefficient_of xs ts (snd kv)) r.
Proof.
  intros H. split; [reflexivity |].
  rewrite correlation_with_default_run.
  destruct (numeric_cols_in _ _ (Credit.target_col e) H) as [t [Ht Htn]];
    [apply in_or_app; right; now left |].
  destruct (to_numeric_ok ValueError _ Htn) as [ts Hts].
  assert (Hcol : forall col,
             In col Credit.CREDIT_NUMERIC_COLS ->
             exists a xs v,
               getitem (Credit.df e) col = Ok a
               /\ to_numeric ValueError (values a) = Ok xs
               /\ corr a t = Ok v
               /\ coefficient_of xs ts v).
  { intros col Hc.
    destruct (numeric_cols_in _ _ col H) as [a [Ha Han]];
      [apply in_or_app; now left |].
    destruct (corr_ok a t Han Htn) as [xs [ys [v [Hxs [Hys [Hv Hr]]]]]].
    rewrite Hts in Hys. injection Hys as <-.
    exists a, xs, v. auto. }
  destruct (traverse_ok_ex
              (fun col => a <~ getitem (Credit.df e) col ;;
                          b <~ getitem (Credit.df e) (Credit.target_col e) ;;
                          corr a b)
              Credit.CREDIT_NUMERIC_COLS) as [l Hl].
  { intros col Hc. destruct (Hcol col Hc) as [a [xs [v [Ha [_ [Hv _]]]]]].
    rewrite Ha, Ht. simpl. eauto. }
  rewrite Hl. cbn [rbind]. exists (combine Credit.CREDIT_NUMERIC_COLS l), t, ts.
  split; [reflexivity |].
  pose proof (traverse_length _ _ _ Hl) as Hlen.
  split; [now apply combine_fst_eq |].
  split; [exact Ht |]. split; [exact Hts |].
  apply Forall_forall. intros [c v] Hin. simpl.
  pose proof (in_combine_l _ _ _ _ Hin) as Hc.
  apply (Forall2_combine_In _ _ _ _ _ (traverse_Forall2 _ _ _ Hl)) in Hin.
  simpl in Hin.
  destruct (Hcol c Hc) as [a [xs [v' [Ha [Hxs [Hv Hr]]]]]].
  rewrite Ha, Ht in Hin. simpl in Hin.
  exists a, xs. split; [exact Ha |]. split; [exact Hxs |]. congruence.
Qed.

Lemma correlation_with_default_index_witness :
  length Credit.CREDIT_NUMERIC_COLS = 29
  /\ exists r t ts,
       Credit.correlation_with_default sample_credit = (Ok r, sample_credit)
       /\ map fst r = Credit.CREDIT_NUMERIC_COLS
       /\ getitem sample_credit_df "loan_status" = Ok t
       /\ to_numeric ValueError (values t) = Ok ts
       /\ Forall (fun kv =>
                    exists a xs,
                      getitem sample_credit_df (fst kv) = Ok a
                      /\ to_numeric ValueError (values a) = Ok xs
                      /\ coefficient_of xs ts (snd kv)) r.
Proof.
  apply (correlation_with_default_index sample_credit). reflexivity.
Defined.

(** C6 as stated fails: the list has 29 columns, not 28, and on a
    dataset that has every one of them and the target, with text in
    [dti], the call raises instead of returning a mapping. *)
Lemma correlation_with_default_text_column :
  length Credit.CREDIT_NUMERIC_COLS <> 28
  /\ wf_df credit_df_text_dti = true
  /\ has_cols credit_df_text_dti
       (Credit.CREDIT_NUMERIC_COLS ++ ["loan_status"]) = true
  /\ Credit.correlation_with_default credit_text_dti =
     (Err ValueError, credit_text_dti).
Proof.
  split; [discriminate |]. split; [reflexivity |]. split; [reflexivity |].
  rewrite correlation_with_default_run. reflexivity.
Qed.

(* ================================================================== *)
(** * Quantile buckets                                                 *)
(* ================================================================== *)

(** ** Order on the rationals *)

Lemma Qc_leb_le x y : Qc_leb x y = true <-> (x <= y)%Qc.
Proof.
  unfold Qc_leb. rewrite Qcle_alt.
  destruct (x ?= y)%Qc; split; congruence.
Qed.

Lemma Qc_ltb_lt x y : Qc_ltb x y = true <-> (x < y)%Qc.
Proof.
  unfold Qc_ltb. rewrite Qclt_alt.
  destruct (x ?= y)%Qc; split; congruence.
Qed.

Lemma Qc_leb_total x y : Qc_leb x y = false -> (y <= x)%Qc.
Proof.
  intros H. apply Qcnot_lt_le. intros Hlt.
  apply Qclt_le_weak, Qc_leb_le in Hlt. congruence.
Qed.

(** ** Sorting *)

Lemma insert_asc_perm x l : Permutation (insert_asc x l) (x :: l).
Proof.
  induction l as [| y l IH]; simpl; [reflexivity |].
  destruct (Qc_leb x y); [reflexivity |].
  rewrite IH. apply perm_swap.
Qed.

Lemma sort_asc_perm l : Permutation (sort_asc l) l.
Proof.
  induction l as [| x l IH]; simpl; [reflexivity |].
  rewrite insert_asc_perm. now constructor.
Qed.

Lemma insert_asc_sorted x l :
  StronglySorted Qcle l -> StronglySorted Qcle (insert_asc x l).
Proof.
  induction 1 as [| y l Hs IH Hy]; simpl; [repeat constructor |].
  destruct (Qc_leb x y) eqn:E.
  - apply Qc_leb_le in E. constructor; [now constructor |].
    constructor; [exact E |].
    eapply Forall_impl; [| exact Hy].
    intros z Hz. eapply Qcle_trans; eauto.
  - apply Qc_leb_total in E. constructor; [exact IH |].
    apply Forall_forall. intros z Hz.
    apply (Permutation_in _ (insert_asc_perm x l)) in Hz.
    destruct Hz as [<- | Hz]; [exact E |].
    rewrite Forall_forall in Hy. now apply Hy.
Qed.

Lemma sort_asc_sorted l : StronglySorted Qcle (sort_asc l).
Proof.
  induction l as [| x l IH]; simpl; [constructor |].
  now apply insert_asc_sorted.
Qed.

Lemma sorted_first l x :
  StronglySorted Qcle l -> In x l -> (nth 0 l 0%Qc <= x)%Qc.
Proof.
  intros Hs Hin. destruct l as [| y l]; [contradiction |]. simpl.
  destruct Hin as [-> | Hin]; [apply Qcle_refl |].
  inversion Hs as [| ? ? _ Hy]; subst.
  rewrite Forall_forall in Hy. now apply Hy.
Qed.

Lemma sorted_last_all l :
  StronglySorted Qcle l ->
  forall x, In x l -> (x <= nth (length l - 1) l 0%Qc)%Qc.
Proof.
  induction 1 as [| y l Hs IH Hy]; intros x Hin; [contradiction |].
  simpl. rewrite Nat.sub_0_r.
  destruct l as [| z l].
  - destruct Hin as [-> | []]. apply Qcle_refl.
  - assert (Hz : (z <= nth (length (z :: l) - 1) (z :: l) 0%Qc)%Qc)
      by (apply IH; now left).
    simpl in Hz. rewrite Nat.sub_0_r in Hz.
    destruct Hin as [<- | Hin].
    + eapply Qcle_trans; [| exact Hz].
      inversion Hy; subst. assumption.
    + specialize (IH x Hin). simpl in IH. now rewrite Nat.sub_0_r in IH.
Qed.

Lemma sorted_last l x :
  StronglySorted Qcle l -> In x l -> (x <= nth (length l - 1) l 0%Qc)%Qc.
Proof. intros Hs. now apply sorted_last_all. Qed.

(** ** The extreme quantiles *)

Lemma nat2Qc_0 : nat2Qc 0 = 0%Qc.
Proof. now apply Qc_is_canon. Qed.

Lemma Qc_lerp_0 a b : (a + (b - a) * 0)%Qc = a.
Proof. ring. Qed.

Lemma Qfloor_nat2Qc n : Qfloor (this (nat2Qc n)) = Z.of_nat n.
Proof.
  unfold nat2Qc, Q2Qc. cbn [this].
  rewrite (Qfloor_comp _ _ (Qred_correct _)). apply Qfloor_Z.
Qed.

Lemma quantile_0 data : quantile data 0%Qc = nth 0 (sort_asc data) 0%Qc.
Proof.
  unfold quantile. rewrite Qcmult_0_l.
  change (Qfloor (this 0%Qc)) with 0%Z. simpl Z.to_nat.
  rewrite nat2Qc_0.
  replace (0 - 0)%Qc with 0%Qc by ring. apply Qc_lerp_0.
Qed.

Lemma quantile_1 data :
  quantile data 1%Qc =
  nth (length (sort_asc data) - 1) (sort_asc data) 0%Qc.
Proof.
  unfold quantile. rewrite Qcmult_1_l, Qfloor_nat2Qc, Nat2Z.id.
  replace (nat2Qc (length (sort_asc data) - 1)
           - nat2Qc (length (sort_asc data) - 1))%Qc with 0%Qc by ring.
  apply Qc_lerp_0.
Qed.

Lemma linspace01_length q : length (linspace01 q) = q + 1.
Proof. unfold linspace01. now rewrite length_map, length_seq. Qed.

Lemma linspace01_first q : hd 0%Qc (linspace01 q) = 0%Qc.
Proof.
  unfold linspace01. rewrite Nat.add_1_r. simpl.
  rewrite nat2Qc_0. unfold Qcdiv. apply Qcmult_0_l.
Qed.

Lemma linspace01_last q : 0 < q -> In 1%Qc (linspace01 q).
Proof.
  intros H. unfold linspace01. apply in_map_iff. exists q. split.
  - unfold Qcdiv. apply Qcmult_inv_r.
    intros E. pose proof (nat2Qc_pos q H) as P. rewrite E in P.
    now apply Qclt_not_eq in P.
  - apply in_seq. lia.
Qed.

(** ** Binning *)

Lemma bins_to_cuts_eq xs bins :
  bins_to_cuts xs bins =
  {| codes := map (cut_code (kept_bins bins)) xs;
     categories := from_breaks (kept_bins bins) |}.
Proof. reflexivity. Qed.

Lemma unique_by_hd {A} (eqb : A -> A -> bool) d l :
  hd d (unique_by eqb l) = hd d l.
Proof. now destruct l. Qed.

Lemma kept_bins_hd d bins : hd d (kept_bins bins) = hd d bins.
Proof.
  unfold kept_bins. destruct (_ && _); [apply unique_by_hd | reflexivity].
Qed.

Lemma kept_bins_In x bins : In x (kept_bins bins) <-> In x bins.
Proof.
  unfold kept_bins. destruct (_ && _); [| tauto].
  apply unique_by_In, Qc_eq_bool_eq.
Qed.

Lemma kept_bins_length bins : length (kept_bins bins) <= length bins.
Proof.
  unfold kept_bins. destruct (_ && _); [| lia].
  apply unique_by_length.
Qed.

Lemma kept_bins_NoDup bins : NoDup bins -> kept_bins bins = bins.
Proof.
  intros H. unfold kept_bins.
  now rewrite (unique_by_NoDup_id _ _ Qc_eq_bool_eq H), Nat.ltb_irrefl.
Qed.

Lemma two_distinct_length {A} (l : list A) x y :
  In x l -> In y l -> x <> y -> 2 <= length l.
Proof.
  destruct l as [| a [| b l]]; simpl; try lia; try tauto.
  intros [<- | []] [<- | []]. congruence.
Qed.

Lemma kept_bins_two bins :
  length bins = 2 \/ (exists x y, In x bins /\ In y bins /\ x <> y) ->
  2 <= length (kept_bins bins).
Proof.
  intros [H | [x [y [Hx [Hy Hxy]]]]].
  - unfold kept_bins. rewrite H. simpl. rewrite andb_false_r. lia.
  - apply (two_distinct_length _ x y); [| | exact Hxy];
      now apply kept_bins_In.
Qed.

Lemma from_breaks_length bins : length (from_breaks bins) = length bins - 1.
Proof.
  unfold from_breaks. rewrite length_combine.
  destruct bins; cbn [tl length]; lia.
Qed.

Lemma filter_length_lt {A} (f : A -> bool) l :
  (exists x, In x l /\ f x = false) -> length (filter f l) < length l.
Proof.
  induction l as [| y l IH]; intros [x [Hin Hx]]; [contradiction |].
  simpl. destruct Hin as [-> | Hin].
  - rewrite Hx. pose proof (filter_length_le f l). lia.
  - pose proof (IH (ex_intro _ x (conj Hin Hx))).
    destruct (f y); simpl; lia.
Qed.

(** A value between the first edge and some edge gets a category. *)
Lemma cut_code_in_range bins v :
  2 <= length bins ->
  (hd 0%Qc bins <= v)%Qc ->
  (exists h, In h bins /\ (v <= h)%Qc) ->
  exists j, cut_code bins (Some v) = Some j /\ j < length bins - 1.
Proof.
  intros Hlen Hlo [h [Hh Hvh]]. unfold cut_code.
  destruct (Qc_eq_bool v (hd 0%Qc bins)) eqn:E.
  - destruct (length bins) as [| [| n]] eqn:L; try lia. simpl.
    exists 0. split; [reflexivity | lia].
  - assert (Hlt : (hd 0%Qc bins < v)%Qc).
    { destruct (Qcle_lt_or_eq _ _ Hlo) as [Hlt | Heq]; [exact Hlt |].
      rewrite <- Heq in E. unfold Qc_eq_bool in E.
      destruct (Qc_eq_dec (hd 0%Qc bins) (hd 0%Qc bins)); congruence. }
    assert (Hpos : 0 < searchsorted_left bins v).
    { unfold searchsorted_left.
      destruct bins as [| b bins]; [simpl in *; lia |].
      simpl in *. apply Qc_ltb_lt in Hlt. rewrite Hlt. simpl. lia. }
    assert (Hup : searchsorted_left bins v < length bins).
    { unfold searchsorted_left. apply filter_length_lt.
      exists h. split; [exact Hh |].
      apply not_true_is_false. intros Hc. apply Qc_ltb_lt in Hc.
      now apply Qclt_not_le in Hc. }
    cbv zeta.
    destruct (searchsorted_left bins v =? length bins) eqn:E1;
      [apply Nat.eqb_eq in E1; lia |].
    destruct (searchsorted_left bins v =? 0) eqn:E2;
      [apply Nat.eqb_eq in E2; lia |].
    simpl. eexists. split; [reflexivity | lia].
Qed.

(** ** Columns as numbers *)

Lemma to_numeric_length ex l xs :
  to_numeric ex l = Ok xs -> length xs = length l.
Proof.
  revert xs. induction l as [| c l IH]; intros xs; simpl.
  - now intros [= <-].
  - destruct c; try discriminate;
      destruct (to_numeric ex l) as [ys |]; simpl; try discriminate;
      intros [= <-]; simpl; now rewrite (IH ys).
Qed.

Lemma to_numeric_somes ex l xs :
  to_numeric ex l = Ok xs ->
  length (somes xs) = length (dropna l)
  /\ forall v, In v (somes xs) <-> In (Num v) l.
Proof.
  revert xs. induction l as [| c l IH]; intros xs; simpl.
  - intros [= <-]. simpl. split; [reflexivity | tauto].
  - destruct c; try discriminate;
      destruct (to_numeric ex l) as [ys |]; simpl; try discriminate;
      intros [= <-]; simpl; destruct (IH ys eq_refl) as [IH1 IH2].
    + split; [exact IH1 |]. intros v. rewrite IH2.
      split; [auto | intros [H | H]; [discriminate | exact H]].
    + split; [now rewrite IH1 |]. intros v. rewrite IH2.
      split; [intros [-> | H]; auto | intros [[= ->] | H]; auto].
Qed.

Lemma to_numeric_all_present ex s :
  all_present s = true ->
  exists ts,
    to_numeric ex (values s) = Ok ts
    /\ length ts = length (values s)
    /\ Forall (fun o => o <> None) ts.
Proof.
  unfold all_present. induction (values s) as [| c l IH]; simpl.
  - exists []. repeat split. constructor.
  - intros H. apply andb_prop in H. destruct H as [Hc Hl].
    destruct (IH Hl) as [ts [Hts [Hlen Hall]]].
    destruct c; try discriminate. rewrite Hts. simpl.
    eexists. split; [reflexivity |]. simpl. split; [now rewrite Hlen |].
    constructor; [discriminate | exact Hall].
Qed.

Lemma somes_length_full {A} (l : list (option A)) :
  Forall (fun o => o <> None) l -> length (somes l) = length l.
Proof.
  induction 1 as [| o l Ho _ IH]; simpl; [reflexivity |].
  destruct o; [simpl; now rewrite IH | congruence].
Qed.

(** ** Counting the rows of each group *)

Lemma members_length {A} ids (xs : list A) i :
  length xs = length ids ->
  length (members ids xs i) = length (filter (in_group i) ids).
Proof.
  unfold members. rewrite length_map. revert xs.
  induction ids as [| c ids IH]; intros [| x xs]; simpl;
    try discriminate; try reflexivity.
  intros [= H]. destruct (in_group i c); simpl; now rewrite IH.
Qed.

Lemma members_Forall {A} (P : A -> Prop) ids xs i :
  Forall P xs -> Forall P (members ids xs i).
Proof.
  unfold members. intros H. apply Forall_forall. intros x Hx.
  apply in_map_iff in Hx. destruct Hx as [[c y] [<- Hin]].
  apply filter_In in Hin. destruct Hin as [Hin _].
  apply in_combine_r in Hin. rewrite Forall_forall in H. now apply H.
Qed.

Lemma list_sum_map_add {A} (f g : A -> nat) l :
  list_sum (map (fun x => f x + g x) l) =
  list_sum (map f l) + list_sum (map g l).
Proof. induction l as [| x l IH]; simpl; lia. Qed.

Lemma list_sum_map_zero {A} (l : list A) :
  list_sum (map (fun _ => 0) l) = 0.
Proof. induction l as [| x l IH]; simpl; auto. Qed.

Lemma list_sum_indicator j n m :
  list_sum (map (fun i => if j =? i then 1 else 0) (seq m n)) =
  if (m <=? j) && (j <? m + n) then 1 else 0.
Proof.
  revert m. induction n as [| n IH]; intros m; simpl.
  - destruct (m <=? j) eqn:E1; [| reflexivity].
    destruct (j <? m + 0) eqn:E2; [| reflexivity].
    apply Nat.leb_le in E1. apply Nat.ltb_lt in E2. lia.
  - rewrite IH.
    destruct (j =? m) eqn:E; [apply Nat.eqb_eq in E | apply Nat.eqb_neq in E];
      destruct (m <=? j) eqn:E1; destruct (S m <=? j) eqn:E2;
      destruct (j <? S m + n) eqn:E3; destruct (j <? m + S n) eqn:E4;
      simpl;
      repeat match goal with
        | H : (_ <=? _) = true |- _ => apply Nat.leb_le in H
        | H : (_ <=? _) = false |- _ => apply Nat.leb_gt in H
        | H : (_ <? _) = true |- _ => apply Nat.ltb_lt in H
        | H : (_ <? _) = false |- _ => apply Nat.ltb_ge in H
        end; lia.
Qed.

(** Summed over the first [n] groups, the group sizes count the rows
    that belong to one of them. *)
Lemma group_sizes_sum ids n :
  list_sum (map (fun i => length (filter (in_group i) ids)) (seq 0 n)) =
  length (filter (in_groups n) ids).
Proof.
  induction ids as [| c ids IH].
  - simpl. now rewrite list_sum_map_zero.
  - transitivity
      (list_sum (map (fun i => (if in_group i c then 1 else 0)
                               + length (filter (in_group i) ids))
                     (seq 0 n))).
    { f_equal. apply map_ext. intros i. simpl.
      destruct (in_group i c); reflexivity. }
    rewrite list_sum_map_add, IH. simpl.
    destruct c as [j |]; simpl.
    + rewrite list_sum_indicator. simpl.
      destruct (j <? n); simpl; lia.
    + now rewrite list_sum_map_zero.
Qed.

Lemma list_sum_filter_zero {A} (f : A -> nat) (keep : A -> bool) l :
  (forall x, In x l -> keep x = false -> f x = 0) ->
  list_sum (map f (filter keep l)) = list_sum (map f l).
Proof.
  induction l as [| x l IH]; intros H; simpl; [reflexivity |].
  destruct (keep x) eqn:E; simpl.
  - rewrite IH; [reflexivity | intros y Hy; apply H; now right].
  - rewrite IH by (intros y Hy; apply H; now right).
    rewrite (H x); [reflexivity | now left | exact E].
Qed.

Lemma enumerate_from_fst {A} (l : list A) n :
  map fst (combine (seq n (length l)) l) = seq n (length l).
Proof. apply combine_fst_eq. now rewrite length_seq. Qed.

Lemma enumerate_fst {A} (l : list A) :
  map fst (enumerate l) = seq 0 (length l).
Proof. apply enumerate_from_fst. Qed.

Lemma enumerate_length {A} (l : list A) : length (enumerate l) = length l.
Proof.
  unfold enumerate. rewrite length_combine, length_seq. apply Nat.min_id.
Qed.

Lemma filter_existsb_nil {A} (f : A -> bool) l :
  existsb f l = false -> filter f l = [].
Proof.
  induction l as [| x l IH]; simpl; [reflexivity |].
  intros H. apply orb_false_elim in H. destruct H as [-> H]. auto.
Qed.

(** The bucket rows of a grouped target with nothing missing: at most
    one per category, and their [n_loans] add up to the number of rows
    that have a category. *)
Lemma sgb_agg_count_mean_rows (g : SeriesGroupBy (Qc * Qc)) ts :
  to_numeric TypeError (sg_values g) = Ok ts ->
  Forall (fun o => o <> None) ts ->
  length ts = length (sg_ids g) ->
  exists a,
    sgb_agg_count_mean g = Ok a
    /\ length (ag_rows a) <= length (sg_labels g)
    /\ (sg_drop_unobserved g = false ->
        length (ag_rows a) = length (sg_labels g))
    /\ list_sum (map n_loans (ag_rows a)) =
       length (filter (in_groups (length (sg_labels g))) (sg_ids g)).
Proof.
  intros Hts Hall Hlen. unfold sgb_agg_count_mean. rewrite Hts. simpl.
  eexists. split; [reflexivity |]. simpl. split; [| split].
  - rewrite length_map. unfold result_groups.
    etransitivity; [apply filter_length_le |]. now rewrite enumerate_length.
  - intros Hkeep. rewrite length_map. unfold result_groups.
    rewrite forallb_filter_id; [apply enumerate_length |].
    apply forallb_forall. intros il _. now rewrite Hkeep.
  - rewrite map_map. simpl. unfold result_groups.
    rewrite (map_ext _ (fun il =>
                          length (filter (in_group (fst il)) (sg_ids g)))).
    + rewrite list_sum_filter_zero.
      * rewrite <- (map_map fst (fun i =>
                                   length (filter (in_group i) (sg_ids g)))).
        rewrite enumerate_fst. apply group_sizes_sum.
      * intros il _ H. apply orb_false_elim in H. destruct H as [_ H].
        now rewrite (filter_existsb_nil _ _ H).
    + intros il. rewrite somes_length_full by now apply members_Forall.
      now apply members_length.
Qed.

Lemma somes_In {A} (l : list (option A)) v : In v (somes l) <-> In (Some v) l.
Proof.
  induction l as [| o l IH]; simpl; [tauto |].
  destruct o as [a |]; simpl; rewrite IH.
  - split; [intros [-> | H]; auto | intros [[= ->] | H]; auto].
  - split; [auto | intros [H | H]; [discriminate | exact H]].
Qed.

Lemma codes_in_groups_count (f : option Qc -> option nat) n xs :
  f None = None ->
  (forall v, In (Some v) xs -> exists j, f (Some v) = Some j /\ j < n) ->
  length (filter (in_groups n) (map f xs)) = length (somes xs).
Proof.
  intros Hnone. induction xs as [| o xs IH]; intros H; simpl; [reflexivity |].
  assert (IH' : length (filter (in_groups n) (map f xs)) = length (somes xs))
    by (apply IH; intros v Hv; apply H; now right).
  destruct o as [v |].
  - destruct (H v) as [j [Hj Hlt]]; [now left |].
    rewrite Hj. simpl. apply Nat.ltb_lt in Hlt. rewrite Hlt. simpl.
    now rewrite IH'.
  - rewrite Hnone. simpl. exact IH'.
Qed.

(** ** The codes that [qcut] assigns *)

Lemma NoDup_two_distinct {A} (l : list A) :
  NoDup l -> 2 <= length l -> exists x y, In x l /\ In y l /\ x <> y.
Proof.
  intros Hnd Hlen. destruct l as [| x [| y l]]; simpl in Hlen; try lia.
  exists x, y. repeat split; simpl; auto.
  inversion Hnd as [| ? ? Hx _]; subst. intros ->. apply Hx. now left.
Qed.

(** A column with at least two distinct values present, as numbers. *)
Lemma nunique_two_values s xs :
  no_text s = true ->
  to_numeric TypeError (values s) = Ok xs ->
  2 <= nunique s ->
  exists v1 v2, In v1 (somes xs) /\ In v2 (somes xs) /\ v1 <> v2.
Proof.
  intros Hnt Hxs H. unfold nunique in H.
  destruct (NoDup_two_distinct _ (unique_NoDup _) H) as [c1 [c2 [H1 [H2 Hne]]]].
  apply unique_In, dropna_In in H1. apply unique_In, dropna_In in H2.
  destruct H1 as [H1 N1], H2 as [H2 N2].
  destruct (to_numeric_somes _ _ _ Hxs) as [_ Hin].
  unfold no_text in Hnt. rewrite forallb_forall in Hnt.
  pose proof (Hnt _ H1) as T1. pose proof (Hnt _ H2) as T2.
  destruct c1 as [| v1 |]; try congruence; try discriminate.
  destruct c2 as [| v2 |]; try congruence; try discriminate.
  exists v1, v2. repeat split; [now apply Hin | now apply Hin | congruence].
Qed.

Lemma nunique_positive s xs :
  to_numeric TypeError (values s) = Ok xs ->
  1 <= nunique s -> somes xs <> [].
Proof.
  intros Hxs H. unfold nunique in H.
  destruct (to_numeric_somes _ _ _ Hxs) as [Hlen _].
  pose proof (unique_by_length cell_eqb (dropna (values s))) as Hu.
  fold (unique (dropna (values s))) in Hu.
  intros E. rewrite E in Hlen. simpl in Hlen. lia.
Qed.

Lemma quantile_edges_first data q :
  hd 0%Qc (map (quantile data) (linspace01 q)) = nth 0 (sort_asc data) 0%Qc.
Proof.
  rewrite <- quantile_0, <- (linspace01_first q).
  unfold linspace01. rewrite Nat.add_1_r. reflexivity.
Qed.

Lemma quantile_edges_last data q :
  0 < q ->
  In (nth (length (sort_asc data) - 1) (sort_asc data) 0%Qc)
     (map (quantile data) (linspace01 q)).
Proof.
  intros H. rewrite <- quantile_1. apply in_map. now apply linspace01_last.
Qed.

(** With at least [bins] distinct values in the column, [qcut] gives
    every value that is present one of at most [bins] categories. *)
Lemma qcut_codes s bins xs :
  no_text s = true ->
  to_numeric TypeError (values s) = Ok xs ->
  (1 <= bins)%Z ->
  Z.to_nat bins <= nunique s ->
  let kept := kept_bins (quantile_edges s (Z.to_nat bins)) in
  qcut s bins = Ok {| codes := map (cut_code kept) xs;
                      categories := from_breaks kept |}
  /\ length (quantile_edges s (Z.to_nat bins)) = Z.to_nat bins + 1
  /\ forall v, In (Some v) xs ->
               exists j, cut_code kept (Some v) = Some j
                         /\ j < length kept - 1.
Proof.
  intros Hnt Hxs Hb Hn. cbv zeta. unfold quantile_edges. rewrite Hxs.
  assert (Hq : 0 < Z.to_nat bins) by lia.
  pose proof (nunique_positive s xs Hxs ltac:(lia)) as Hne.
  unfold qcut. destruct (bins <? 0)%Z eqn:E; [apply Z.ltb_lt in E; lia |].
  rewrite Hxs. simpl.
  destruct (somes xs) as [| d0 data'] eqn:Ed; [congruence |].
  rewrite <- Ed in *. clear Hne.
  set (data := somes xs) in *.
  set (edges := map (quantile data) (linspace01 (Z.to_nat bins))).
  split; [now rewrite bins_to_cuts_eq |].
  assert (Hlen : length edges = Z.to_nat bins + 1)
    by (unfold edges; now rewrite length_map, linspace01_length).
  split; [exact Hlen |].
  set (lo := nth 0 (sort_asc data) 0%Qc).
  set (hi := nth (length (sort_asc data) - 1) (sort_asc data) 0%Qc).
  assert (Hlo : hd 0%Qc edges = lo) by apply quantile_edges_first.
  assert (Hhi : In hi edges) by now apply quantile_edges_last.
  assert (Hbound : forall v, In v data -> (lo <= v)%Qc /\ (v <= hi)%Qc).
  { intros v Hv.
    assert (Hs : In v (sort_asc data))
      by (eapply Permutation_in; [symmetry; apply sort_asc_perm | exact Hv]).
    split; [apply sorted_first | apply sorted_last];
      auto using sort_asc_sorted. }
  assert (Htwo : 2 <= length (kept_bins edges)).
  { apply kept_bins_two.
    destruct (Nat.eq_dec (Z.to_nat bins) 1) as [E1 | E1]; [left; lia |].
    right. destruct (nunique_two_values s xs Hnt Hxs ltac:(lia))
      as [v1 [v2 [H1 [H2 Hne]]]].
    exists lo, hi. split; [| split; [exact Hhi |]].
    - rewrite <- Hlo. destruct edges; [simpl in Hlen; lia | now left].
    - intros Heq. apply Hne.
      destruct (Hbound v1 H1) as [A1 B1]. destruct (Hbound v2 H2) as [A2 B2].
      rewrite <- Heq in B1, B2.
      transitivity lo; [| symmetry]; now apply Qcle_antisym. }
  intros v Hv. apply somes_In in Hv.
  destruct (Hbound v Hv) as [A B].
  apply cut_code_in_range; [exact Htwo | |].
  - now rewrite kept_bins_hd, Hlo.
  - exists hi. split; [now apply kept_bins_In | exact B].
Qed.

(** C1 (amended).  For a column [col] without text that has at least
    [bins] distinct values ([bins] at least 1) and a numeric target with
    nothing missing, [default_rate_by_bucket col bins] returns at most
    [bins] rows, and their [n_loans] add up to the number of non-missing
    entries of [col]; this holds whether or not [groupby] keeps empty
    categories.  When it keeps them and the [bins + 1] quantile edges of
    the column are pairwise distinct, there are exactly [bins] rows. *)
Theorem default_rate_by_bucket_rows observed e col bins s t :
  wf_df (Credit.df e) = true ->
  getitem (Credit.df e) col = Ok s ->
  no_text s = true ->
  getitem (Credit.df e) (Credit.target_col e) = Ok t ->
  all_present t = true ->
  (1 <= bins)%Z ->
  Z.to_nat bins <= nunique s ->
  exists f,
    Credit.default_rate_by_bucket observed col bins e = (Ok f, e)
    /\ length (rf_rows f) <= Z.to_nat bins
    /\ list_sum (map n_loans (rf_rows f)) = count s
    /\ (observed = false ->
        NoDup (quantile_edges s (Z.to_nat bins)) ->
        length (rf_rows f) = Z.to_nat bins).
Proof.
  intros Hwf Hs Hnt Ht Hall Hb Hn.
  destruct (to_numeric_ok TypeError _ Hnt) as [xs Hxs].
  destruct (qcut_codes s bins xs Hnt Hxs Hb Hn) as [Hq [Hk Hcodes]].
  pose proof (kept_bins_length (quantile_edges s (Z.to_nat bins))) as Hkl.
  set (kept := kept_bins (quantile_edges s (Z.to_nat bins))) in *.
  destruct (to_numeric_all_present TypeError t Hall) as [ts [Hts [Hlt Hfull]]].
  rewrite default_rate_by_bucket_run, Hs. cbn [rbind]. rewrite Hq. cbn [rbind].
  unfold gb_getitem. cbn [gb_frame groupby_categorical]. rewrite Ht.
  cbn [rbind].
  match goal with
  | |- context [sgb_agg_count_mean ?g] =>
      destruct (sgb_agg_count_mean_rows g ts) as [a [Ha [Hrows [Hall' Hsum]]]]
  end.
  - exact Hts.
  - exact Hfull.
  - cbn [sg_ids gb_ids groupby_categorical codes].
    rewrite length_map, Hlt, (to_numeric_length _ _ _ Hxs).
    destruct (wf_df_column _ _ _ Hwf Hs) as [-> _].
    now destruct (wf_df_column _ _ _ Hwf Ht) as [-> _].
  - rewrite Ha. cbn [rbind]. eexists. split; [reflexivity |].
    cbn [sg_labels sg_ids gb_labels gb_ids groupby_categorical codes
         categories sg_drop_unobserved gb_drop_unobserved]
      in Hrows, Hsum, Hall'.
    cbn [rf_rows reset_index].
    rewrite from_breaks_length in Hrows, Hsum, Hall'.
    split; [lia |]. split.
    + rewrite Hsum. rewrite codes_in_groups_count;
        [| reflexivity | exact Hcodes].
      unfold count. now destruct (to_numeric_somes _ _ _ Hxs) as [-> _].
    + intros Hobs Hnd. rewrite (Hall' Hobs).
      unfold kept. rewrite (kept_bins_NoDup _ Hnd). lia.
Qed.

Lemma default_rate_by_bucket_rows_witness :
  exists f,
    Credit.default_rate_by_bucket false "dti" 3 sample_credit =
    (Ok f, sample_credit)
    /\ length (rf_rows f) <= 3
    /\ list_sum (map n_loans (rf_rows f)) = count sample_credit_column
    /\ (false = false ->
        NoDup (quantile_edges sample_credit_column 3) ->
        length (rf_rows f) = 3).
Proof.
  apply (default_rate_by_bucket_rows false sample_credit "dti" 3
           sample_credit_column (numbers Int64 [0; 1; 1; 0; 0; 1]%Z));
    try reflexivity.
  - discriminate.
  - vm_compute. lia.
Defined.

(** C1 as stated fails: a [dti] column with three distinct values, cut
    into three buckets, yields a single row, because the quantile edges
    1, 1, 1, 3 collapse to 1, 3. *)
Lemma default_rate_by_bucket_fewer_rows :
  wf_df skewed_df = true
  /\ getitem skewed_df "dti" = Ok skewed_dti
  /\ nunique skewed_dti = 3
  /\ forall observed,
       exists f,
         Credit.default_rate_by_bucket observed "dti" 3 skewed_credit
         = (Ok f, skewed_credit)
         /\ map n_loans (rf_rows f) = [10]
         /\ length (rf_rows f) <> 3.
Proof.
  split; [reflexivity |]. split; [reflexivity |]. split; [reflexivity |].
  intros observed. rewrite default_rate_by_bucket_run.
  destruct observed; vm_compute; eexists;
    (split; [reflexivity | split; [reflexivity | discriminate]]).
Qed.

(* ================================================================== *)
(** * Missing columns                                                  *)
(* ================================================================== *)

Lemma has_cols_false_split d names :
  has_cols d names = false ->
  exists pre c post,
    names = pre ++ c :: post
    /\ has_cols d pre = true
    /\ has_col d c = false.
Proof.
  unfold has_cols. induction names as [| n names IH]; simpl; [discriminate |].
  destruct (has_col d n) eqn:Hn; simpl.
  - intros H. destruct (IH H) as [pre [c [post [-> [Hpre Hc]]]]].
    exists (n :: pre), c, post. simpl. rewrite Hn. auto.
  - intros _. exists [], n, names. auto.
Qed.

Lemma has_cols_app d xs ys :
  has_cols d (xs ++ ys) = has_cols d xs && has_cols d ys.
Proof. unfold has_cols. apply forallb_app. Qed.

Lemma structure_summary_missing e :
  has_cols (Borrower.df e) Borrower.BORROWER_COLS = false ->
  raises_missing Borrower.structure_summary e (Borrower.df e).
Proof.
  intros H. destruct (has_cols_false_split _ _ H)
    as [pre [c [post [Hsplit [Hpre Hc]]]]].
  exists c. split; [exact Hc |].
  rewrite structure_summary_run, Hsplit.
  rewrite (traverse_err_at _ _ _ _ (KeyError c)); [reflexivity | |].
  - intros y Hy.
    destruct (getitem_has _ _ (has_cols_in _ _ _ Hpre Hy)) as [s ->].
    simpl. eauto.
  - now rewrite (getitem_missing _ _ Hc).
Qed.

Lemma income_summary_missing e :
  has_cols (Borrower.df e) ["annual_inc"; "annual_inc_joint"] = false ->
  raises_missing Borrower.income_summary e (Borrower.df e).
Proof.
  intros H. unfold raises_missing. rewrite (income_summary_run e).
  unfold has_cols in H. simpl in H. unfold getitem_list. simpl.
  destruct (has_col (Borrower.df e) "annual_inc") eqn:H1.
  - destruct (getitem_has _ _ H1) as [s1 ->]. simpl.
    destruct (has_col (Borrower.df e) "annual_inc_joint") eqn:H2;
      [discriminate |].
    exists "annual_inc_joint". now rewrite (getitem_missing _ _ H2).
  - exists "annual_inc". now rewrite (getitem_missing _ _ H1).
Qed.

Lemma categorical_freqs_missing max_levels e :
  has_cols (Borrower.df e) ["home_ownership"; "addr_state"; "purpose"]
  = false ->
  raises_missing (Borrower.categorical_freqs max_levels) e (Borrower.df e).
Proof.
  intros H. unfold raises_missing. rewrite (categorical_freqs_run max_levels e).
  unfold has_cols in H. simpl in H.
  destruct (has_col (Borrower.df e) "home_ownership") eqn:H1.
  - destruct (getitem_has _ _ H1) as [s1 ->]. simpl.
    destruct (has_col (Borrower.df e) "addr_state") eqn:H2.
    + destruct (getitem_has _ _ H2) as [s2 ->]. simpl.
      destruct (has_col (Borrower.df e) "purpose") eqn:H3; [discriminate |].
      exists "purpose". now rewrite (getitem_missing _ _ H3).
    + exists "addr_state". now rewrite (getitem_missing _ _ H2).
  - exists "home_ownership". now rewrite (getitem_missing _ _ H1).
Qed.

Lemma default_rate_by_category_missing col e :
  has_cols (Borrower.df e) [col; Borrower.target_col e] = false ->
  raises_missing (Borrower.default_rate_by_category col) e (Borrower.df e).
Proof.
  intros H. unfold raises_missing. rewrite (default_rate_by_category_run col e).
  unfold has_cols in H. simpl in H. unfold groupby.
  destruct (has_col (Borrower.df e) col) eqn:H1.
  - destruct (getitem_has _ _ H1) as [s1 ->]. simpl.
    destruct (has_col (Borrower.df e) (Borrower.target_col e)) eqn:H2;
      [discriminate |].
    exists (Borrower.target_col e). unfold gb_getitem. simpl.
    now rewrite (getitem_missing _ _ H2).
  - exists col. now rewrite (getitem_missing _ _ H1).
Qed.

Lemma credit_structure_summary_missing e :
  wf_df (Credit.df e) = true ->
  has_cols (Credit.df e) Credit.CREDIT_NUMERIC_COLS = false ->
  raises_missing Credit.credit_structure_summary e (Credit.df e).
Proof.
  intros Hwf H. destruct (has_cols_false_split _ _ H)
    as [pre [c [post [Hsplit [Hpre Hc]]]]].
  exists c. split; [exact Hc |].
  rewrite credit_structure_summary_run, Hsplit.
  rewrite (traverse_err_at _ _ _ _ (KeyError c)); [reflexivity | |].
  - intros y Hy.
    destruct (getitem_has _ _ (has_cols_in _ _ _ Hpre Hy)) as [s Hs].
    destruct (credit_row_ok _ _ _ Hwf Hs) as [r [Hr _]].
    exists r. now rewrite Hs.
  - now rewrite (getitem_missing _ _ Hc).
Qed.

Lemma traverse_fails {A B} (f : A -> Result B) xs :
  (exists x, In x xs /\ is_err (f x)) -> exists ex, traverse f xs = Err ex.
Proof.
  intros H. destruct (traverse_err_first f xs H) as [x [ex [_ [_ Ht]]]].
  now exists ex.
Qed.

Lemma has_cols_false_in d names :
  has_cols d names = false -> exists c, In c names /\ has_col d c = false.
Proof.
  intros H.
  destruct (has_cols_false_split _ _ H) as [pre [c [post [-> [_ Hc]]]]].
  exists c. split; [apply in_elt | exact Hc].
Qed.

Lemma credit_structure_summary_fails e :
  has_cols (Credit.df e) Credit.CREDIT_NUMERIC_COLS = false ->
  fails Credit.credit_structure_summary e.
Proof.
  intros H. destruct (has_cols_false_in _ _ H) as [c [Hin Hc]].
  unfold fails. rewrite credit_structure_summary_run.
  destruct (traverse_fails
              (fun col => s <~ getitem (Credit.df e) col ;;
                          credit_row (Credit.df e) col s)
              Credit.CREDIT_NUMERIC_COLS) as [ex ->]; [| simpl; eauto].
  exists c. split; [exact Hin |]. now rewrite (getitem_missing _ _ Hc).
Qed.

Lemma default_rate_by_bucket_missing_col observed col bins e :
  has_col (Credit.df e) col = false ->
  Credit.default_rate_by_bucket observed col bins e = (Err (KeyError col), e).
Proof.
  intros H. rewrite default_rate_by_bucket_run.
  now rewrite (getitem_missing _ _ H).
Qed.

Lemma default_rate_by_bucket_missing_target observed col bins e s :
  getitem (Credit.df e) col = Ok s ->
  has_col (Credit.df e) (Credit.target_col e) = false ->
  Credit.default_rate_by_bucket observed col bins e =
  (match qcut s bins with
   | Ok _ => Err (KeyError (Credit.target_col e))
   | Err ex => Err ex
   end, e).
Proof.
  intros Hs H. rewrite default_rate_by_bucket_run, Hs. simpl.
  destruct (qcut s bins); simpl; [| reflexivity].
  unfold gb_getitem. simpl. now rewrite (getitem_missing _ _ H).
Qed.

Lemma default_rate_by_bucket_fails observed col bins e :
  has_cols (Credit.df e) [col; Credit.target_col e] = false ->
  fails (Credit.default_rate_by_bucket observed col bins) e.
Proof.
  unfold has_cols. simpl. intros H. unfold fails.
  destruct (has_col (Credit.df e) col) eqn:H1.
  - destruct (getitem_has _ _ H1) as [s Hs].
    destruct (has_col (Credit.df e) (Credit.target_col e)) eqn:H2;
      [discriminate |].
    rewrite (default_rate_by_bucket_missing_target _ _ _ _ s Hs H2).
    destruct (qcut s bins); eauto.
  - rewrite (default_rate_by_bucket_missing_col _ _ _ _ H1). eauto.
Qed.

Lemma correlation_with_default_fails e :
  has_cols (Credit.df e) (Credit.CREDIT_NUMERIC_COLS ++ [Credit.target_col e])
  = false ->
  fails Credit.correlation_with_default e.
Proof.
  intros H. unfold fails. rewrite correlation_with_default_run.
  destruct (traverse_fails
              (fun col => a <~ getitem (Credit.df e) col ;;
                          b <~ getitem (Credit.df e) (Credit.target_col e) ;;
                          corr a b)
              Credit.CREDIT_NUMERIC_COLS) as [ex ->]; [| simpl; eauto].
  rewrite has_cols_app in H. apply andb_false_iff in H. destruct H as [H | H].
  - destruct (has_cols_false_in _ _ H) as [c [Hin Hc]].
    exists c. split; [exact Hin |]. now rewrite (getitem_missing _ _ Hc).
  - unfold has_cols in H. simpl in H. rewrite andb_true_r in H.
    exists "dti". split; [simpl; tauto |].
    destruct (getitem (Credit.df e) "dti"); simpl; [| exact I].
    now rewrite (getitem_missing _ _ H).
Qed.

(** With the target absent the first iteration already raises: for the
    first column when that is absent too, for the target otherwise. *)
Lemma correlation_with_default_missing_target e :
  has_col (Credit.df e) (Credit.target_col e) = false ->
  raises_missing Credit.correlation_with_default e (Credit.df e).
Proof.
  intros H. unfold raises_missing. rewrite correlation_with_default_run.
  simpl. destruct (has_col (Credit.df e) "dti") eqn:H1.
  - destruct (getitem_has _ _ H1) as [s ->]. simpl.
    rewrite (getitem_missing _ _ H). simpl. eauto.
  - rewrite (getitem_missing _ _ H1). simpl. eauto.
Qed.

Lemma qcut_ok s bins :
  no_text s = true -> (0 <= bins)%Z -> exists c, qcut s bins = Ok c.
Proof.
  intros Hnt Hb. unfold qcut.
  destruct (bins <? 0)%Z eqn:E; [apply Z.ltb_lt in E; lia |].
  destruct (to_numeric_ok TypeError _ Hnt) as [xs ->]. simpl.
  destruct (somes xs); eauto.
Qed.

Lemma text_free_column d col s :
  text_free d = true -> getitem d col = Ok s -> no_text s = true.
Proof.
  unfold text_free. rewrite forallb_forall. intros H G.
  apply (H (col, s)). now apply getitem_In.
Qed.

(** On a frame without text, the first absent column is the one that
    [correlation_with_default] reports. *)
Lemma correlation_with_default_missing e :
  text_free (Credit.df e) = true ->
  has_cols (Credit.df e) (Credit.CREDIT_NUMERIC_COLS ++ [Credit.target_col e])
  = false ->
  raises_missing Credit.correlation_with_default e (Credit.df e).
Proof.
  intros Htf H.
  destruct (has_col (Credit.df e) (Credit.target_col e)) eqn:Ht;
    [| now apply correlation_with_default_missing_target].
  rewrite has_cols_app in H. apply andb_false_iff in H.
  destruct H as [H | H];
    [| unfold has_cols in H; simpl in H; rewrite Ht in H; discriminate].
  destruct (has_cols_false_split _ _ H)
    as [pre [c [post [Hsplit [Hpre Hc]]]]].
  destruct (getitem_has _ _ Ht) as [t Hgt].
  exists c. split; [exact Hc |].
  rewrite correlation_with_default_run, Hsplit.
  rewrite (traverse_err_at _ _ _ _ (KeyError c)); [reflexivity | |].
  - intros y Hy.
    destruct (getitem_has _ _ (has_cols_in _ _ _ Hpre Hy)) as [a Ha].
    rewrite Ha, Hgt. simpl.
    destruct (corr_ok a t (text_free_column _ _ _ Htf Ha)
                (text_free_column _ _ _ Htf Hgt))
      as [xs [ys [v [_ [_ [Hv _]]]]]].
    eauto.
  - now rewrite (getitem_missing _ _ Hc).
Qed.

Lemma default_rate_by_bucket_missing observed col bins e :
  text_free (Credit.df e) = true ->
  (0 <= bins)%Z ->
  has_cols (Credit.df e) [col; Credit.target_col e] = false ->
  raises_missing (Credit.default_rate_by_bucket observed col bins) e
    (Credit.df e).
Proof.
  intros Htf Hb H. unfold has_cols in H. simpl in H.
  destruct (has_col (Credit.df e) col) eqn:H1.
  - destruct (getitem_has _ _ H1) as [s Hs].
    destruct (has_col (Credit.df e) (Credit.target_col e)) eqn:H2;
      [discriminate |].
    exists (Credit.target_col e). split; [exact H2 |].
    rewrite (default_rate_by_bucket_missing_target _ _ _ _ s Hs H2).
    now destruct (qcut_ok s bins (text_free_column _ _ _ Htf Hs) Hb) as [c ->].
  - exists col. split; [exact H1 |].
    now apply default_rate_by_bucket_missing_col.
Qed.

(** ** Pipelines stop at the first failing step *)



Lemma fails_is_err {S A} (m : M S A) s : fails m s -> is_err (result_of m s).
Proof. intros [ex H]. unfold result_of. now rewrite H. Qed.

Lemma raises_missing_fails {S A} (m : M S A) s d :
  raises_missing m s d -> fails m s.
Proof. intros [c [_ H]]. now exists (KeyError c). Qed.

Lemma borrower_callable_is_err {A} (inj : A -> Borrower.Any) m e :
  fails m e -> is_err (result_of (Borrower.callable inj m) e).
Proof.
  intros H. rewrite borrower_callable_result.
  apply fails_is_err in H. now destruct (result_of m e).
Qed.

Lemma credit_callable_is_err {A} (inj : A -> Credit.Any) m e :
  fails m e -> is_err (result_of (Credit.callable inj m) e).
Proof.
  intros H. rewrite credit_callable_result.
  apply fails_is_err in H. now destruct (result_of m e).
Qed.

Lemma run_borrower_eda_pipeline_aborts e :
  has_cols (Borrower.df e) (Borrower.BORROWER_COLS ++ [Borrower.target_col e])
  = false ->
  exists step ex,
    In step Borrower.borrower_eda_steps
    /\ result_of (snd step) e = Err ex
    /\ Borrower.run_borrower_eda_pipeline e = (Err ex, e).
Proof.
  intros H. unfold Borrower.run_borrower_eda_pipeline.
  apply for_setitem_err; [apply borrower_steps_readonly |].
  rewrite borrower_eda_steps_items.
  rewrite has_cols_app in H. apply andb_false_iff in H.
  destruct (has_cols (Borrower.df e) Borrower.BORROWER_COLS) eqn:Hc.
  - destruct H as [H | H]; [discriminate |].
    eexists. split; [right; right; right; left; reflexivity |].
    simpl. apply borrower_callable_is_err.
    eapply raises_missing_fails, default_rate_by_category_missing.
    unfold has_cols in *. simpl in H. simpl.
    rewrite andb_true_r in *. rewrite H. apply andb_false_r.
  - eexists. split; [left; reflexivity |].
    simpl. apply borrower_callable_is_err.
    eapply raises_missing_fails, structure_summary_missing, Hc.
Qed.

Lemma credit_history_report_aborts observed e :
  has_cols (Credit.df e) (Credit.CREDIT_NUMERIC_COLS ++ [Credit.target_col e])
  = false ->
  exists step ex,
    In step (Credit.step_name observed)
    /\ result_of (snd step) e = Err ex
    /\ Credit.credit_history_report observed e = (Err ex, e).
Proof.
  intros H. unfold Credit.credit_history_report.
  apply for_setitem_err; [apply credit_steps_readonly |].
  unfold Credit.step_name.
  rewrite has_cols_app in H. apply andb_false_iff in H.
  destruct (has_cols (Credit.df e) Credit.CREDIT_NUMERIC_COLS) eqn:Hc.
  - destruct H as [H | H]; [discriminate |].
    eexists. split; [right; left; reflexivity |].
    simpl. apply credit_callable_is_err.
    apply default_rate_by_bucket_fails.
    unfold has_cols in *. simpl in H. simpl.
    rewrite andb_true_r in *. rewrite H. apply andb_false_r.
  - eexists. split; [left; reflexivity |].
    simpl. apply credit_callable_is_err.
    apply credit_structure_summary_fails, Hc.
Qed.

(** C8.  A report method called on a dataset that lacks a column it
    reads fails, with the receiver untouched and nothing returned in
    place of the missing data.  The error is the [KeyError] of an absent
    column; only [default_rate_by_bucket] and [correlation_with_default]
    can fail earlier with another error, in [qcut] or [corr] on a column
    of text, and on a dataset without text they too raise the
    [KeyError].  A pipeline run on a dataset that lacks a column of its
    list or the target returns the error of a failing step and no dict;
    whenever a pipeline does return a dict, every step has succeeded. *)
Theorem missing_column_aborts :
  (forall e,
      has_cols (Borrower.df e) Borrower.BORROWER_COLS = false ->
      raises_missing Borrower.structure_summary e (Borrower.df e))
  /\ (forall e,
         has_cols (Borrower.df e) ["annual_inc"; "annual_inc_joint"] = false ->
         raises_missing Borrower.income_summary e (Borrower.df e))
  /\ (forall e max_levels,
         has_cols (Borrower.df e) ["home_ownership"; "addr_state"; "purpose"]
         = false ->
         raises_missing (Borrower.categorical_freqs max_levels) e
           (Borrower.df e))
  /\ (forall e col,
         has_cols (Borrower.df e) [col; Borrower.target_col e] = false ->
         raises_missing (Borrower.default_rate_by_category col) e
           (Borrower.df e))
  /\ (forall e,
         has_cols (Credit.df e) Credit.CREDIT_NUMERIC_COLS = false ->
         fails Credit.credit_structure_summary e
         /\ (wf_df (Credit.df e) = true ->
             raises_missing Credit.credit_structure_summary e (Credit.df e)))
  /\ (forall observed e col bins,
         has_cols (Credit.df e) [col; Credit.target_col e] = false ->
         fails (Credit.default_rate_by_bucket observed col bins) e
         /\ (has_col (Credit.df e) col = false ->
             Credit.default_rate_by_bucket observed col bins e =
             (Err (KeyError col), e))
         /\ (text_free (Credit.df e) = true -> (0 <= bins)%Z ->
             raises_missing (Credit.default_rate_by_bucket observed col bins)
               e (Credit.df e)))
  /\ (forall e,
         has_cols (Credit.df e)
           (Credit.CREDIT_NUMERIC_COLS ++ [Credit.target_col e]) = false ->
         fails Credit.correlation_with_default e
         /\ (has_col (Credit.df e) (Credit.target_col e) = false ->
             raises_missing Credit.correlation_with_default e (Credit.df e))
         /\ (text_free (Credit.df e) = true ->
             raises_missing Credit.correlation_with_default e (Credit.df e)))
  /\ (forall e,
         has_cols (Borrower.df e)
           (Borrower.BORROWER_COLS ++ [Borrower.target_col e]) = false ->
         exists step ex,
           In step Borrower.borrower_eda_steps
           /\ result_of (snd step) e = Err ex
           /\ Borrower.run_borrower_eda_pipeline e = (Err ex, e))
  /\ (forall observed e,
         has_cols (Credit.df e)
           (Credit.CREDIT_NUMERIC_COLS ++ [Credit.target_col e]) = false ->
         exists step ex,
           In step (Credit.step_name observed)
           /\ result_of (snd step) e = Err ex
           /\ Credit.credit_history_report observed e = (Err ex, e))
  /\ (forall e d e',
         Borrower.run_borrower_eda_pipeline e = (Ok d, e') ->
         forall step, In step Borrower.borrower_eda_steps ->
                      exists v, result_of (snd step) e = Ok v)
  /\ (forall observed e d e',
         Credit.credit_history_report observed e = (Ok d, e') ->
         forall step, In step (Credit.step_name observed) ->
                      exists v, result_of (snd step) e = Ok v).
Proof.
  repeat match goal with |- _ /\ _ => split end.
  - apply structure_summary_missing.
  - apply income_summary_missing.
  - intros. now apply categorical_freqs_missing.
  - intros. now apply default_rate_by_category_missing.
  - intros e H. split.
    + now apply credit_structure_summary_fails.
    + intros Hwf. now apply credit_structure_summary_missing.
  - intros observed e col bins H. split; [| split].
    + now apply default_rate_by_bucket_fails.
    + apply default_rate_by_bucket_missing_col.
    + intros Htf Hb. now apply default_rate_by_bucket_missing.
  - intros e H. split; [| split].
    + now apply correlation_with_default_fails.
    + apply correlation_with_default_missing_target.
    + intros Htf. now apply correlation_with_default_missing.
  - apply run_borrower_eda_pipeline_aborts.
  - apply credit_history_report_aborts.
  - intros e d e' H.
    eapply for_setitem_ok_inv; [| exact H].
    intros x Hx. now apply borrower_steps_readonly.
  - intros observed e d e' H.
    eapply for_setitem_ok_inv; [| exact H].
    intros x Hx. now apply (credit_steps_readonly observed).
Qed.

Lemma missing_column_aborts_witness :
  has_cols credit_df_28_columns
    (Credit.CREDIT_NUMERIC_COLS ++ ["loan_status"]) = false
  /\ raises_missing Credit.credit_structure_summary
       credit_28_columns credit_df_28_columns
  /\ exists step ex,
       In step (Credit.step_name false)
       /\ result_of (snd step) credit_28_columns = Err ex
       /\ Credit.credit_history_report false credit_28_columns =
          (Err ex, credit_28_columns).
Proof.
  destruct missing_column_aborts
    as [_ [_ [_ [_ [Hstructure [_ [_ [_ [Hreport _]]]]]]]]].
  split; [reflexivity |]. split.
  - apply (Hstructure credit_28_columns); reflexivity.
  - apply (Hreport false credit_28_columns). reflexivity.
Defined.

(* ================================================================== *)
(** * Further properties: the credit report and the order of steps     *)
(* ================================================================== *)

Lemma default_rate_by_bucket_ok observed col bins e s t :
  getitem (Credit.df e) col = Ok s ->
  no_text s = true ->
  (0 <= bins)%Z ->
  getitem (Credit.df e) (Credit.target_col e) = Ok t ->
  no_text t = true ->
  exists c ts,
    qcut s bins = Ok c
    /\ to_numeric TypeError (values t) = Ok ts
    /\ Credit.default_rate_by_bucket observed col bins e =
       (Ok (reset_index
              {| ag_index_name := col;
                 ag_rows :=
                   map (fun il =>
                          let m := members (codes c) ts (fst il) in
                          {| bucket := snd il;
                             n_loans := length (somes m);
                             default_rate := mean_floats m |})
                       (filter (fun il => negb observed
                                          || existsb (in_group (fst il))
                                                     (codes c))
                               (enumerate (categories c))) |}),
        e).
Proof.
  intros Hs Hns Hb Ht Hnt.
  destruct (qcut_ok s bins Hns Hb) as [c Hc].
  destruct (to_numeric_ok TypeError _ Hnt) as [ts Hts].
  exists c, ts. split; [exact Hc |]. split; [exact Hts |].
  rewrite default_rate_by_bucket_run, Hs. cbn [rbind]. rewrite Hc.
  cbn [rbind]. unfold gb_getitem. cbn [gb_frame groupby_categorical].
  rewrite Ht. cbn [rbind]. unfold sgb_agg_count_mean. cbn [sg_values].
  rewrite Hts. reflexivity.
Qed.

Lemma correlation_with_default_ok e :
  numeric_cols (Credit.df e)
    (Credit.CREDIT_NUMERIC_COLS ++ [Credit.target_col e]) = true ->
  exists t l,
    getitem (Credit.df e) (Credit.target_col e) = Ok t
    /\ no_text t = true
    /\ Forall2 (fun col v =>
                  (a <~ getitem (Credit.df e) col ;; corr a t) = Ok v)
               Credit.CREDIT_NUMERIC_COLS l
    /\ Credit.correlation_with_default e =
       (Ok (combine Credit.CREDIT_NUMERIC_COLS l), e).
Proof.
  intros H.
  destruct (numeric_cols_in _ _ (Credit.target_col e) H) as [t [Ht Htn]];
    [apply in_or_app; right; now left |].
  destruct (traverse_ok_ex
              (fun col => a <~ getitem (Credit.df e) col ;;
                          b <~ getitem (Credit.df e) (Credit.target_col e) ;;
                          corr a b)
              Credit.CREDIT_NUMERIC_COLS) as [l Hl].
  { intros col Hc.
    destruct (numeric_cols_in _ _ col H) as [a [Ha Han]];
      [apply in_or_app; now left |].
    destruct (corr_ok a t Han Htn) as [xs [ys [v [_ [_ [Hv _]]]]]].
    rewrite Ha, Ht. simpl. eauto. }
  exists t, l. split; [exact Ht |]. split; [exact Htn |]. split.
  - eapply Forall2_impl; [| apply (traverse_Forall2 _ _ _ Hl)].
    intros col v Hv. cbv beta in Hv.
    destruct (getitem (Credit.df e) col); [| exact Hv].
    rewrite Ht in Hv. exact Hv.
  - rewrite correlation_with_default_run, Hl. reflexivity.
Qed.

(** X1.  When its four steps succeed on a report object,
    [credit_history_report] returns a dict with exactly the keys
    "structure_summary", "dti_buckets", "revol_util_buckets",
    "correlation_with_default", in this order, holding the structure
    table, the five-bucket reports of [dti] and [revol_util], and the
    correlations. *)
Theorem credit_history_report_result observed e r1 r2 r3 r4 :
  result_of Credit.credit_structure_summary e = Ok r1 ->
  result_of (Credit.default_rate_by_bucket observed "dti" 5) e = Ok r2 ->
  result_of (Credit.default_rate_by_bucket observed "revol_util" 5) e
  = Ok r3 ->
  result_of Credit.correlation_with_default e = Ok r4 ->
  Credit.credit_history_report observed e =
  (Ok [ ("structure_summary", Credit.AStructure r1);
        ("dti_buckets", Credit.ABuckets r2);
        ("revol_util_buckets", Credit.ABuckets r3);
        ("correlation_with_default", Credit.ACorr r4) ],
   e).
Proof.
  intros H1 H2 H3 H4.
  unfold Credit.credit_history_report, Credit.step_name.
  simpl for_setitem.
  rewrite bind_readonly
    by (apply credit_callable_readonly, credit_structure_summary_readonly).
  rewrite credit_callable_result, H1. simpl.
  rewrite bind_readonly
    by (apply credit_callable_readonly, default_rate_by_bucket_readonly).
  rewrite credit_callable_result, H2. simpl.
  rewrite bind_readonly
    by (apply credit_callable_readonly, default_rate_by_bucket_readonly).
  rewrite credit_callable_result, H3. simpl.
  rewrite bind_readonly
    by (apply credit_callable_readonly, correlation_with_default_readonly).
  rewrite credit_callable_result, H4. reflexivity.
Qed.

Lemma credit_history_report_result_witness :
  exists d,
    Credit.credit_history_report false sample_credit = (Ok d, sample_credit)
    /\ keys d = ["structure_summary"; "dti_buckets"; "revol_util_buckets";
                 "correlation_with_default"].
Proof.
  destruct (credit_structure_summary_ok sample_credit eq_refl eq_refl)
    as [rows [H1 _]].
  destruct (default_rate_by_bucket_ok false "dti" 5 sample_credit
              _ _ eq_refl eq_refl ltac:(discriminate) eq_refl eq_refl)
    as [c2 [ts2 [_ [_ H2]]]].
  destruct (default_rate_by_bucket_ok false "revol_util" 5 sample_credit
              _ _ eq_refl eq_refl ltac:(discriminate) eq_refl eq_refl)
    as [c3 [ts3 [_ [_ H3]]]].
  destruct (correlation_with_default_ok sample_credit eq_refl)
    as [t [l [_ [_ [_ H4]]]]].
  eexists. split.
  - apply (credit_history_report_result false sample_credit);
      unfold result_of;
      [rewrite H1 | rewrite H2 | rewrite H3 | rewrite H4]; reflexivity.
  - reflexivity.
Defined.

Lemma for_setitem_first_err {S A V} (key : A -> string) (body : A -> M S V)
    pre x post s ex :
  (forall y, In y (pre ++ x :: post) -> readonly (body y)) ->
  (forall y, In y pre -> exists v, result_of (body y) s = Ok v) ->
  result_of (body x) s = Err ex ->
  forall d, for_setitem key body (pre ++ x :: post) d s = (Err ex, s).
Proof.
  induction pre as [| y pre IH]; intros Hro Hpre Hx d; simpl.
  - rewrite bind_readonly by (apply Hro; now left). now rewrite Hx.
  - rewrite bind_readonly by (apply Hro; now left).
    destruct (Hpre y) as [v Hv]; [now left |]. rewrite Hv.
    apply IH; [| | exact Hx].
    + intros z Hz. apply Hro. now right.
    + intros z Hz. apply Hpre. now right.
Qed.

(** X2.  Both pipelines run their steps in dict order and return the
    error of the first step that fails: when the steps before a step
    succeed and that step fails, its error is the result, whatever the
    later steps would do. *)
Theorem pipelines_return_first_error :
  (forall e pre step post ex,
      Borrower.borrower_eda_steps = pre ++ step :: post ->
      (forall y, In y pre -> exists v, result_of (snd y) e = Ok v) ->
      result_of (snd step) e = Err ex ->
      Borrower.run_borrower_eda_pipeline e = (Err ex, e))
  /\ (forall observed e pre step post ex,
         Credit.step_name observed = pre ++ step :: post ->
         (forall y, In y pre -> exists v, result_of (snd y) e = Ok v) ->
         result_of (snd step) e = Err ex ->
         Credit.credit_history_report observed e = (Err ex, e)).
Proof.
  split.
  - intros e pre step post ex Hsplit Hpre Hstep.
    unfold Borrower.run_borrower_eda_pipeline. rewrite Hsplit.
    apply for_setitem_first_err; [| exact Hpre | exact Hstep].
    intros y Hy. apply borrower_steps_readonly. now rewrite Hsplit.
  - intros observed e pre step post ex Hsplit Hpre Hstep.
    unfold Credit.credit_history_report. rewrite Hsplit.
    apply for_setitem_first_err; [| exact Hpre | exact Hstep].
    intros y Hy. apply (credit_steps_readonly observed). now rewrite Hsplit.
Qed.

Lemma pipelines_return_first_error_witness :
  Credit.credit_history_report false credit_text_dti =
  (Err TypeError, credit_text_dti).
Proof.
  destruct pipelines_return_first_error as [_ H].
  apply (H false credit_text_dti
           [("structure_summary",
              Credit.callable Credit.AStructure
                Credit.credit_structure_summary)]
           ("dti_buckets",
             Credit.callable Credit.ABuckets
               (Credit.default_rate_by_bucket false "dti" 5))
           [("revol_util_buckets",
              Credit.callable Credit.ABuckets
                (Credit.default_rate_by_bucket false "revol_util" 5));
            ("correlation_with_default",
              Credit.callable Credit.ACorr Credit.correlation_with_default)]).
  - reflexivity.
  - intros y [<- | []]. simpl. rewrite credit_callable_result.
    destruct (credit_structure_summary_ok credit_text_dti eq_refl eq_refl)
      as [rows [H1 _]].
    unfold result_of. rewrite H1. simpl. eauto.
  - simpl. rewrite credit_callable_result. unfold result_of.
    rewrite default_rate_by_bucket_run. reflexivity.
Defined.

(* ================================================================== *)
(** * Further properties: the rows of the structure tables             *)
(* ================================================================== *)

Lemma missing_plus_count s :
  sum_bool (isna s) + count s = length (values s).
Proof.
  unfold sum_bool, isna, count, dropna.
  induction (values s) as [| c l IH]; simpl; [reflexivity |].
  destruct c; simpl; lia.
Qed.

Lemma nunique_le_count s : nunique s <= count s.
Proof. apply unique_by_length. Qed.

Lemma nunique_zero s : nunique s = 0 <-> count s = 0.
Proof.
  unfold nunique, count, unique.
  destruct (dropna (values s)); simpl; split; auto; discriminate.
Qed.

(** X3.  On a well-formed dataset that has every borrower column, each
    row of [structure_summary] carries the dtype of its column, and its
    [n_unique] is the number of distinct non-missing values of the
    column: missing entries are not counted as a value, so [n_unique]
    plus [n_missing] never exceeds the number of rows, and [n_unique]
    is 0 exactly when every entry of the column is missing. *)
Theorem structure_summary_n_unique e :
  wf_df (Borrower.df e) = true ->
  has_cols (Borrower.df e) Borrower.BORROWER_COLS = true ->
  exists t,
    Borrower.structure_summary e = (Ok t, e)
    /\ Forall (fun r =>
                 exists s u,
                   getitem (Borrower.df e) (Borrower.column r) = Ok s
                   /\ Borrower.dtype r = dtypes s
                   /\ NoDup u
                   /\ (forall c, In c u <-> In c (values s) /\ c <> NA)
                   /\ Borrower.n_unique r = length u
                   /\ Borrower.n_unique r + Borrower.n_missing r
                      <= index_len (Borrower.df e)
                   /\ (Borrower.n_unique r = 0 <->
                       Borrower.n_missing r = index_len (Borrower.df e)))
              (rf_rows t).
Proof.
  intros Hwf Hcols.
  destruct (structure_summary_ok e Hcols) as [rows [Hrun Hrows]].
  eexists. split; [exact Hrun |]. simpl.
  eapply Forall2_Forall_right; [exact Hrows |].
  intros col r _ [s [Hs ->]]. simpl.
  destruct (wf_df_column _ _ _ Hwf Hs) as [Hlen _].
  pose proof (missing_plus_count s) as Hm.
  pose proof (nunique_le_count s) as Hu.
  pose proof (nunique_zero s) as Hz.
  exists s, (unique (dropna (values s))).
  split; [exact Hs |]. split; [reflexivity |].
  split; [apply unique_NoDup |].
  split; [intros c; rewrite unique_In; apply dropna_In |].
  split; [reflexivity |].
  rewrite <- Hlen. split; [lia |]. rewrite Hz. lia.
Qed.

Lemma structure_summary_n_unique_witness :
  exists t,
    Borrower.structure_summary sample_borrower = (Ok t, sample_borrower)
    /\ Forall (fun r =>
                 exists s u,
                   getitem sample_borrower_df (Borrower.column r) = Ok s
                   /\ Borrower.dtype r = dtypes s
                   /\ NoDup u
                   /\ (forall c, In c u <-> In c (values s) /\ c <> NA)
                   /\ Borrower.n_unique r = length u
                   /\ Borrower.n_unique r + Borrower.n_missing r <= 4
                   /\ (Borrower.n_unique r = 0 <->
                       Borrower.n_missing r = 4))
              (rf_rows t).
Proof.
  apply (structure_summary_n_unique sample_borrower); reflexivity.
Defined.

Lemma credit_row_inv d col s r :
  getitem d col = Ok s ->
  credit_row d col s = Ok r ->
  Credit.column r = col
  /\ Credit.dtype r = dtypes s
  /\ Credit.n_missing r = sum_bool (isna s)
  /\ Credit.missing_pct r = mean_bool (isna s)
  /\ if is_number (dtypes s)
     then exists xs,
         to_numeric TypeError (values s) = Ok xs
         /\ Credit.mean r = mean_floats xs
         /\ Credit.std r = std_floats xs
     else Credit.mean r = NaN /\ Credit.std r = RNaN.
Proof.
  intros G. unfold credit_row. rewrite (dtype_in_number d col s G).
  destruct (is_number (dtypes s)).
  - unfold Pd.mean, Pd.std.
    destruct (to_numeric TypeError (values s)) as [xs |]; simpl;
      [| discriminate].
    intros [= <-]. simpl. repeat (split; [reflexivity |]).
    exists xs. auto.
  - intros [= <-]. simpl. repeat split.
Qed.

Lemma credit_rows_inv e t :
  Credit.credit_structure_summary e = (Ok t, e) ->
  Forall (fun r => exists s,
              getitem (Credit.df e) (Credit.column r) = Ok s
              /\ credit_row (Credit.df e) (Credit.column r) s = Ok r)
         (rf_rows t).
Proof.
  rewrite credit_structure_summary_run.
  destruct (traverse _ Credit.CREDIT_NUMERIC_COLS) as [rows |] eqn:Hrows;
    simpl; [| discriminate].
  intros [= <-]. simpl.
  apply traverse_Forall2 in Hrows.
  eapply Forall2_Forall_right; [exact Hrows |].
  intros col r _ Hr. cbv beta in Hr.
  destruct (getitem (Credit.df e) col) as [s |] eqn:Hs; simpl in Hr;
    [| discriminate].
  destruct (credit_row_inv _ _ _ _ Hs Hr) as [Hc _].
  exists s. rewrite Hc. auto.
Qed.

Lemma sum_bool_le l : sum_bool l <= length l.
Proof. apply filter_length_le. Qed.

Lemma nat2Qc_nonneg n : (0 <= nat2Qc n)%Qc.
Proof.
  unfold nat2Qc, Qcle, Q2Qc. cbn [this]. rewrite !Qred_correct.
  unfold Qle. simpl. lia.
Qed.

Lemma nat2Qc_le n m : n <= m -> (nat2Qc n <= nat2Qc m)%Qc.
Proof.
  intros H. unfold nat2Qc, Qcle, Q2Qc. cbn [this]. rewrite !Qred_correct.
  unfold Qle. simpl. lia.
Qed.

Lemma ratio_unit n m : n <= m -> 0 < m -> unit_interval (ratio n m).
Proof.
  intros Hn Hm. unfold ratio, unit_interval.
  destruct m as [| m]; [lia |].
  eexists. split; [reflexivity |].
  apply Qc_div_unit;
    [apply nat2Qc_nonneg | now apply nat2Qc_le | now apply nat2Qc_pos].
Qed.

(** X4.  In every row that [credit_structure_summary] returns on a
    well-formed dataset, [n_missing] is the number of missing entries
    of the row's column, it never exceeds the number of rows of the
    dataset, and [missing_pct] is [n_missing] divided by the number of
    rows: a rate between 0 and 1 when the dataset has a row, NaN when
    it has none. *)
Theorem credit_structure_summary_missing_pct e t :
  wf_df (Credit.df e) = true ->
  Credit.credit_structure_summary e = (Ok t, e) ->
  Forall (fun r =>
            (exists s, getitem (Credit.df e) (Credit.column r) = Ok s
                       /\ Credit.n_missing r = sum_bool (isna s)
                       /\ Credit.n_missing r + count s
                          = index_len (Credit.df e))
            /\ Credit.n_missing r <= index_len (Credit.df e)
            /\ Credit.missing_pct r =
               ratio (Credit.n_missing r) (index_len (Credit.df e))
            /\ (0 < index_len (Credit.df e) ->
                unit_interval (Credit.missing_pct r))
            /\ (index_len (Credit.df e) = 0 -> Credit.missing_pct r = NaN))
         (rf_rows t).
Proof.
  intros Hwf Hrun.
  eapply Forall_impl; [| exact (credit_rows_inv e t Hrun)].
  intros r [s [Hs Hr]].
  destruct (credit_row_inv _ _ _ _ Hs Hr) as [_ [_ [Hn [Hp _]]]].
  destruct (wf_df_column _ _ _ Hwf Hs) as [Hlen _].
  pose proof (missing_plus_count s) as Hm.
  pose proof (sum_bool_le (isna s)) as Hle.
  rewrite isna_length in Hle.
  assert (Hratio : Credit.missing_pct r =
                   ratio (Credit.n_missing r) (index_len (Credit.df e))).
  { rewrite Hp, Hn, mean_bool_ratio, isna_length. now rewrite Hlen. }
  split; [exists s; repeat split; [exact Hs | exact Hn | lia] |].
  split; [lia |]. split; [exact Hratio |]. split.
  - intros Hpos. rewrite Hratio. apply ratio_unit; lia.
  - intros H0. rewrite Hratio, H0. reflexivity.
Qed.

Lemma credit_structure_summary_missing_pct_witness :
  exists t,
    Credit.credit_structure_summary sample_credit = (Ok t, sample_credit)
    /\ length (rf_rows t) = 29
    /\ Forall (fun r => Credit.n_missing r <= index_len sample_credit_df
                        /\ unit_interval (Credit.missing_pct r))
              (rf_rows t).
Proof.
  destruct (credit_structure_summary_ok sample_credit eq_refl eq_refl)
    as [rows [Hrun Hrows]].
  eexists. split; [exact Hrun |]. split.
  - simpl. symmetry. exact (Forall2_length Hrows).
  - eapply Forall_impl;
      [| exact (credit_structure_summary_missing_pct
                  sample_credit _ eq_refl Hrun)].
    intros r [_ [Hle [_ [Hu _]]]]. split; [exact Hle |].
    apply Hu. vm_compute. lia.
Defined.

Lemma mean_floats_nan xs : mean_floats xs = NaN <-> somes xs = [].
Proof.
  unfold mean_floats. destruct (somes xs); split; congruence.
Qed.


Lemma sqdev_squares v :
  sqdev v = Rsum (map (fun x => ((x - Rmean v) * (x - Rmean v))%R) v).
Proof.
  unfold sqdev, codev.
  now rewrite combine_diag_fst, combine_diag_snd, map_combine_diag.
Qed.

Lemma Rsum_squares_nonneg {A} (f : A -> R) l :
  (0 <= Rsum (map (fun x => (f x * f x)%R) l))%R.
Proof.
  induction l as [| x l IH]; simpl; [lra |].
  pose proof (Rle_0_sqr (f x)) as H. unfold Rsqr in H. lra.
Qed.

Lemma sqdev_nonneg v : (0 <= sqdev v)%R.
Proof.
  rewrite sqdev_squares.
  apply (Rsum_squares_nonneg (fun x => (x - Rmean v)%R)).
Qed.




(* ================================================================== *)
(** * Further properties: quantiles                                    *)
(* ================================================================== *)

(** ** Linear interpolation *)




(** ** The integer part of a position *)







(** ** Order statistics *)








(** ** Smallest and largest entry *)



(* ================================================================== *)
(** * Further properties: the income table                             *)
(* ================================================================== *)

Lemma income_summary_describe e s1 s2 :
  getitem (Borrower.df e) "annual_inc" = Ok s1 ->
  getitem (Borrower.df e) "annual_inc_joint" = Ok s2 ->
  Borrower.income_summary e =
  (t <~ describe {| index_len := index_len (Borrower.df e);
                    columns := [("annual_inc", s1);
                                ("annual_inc_joint", s2)] |} ;;
   Ok (T t),
   e).
Proof.
  intros H1 H2. rewrite income_summary_run.
  unfold getitem_list. simpl. rewrite H1, H2. reflexivity.
Qed.

Lemma describe_numeric_1d_ok s :
  wf_series s = true -> is_number (dtypes s) = true ->
  exists xs,
    to_numeric TypeError (values s) = Ok xs
    /\ length (somes xs) = count s
    /\ describe_numeric_1d s =
       Ok [SInt (count s);
           SFloat (mean_floats xs);
           SReal (std_floats xs);
           SFloat (min_floats xs);
           SFloat (quantile_floats xs (Q2Qc (1 # 4)));
           SFloat (quantile_floats xs (Q2Qc (1 # 2)));
           SFloat (quantile_floats xs (Q2Qc (3 # 4)));
           SFloat (max_floats xs)].
Proof.
  intros Hwf Hnum.
  destruct (to_numeric_ok TypeError _ (wf_number_no_text s Hwf Hnum))
    as [xs Hxs].
  destruct (to_numeric_somes _ _ _ Hxs) as [Hlen _].
  exists xs. split; [exact Hxs |]. split; [exact Hlen |].
  unfold describe_numeric_1d. rewrite Hxs. simpl. unfold count.
  now rewrite Hlen.
Qed.

(** X7.  On a well-formed dataset whose [annual_inc] and
    [annual_inc_joint] columns both have a number dtype,
    [income_summary] returns the transposed [describe] table: one row
    per income column, in this order, under the eight column heads
    count, mean, std, min, 25%, 50%, 75%, max; a row holds the eight
    statistics of its column, the first being the number of its
    non-missing entries. *)
Theorem income_summary_table e s1 s2 :
  wf_df (Borrower.df e) = true ->
  getitem (Borrower.df e) "annual_inc" = Ok s1 ->
  getitem (Borrower.df e) "annual_inc_joint" = Ok s2 ->
  is_number (dtypes s1) = true ->
  is_number (dtypes s2) = true ->
  exists r1 r2,
    describe_numeric_1d s1 = Ok r1
    /\ describe_numeric_1d s2 = Ok r2
    /\ length r1 = 8 /\ length r2 = 8
    /\ hd_error r1 = Some (SInt (count s1))
    /\ hd_error r2 = Some (SInt (count s2))
    /\ Borrower.income_summary e =
       (Ok {| t_index := ["annual_inc"; "annual_inc_joint"];
              t_columns := ["count"; "mean"; "std"; "min";
                            "25%"; "50%"; "75%"; "max"];
              t_data := [r1; r2] |},
        e).
Proof.
  intros Hwf H1 H2 N1 N2.
  destruct (wf_df_column _ _ _ Hwf H1) as [_ W1].
  destruct (wf_df_column _ _ _ Hwf H2) as [_ W2].
  destruct (describe_numeric_1d_ok s1 W1 N1) as [xs1 [_ [_ D1]]].
  destruct (describe_numeric_1d_ok s2 W2 N2) as [xs2 [_ [_ D2]]].
  eexists. eexists.
  split; [exact D1 |]. split; [exact D2 |].
  repeat (split; [reflexivity |]).
  rewrite (income_summary_describe e s1 s2 H1 H2).
  unfold describe, select_dtypes_number. cbn [columns filter snd].
  rewrite N1, N2. cbn [describe_numeric_cols]. rewrite D1, D2.
  reflexivity.
Qed.

Lemma income_summary_table_witness :
  exists r1 r2,
    hd_error r1 = Some (SInt 3)
    /\ hd_error r2 = Some (SInt 1)
    /\ Borrower.income_summary sample_borrower =
       (Ok {| t_index := ["annual_inc"; "annual_inc_joint"];
              t_columns := ["count"; "mean"; "std"; "min";
                            "25%"; "50%"; "75%"; "max"];
              t_data := [r1; r2] |},
        sample_borrower).
Proof.
  destruct (income_summary_table sample_borrower _ _
              eq_refl eq_refl eq_refl eq_refl eq_refl)
    as [r1 [r2 [_ [_ [_ [_ [C1 [C2 Hrun]]]]]]]].
  exists r1, r2. auto.
Defined.

Lemma value_counts_length s : length (value_counts s) = nunique s.
Proof.
  rewrite <- (length_map fst), (Permutation_length (value_counts_levels s)).
  reflexivity.
Qed.

(** X8.  [income_summary] describes number columns only, when there is
    one: an income column with another dtype is left out of the table
    without an error, and only when neither income column has a number
    dtype does the table hold both, under the heads count, unique, top,
    freq. *)
Theorem income_summary_non_numeric e s1 s2 :
  wf_df (Borrower.df e) = true ->
  getitem (Borrower.df e) "annual_inc" = Ok s1 ->
  getitem (Borrower.df e) "annual_inc_joint" = Ok s2 ->
  (is_number (dtypes s1) = true -> is_number (dtypes s2) = false ->
   exists r1,
     describe_numeric_1d s1 = Ok r1
     /\ Borrower.income_summary e =
        (Ok {| t_index := ["annual_inc"];
               t_columns := numeric_stats;
               t_data := [r1] |}, e))
  /\ (is_number (dtypes s1) = false -> is_number (dtypes s2) = true ->
      exists r2,
        describe_numeric_1d s2 = Ok r2
        /\ Borrower.income_summary e =
           (Ok {| t_index := ["annual_inc_joint"];
                  t_columns := numeric_stats;
                  t_data := [r2] |}, e))
  /\ (is_number (dtypes s1) = false -> is_number (dtypes s2) = false ->
      exists top1 freq1 top2 freq2,
        describe_categorical_1d s1 =
        [SInt (count s1); SInt (nunique s1); top1; freq1]
        /\ describe_categorical_1d s2 =
           [SInt (count s2); SInt (nunique s2); top2; freq2]
        /\ Borrower.income_summary e =
           (Ok {| t_index := ["annual_inc"; "annual_inc_joint"];
                  t_columns := ["count"; "unique"; "top"; "freq"];
                  t_data := [describe_categorical_1d s1;
                             describe_categorical_1d s2] |}, e)).
Proof.
  intros Hwf H1 H2.
  destruct (wf_df_column _ _ _ Hwf H1) as [_ W1].
  destruct (wf_df_column _ _ _ Hwf H2) as [_ W2].
  rewrite (income_summary_describe e s1 s2 H1 H2).
  unfold describe, select_dtypes_number. cbn [columns filter snd].
  split; [| split]; intros N1 N2; rewrite N1, N2.
  - destruct (describe_numeric_1d_ok s1 W1 N1) as [xs1 [_ [_ D1]]].
    eexists. split; [exact D1 |].
    cbn [describe_numeric_cols]. rewrite D1. reflexivity.
  - destruct (describe_numeric_1d_ok s2 W2 N2) as [xs2 [_ [_ D2]]].
    eexists. split; [exact D2 |].
    cbn [describe_numeric_cols]. rewrite D2. reflexivity.
  - assert (D : forall s, exists top freq,
                 describe_categorical_1d s =
                 [SInt (count s); SInt (nunique s); top; freq]).
    { intros s. unfold describe_categorical_1d.
      rewrite value_counts_length.
      destruct (value_counts s) as [| [top freq] l]; simpl; eauto. }
    destruct (D s1) as [top1 [freq1 D1]].
    destruct (D s2) as [top2 [freq2 D2]].
    exists top1, freq1, top2, freq2.
    split; [exact D1 |]. split; [exact D2 |].
    cbn [map snd fst]. rewrite D1, D2. reflexivity.
Qed.

Lemma income_summary_non_numeric_witness :
  exists r1,
    Borrower.income_summary income_text_joint =
    (Ok {| t_index := ["annual_inc"];
           t_columns := numeric_stats;
           t_data := [r1] |}, income_text_joint).
Proof.
  destruct (income_summary_non_numeric income_text_joint _ _
              eq_refl eq_refl eq_refl) as [H _].
  destruct (H eq_refl eq_refl) as [r1 [_ Hrun]].
  exists r1. exact Hrun.
Defined.






(* ================================================================== *)
(** * Further properties: how the frequency counts add up              *)
(* ================================================================== *)

Lemma list_sum_perm l l' : Permutation l l' -> list_sum l = list_sum l'.
Proof. induction 1; simpl; lia. Qed.

Lemma indicator_sum c u :
  NoDup u ->
  list_sum (map (fun v => if cell_eqb v c then 1 else 0) u) =
  if existsb (fun v => cell_eqb v c) u then 1 else 0.
Proof.
  induction 1 as [| x u Hx Hu IH]; simpl; [reflexivity |].
  rewrite IH. destruct (cell_eqb x c) eqn:E; simpl; [| reflexivity].
  apply cell_eqb_eq in E. subst x.
  destruct (existsb (fun v => cell_eqb v c) u) eqn:X; [| reflexivity].
  apply existsb_exists in X. destruct X as [y [Hy Hc]].
  apply cell_eqb_eq in Hc. subst y. contradiction.
Qed.

(** Each entry is counted under exactly one of the distinct values. *)
Lemma count_cells_sum u data :
  NoDup u -> (forall x, In x data -> In x u) ->
  list_sum (map (fun v => count_cell v data) u) = length data.
Proof.
  intros Hu. induction data as [| c data IH]; intros Hin.
  - unfold count_cell. simpl. apply list_sum_map_zero.
  - transitivity
      (list_sum (map (fun v => (if cell_eqb v c then 1 else 0)
                               + count_cell v data) u)).
    { f_equal. apply map_ext. intros v. unfold count_cell. simpl.
      destruct (cell_eqb v c); reflexivity. }
    rewrite list_sum_map_add, IH by (intros x Hx; apply Hin; now right).
    rewrite indicator_sum by exact Hu.
    assert (E : existsb (fun v => cell_eqb v c) u = true).
    { apply existsb_exists. exists c. split; [apply Hin; now left |].
      apply cell_eqb_refl. }
    rewrite E. reflexivity.
Qed.

(** The counts of [value_counts] add up to the number of non-missing
    entries. *)
Lemma value_counts_sum s : list_sum (map snd (value_counts s)) = count s.
Proof.
  unfold value_counts, count.
  rewrite (list_sum_perm _ _ (Permutation_map snd (sort_desc_perm _))).
  rewrite map_map. simpl.
  apply count_cells_sum; [apply unique_NoDup |].
  intros x Hx. now apply unique_In.
Qed.

Lemma prefix_of_sum (l full : list (cell * nat)) :
  prefix_of l full -> list_sum (map snd l) <= list_sum (map snd full).
Proof.
  intros [rest ->]. rewrite map_app, list_sum_app. lia.
Qed.

Lemma head_all {A} n (l : list A) :
  (Z.of_nat (length l) <= n)%Z -> head n l = l.
Proof.
  intros H. unfold head.
  assert (E : (0 <=? n)%Z = true) by (apply Z.leb_le; lia).
  rewrite E. apply firstn_all2. lia.
Qed.

Lemma StronglySorted_app_cross {A} (R : A -> A -> Prop) l r x y :
  StronglySorted R (l ++ r) -> In x l -> In y r -> R x y.
Proof.
  induction l as [| z l IH]; simpl; intros Hs Hx Hy; [contradiction |].
  inversion Hs as [| ? ? Hs' Hz]; subst.
  destruct Hx as [<- | Hx].
  - rewrite Forall_forall in Hz. apply Hz, in_or_app. now right.
  - now apply IH.
Qed.

(** A level that the head of [value_counts] leaves out occurs no more
    often than any level it lists. *)
Lemma head_most_frequent n s v :
  In v (values s) -> v <> NA ->
  ~ In v (map fst (head n (value_counts s))) ->
  Forall (fun vc => count_cell v (values s) <= snd vc)
         (head n (value_counts s)).
Proof.
  intros Hin Hna Hout.
  destruct (head_prefix n (value_counts s)) as [rest Hsplit].
  assert (Hv : In v (map fst (value_counts s))).
  { apply (Permutation_in _ (Permutation_sym (value_counts_levels s))).
    apply unique_In, dropna_In. auto. }
  apply in_map_iff in Hv. destruct Hv as [[v' c] [Hfst Hvc]].
  simpl in Hfst. subst v'.
  destruct (value_counts_entry s v c Hvc) as [_ [_ [Hc _]]].
  assert (Hrest : In (v, c) rest).
  { rewrite Hsplit in Hvc. apply in_app_or in Hvc.
    destruct Hvc as [Hl | Hr]; [| exact Hr].
    exfalso. apply Hout. apply in_map_iff. now exists (v, c). }
  assert (Hs : StronglySorted (fun a b : cell * nat => snd b <= snd a)
                 (head n (value_counts s) ++ rest)).
  { rewrite <- Hsplit. apply Sorted_StronglySorted;
      [| apply value_counts_sorted].
    intros a b d Hab Hbd. lia. }
  apply Forall_forall. intros x Hx. rewrite <- Hc.
  exact (StronglySorted_app_cross _ _ _ x (v, c) Hs Hx Hrest).
Qed.

(** X10.  For each of the three columns of [categorical_freqs], the
    counts listed add up to at most the number of non-missing entries
    of the column; a level left out of the list occurs no more often
    than any level listed; and when [max_levels] is at least the number
    of distinct values, nothing is left out: the list holds every
    level and its counts add up to the number of non-missing
    entries. *)
Theorem categorical_freqs_counts e max_levels d e' :
  Borrower.categorical_freqs max_levels e = (Ok d, e') ->
  Forall (fun kv =>
            exists s,
              getitem (Borrower.df e) (fst kv) = Ok s
              /\ list_sum (map snd (snd kv)) <= count s
              /\ (forall v,
                     In v (values s) -> v <> NA ->
                     ~ In v (map fst (snd kv)) ->
                     Forall (fun vc => count_cell v (values s) <= snd vc)
                            (snd kv))
              /\ ((Z.of_nat (nunique s) <= max_levels)%Z ->
                  length (snd kv) = nunique s
                  /\ list_sum (map snd (snd kv)) = count s
                  /\ forall v, In v (values s) -> v <> NA ->
                               In v (map fst (snd kv)))) d.
Proof.
  rewrite categorical_freqs_run.
  destruct (getitem _ "home_ownership") as [h |] eqn:Hh; simpl;
    [| discriminate].
  destruct (getitem _ "addr_state") as [a |] eqn:Ha; simpl; [| discriminate].
  destruct (getitem _ "purpose") as [p |] eqn:Hp; simpl; [| discriminate].
  intros [= <- _].
  assert (K : forall s,
             list_sum (map snd (head max_levels (value_counts s))) <= count s
             /\ (forall v,
                    In v (values s) -> v <> NA ->
                    ~ In v (map fst (head max_levels (value_counts s))) ->
                    Forall (fun vc => count_cell v (values s) <= snd vc)
                           (head max_levels (value_counts s)))
             /\ ((Z.of_nat (nunique s) <= max_levels)%Z ->
                 length (head max_levels (value_counts s)) = nunique s
                 /\ list_sum (map snd (head max_levels (value_counts s)))
                    = count s
                 /\ forall v, In v (values s) -> v <> NA ->
                              In v (map fst
                                      (head max_levels (value_counts s))))).
  { intros s. split; [| split].
    - rewrite <- value_counts_sum. apply prefix_of_sum, head_prefix.
    - intros v. apply head_most_frequent.
    - intros Hn. rewrite head_all by now rewrite value_counts_length.
      split; [apply value_counts_length |].
      split; [apply value_counts_sum |].
      intros v Hin Hna.
      apply (Permutation_in _ (Permutation_sym (value_counts_levels s))).
      apply unique_In, dropna_In. auto. }
  repeat constructor; simpl; eexists; (split; [eassumption | apply K]).
Qed.

Lemma categorical_freqs_counts_witness :
  exists d,
    Borrower.categorical_freqs 1 sample_borrower = (Ok d, sample_borrower)
    /\ Forall (fun kv =>
                 exists s,
                   getitem sample_borrower_df (fst kv) = Ok s
                   /\ list_sum (map snd (snd kv)) <= count s) d.
Proof.
  destruct (categorical_freqs_ok 1 sample_borrower eq_refl)
    as [h [a [p [_ [_ [_ Hrun]]]]]].
  eexists. split; [exact Hrun |].
  eapply Forall_impl;
    [| exact (categorical_freqs_counts sample_borrower 1 _ _ Hrun)].
  intros kv [s [Hs [Hsum _]]]. exists s. auto.
Defined.

(* ================================================================== *)
(** * Further properties: when a correlation is NaN                    *)
(* ================================================================== *)

Lemma valid_pairs_complete ex la lb xs ts :
  to_numeric ex la = Ok xs -> to_numeric ex lb = Ok ts ->
  map (fun p => (Num (fst p), Num (snd p))) (valid_pairs xs ts) =
  filter (fun p => is_num (fst p) && is_num (snd p)) (combine la lb).
Proof.
  revert lb xs ts. induction la as [| c la IH]; intros lb xs ts; simpl.
  - intros [= <-] _. reflexivity.
  - destruct c as [| q | t]; try discriminate;
      destruct (to_numeric ex la) as [xs' |] eqn:Ha; simpl; try discriminate;
      intros [= <-]; destruct lb as [| d lb]; simpl;
      try (intros [= <-]; reflexivity);
      destruct d as [| r | u]; try discriminate;
      destruct (to_numeric ex lb) as [ts' |] eqn:Hb; simpl; try discriminate;
      intros [= <-]; simpl; rewrite (IH lb xs' ts' eq_refl Hb); reflexivity.
Qed.

(** With fewer than two rows where both columns hold a number, [corr]
    returns NaN. *)
Lemma corr_few_rows a b v :
  corr a b = Ok v -> length (complete a b) < 2 -> v = RNaN.
Proof.
  unfold corr, complete.
  destruct (values a) as [| c la] eqn:Ea.
  - now intros [= <-].
  - destruct (to_numeric ValueError (c :: la)) as [xs |] eqn:Hxs;
      [| discriminate].
    cbn [rbind].
    destruct (to_numeric ValueError (values b)) as [ts |] eqn:Hts;
      [| discriminate].
    cbn [rbind].
    rewrite <- (valid_pairs_complete _ _ _ _ _ Hxs Hts).
    rewrite !length_map.
    destruct (length (valid_pairs xs ts) <? 1) eqn:E1.
    + now intros [= <-].
    + intros [= <-] H. unfold corrcoef. rewrite length_map.
      now apply Nat.ltb_lt in H; rewrite H.
Qed.

Lemma correlation_with_default_inv e r :
  Credit.correlation_with_default e = (Ok r, e) ->
  Forall (fun kv =>
            exists a t,
              getitem (Credit.df e) (fst kv) = Ok a
              /\ getitem (Credit.df e) (Credit.target_col e) = Ok t
              /\ corr a t = Ok (snd kv)) r.
Proof.
  rewrite correlation_with_default_run.
  destruct (traverse _ Credit.CREDIT_NUMERIC_COLS) as [l |] eqn:Hl;
    simpl; [| discriminate].
  intros [= <-].
  apply traverse_Forall2 in Hl.
  apply Forall_forall. intros [col v] Hin.
  pose proof (Forall2_combine_In _ _ _ _ _ Hl Hin) as H. cbv beta in H.
  simpl fst. simpl snd.
  destruct (getitem (Credit.df e) col) as [a |]; simpl in H; [| discriminate].
  destruct (getitem (Credit.df e) (Credit.target_col e)) as [t |];
    simpl in H; [| discriminate].
  exists a, t. repeat split. exact H.
Qed.

(** X11.  In the result of [correlation_with_default], the entry of a
    column is NaN whenever fewer than two rows hold a number in both
    the column and the target: a single complete row, or none, gives
    no correlation. *)
Theorem correlation_with_default_few_rows e r :
  Credit.correlation_with_default e = (Ok r, e) ->
  Forall (fun kv =>
            exists a t,
              getitem (Credit.df e) (fst kv) = Ok a
              /\ getitem (Credit.df e) (Credit.target_col e) = Ok t
              /\ (length (complete a t) < 2 -> snd kv = RNaN)) r.
Proof.
  intros Hrun.
  eapply Forall_impl; [| exact (correlation_with_default_inv e r Hrun)].
  intros kv [a [t [Ha [Ht Hc]]]]. exists a, t.
  split; [exact Ha |]. split; [exact Ht |].
  apply (corr_few_rows a t _ Hc).
Qed.

Lemma complete_length a b : length (complete a b) <= length (values b).
Proof.
  unfold complete.
  pose proof (filter_length_le
                (fun p : cell * cell => is_num (fst p) && is_num (snd p))
                (combine (values a) (values b))) as H.
  rewrite length_combine in H. lia.
Qed.

Lemma correlation_with_default_few_rows_witness :
  exists r,
    Credit.correlation_with_default credit_one_loan = (Ok r, credit_one_loan)
    /\ map fst r = Credit.CREDIT_NUMERIC_COLS
    /\ Forall (fun kv => snd kv = RNaN) r.
Proof.
  destruct (correlation_with_default_ok credit_one_loan eq_refl)
    as [t [l [_ [_ [Hl Hrun]]]]].
  eexists. split; [exact Hrun |]. split.
  - apply combine_fst_eq. symmetry. exact (Forall2_length Hl).
  - eapply Forall_impl;
      [| exact (correlation_with_default_few_rows _ _ Hrun)].
    intros kv [a [t' [_ [Ht H]]]]. apply H.
    change (Ok (numbers Int64 [1%Z]) = Ok t') in Ht. injection Ht as <-.
    pose proof (complete_length a (numbers Int64 [1%Z])) as Hle.
    simpl in Hle. lia.
Defined.

(* ================================================================== *)
(** * Further properties: the bucket report                            *)
(* ================================================================== *)

Lemma qcut_codes_length s bins c :
  qcut s bins = Ok c -> length (codes c) = length (values s).
Proof.
  unfold qcut. destruct (bins <? 0)%Z; [discriminate |].
  destruct (to_numeric TypeError (values s)) as [xs |] eqn:Hxs;
    [| discriminate].
  cbn [rbind]. pose proof (to_numeric_length _ _ _ Hxs) as Hlen.
  destruct (somes xs); intros [= <-]; cbn [codes bins_to_cuts];
    now rewrite length_map.
Qed.

Lemma existsb_filter_length {A} (f : A -> bool) l :
  existsb f l = true -> 0 < length (filter f l).
Proof.
  induction l as [| x l IH]; simpl; [discriminate |].
  destruct (f x); simpl; [lia | exact IH].
Qed.

(** The count and the mean of a 0/1 target over one group. *)
Lemma binary_group_rate (m : list (option Qc)) :
  Forall (fun o => o = Some 0%Qc \/ o = Some 1%Qc) m ->
  length (somes m) = length m
  /\ ((length (somes m) = 0 /\ mean_floats m = NaN)
      \/ (0 < length (somes m) /\ unit_interval (mean_floats m))).
Proof.
  intros Hb.
  assert (Hlen : length (somes m) = length m).
  { apply somes_length_full. eapply Forall_impl; [| exact Hb].
    intros o [-> | ->]; discriminate. }
  split; [exact Hlen |].
  destruct m as [| o m].
  - left. split; reflexivity.
  - right. split; [rewrite Hlen; simpl; lia |].
    apply mean_floats_binary; [exact Hb | discriminate].
Qed.

(** X13.  For a column with a number dtype, named neither "n_loans"
    nor "default_rate", and a 0/1 target with a number dtype,
    [default_rate_by_bucket] returns a frame whose columns are named
    [col], "n_loans" and "default_rate": the bucket column takes the
    name of the binned column.  In each row [default_rate] is a rate
    between 0 and 1 when the bucket has loans and NaN when [n_loans] is
    0; when [groupby] leaves out the categories without rows, every
    row has a loan. *)
Theorem default_rate_by_bucket_rates observed e col bins s t :
  wf_df (Credit.df e) = true ->
  getitem (Credit.df e) col = Ok s ->
  is_number (dtypes s) = true ->
  col <> "n_loans" ->
  col <> "default_rate" ->
  (1 <= bins)%Z ->
  getitem (Credit.df e) (Credit.target_col e) = Ok t ->
  is_number (dtypes t) = true ->
  is_binary t = true ->
  exists f,
    Credit.default_rate_by_bucket observed col bins e = (Ok f, e)
    /\ rf_columns f = [col; "n_loans"; "default_rate"]
    /\ Forall (fun r =>
                 (n_loans r = 0 /\ default_rate r = NaN)
                 \/ (0 < n_loans r /\ unit_interval (default_rate r)))
              (rf_rows f)
    /\ (observed = true -> Forall (fun r => 0 < n_loans r) (rf_rows f)).
Proof.
  intros Hwf Hs Hnum _ _ Hb Ht _ Hbin.
  assert (Hnt : no_text s = true)
    by (apply wf_number_no_text;
        [apply (wf_df_column _ _ _ Hwf Hs) | exact Hnum]).
  destruct (default_rate_by_bucket_ok observed col bins e s t
              Hs Hnt ltac:(lia) Ht (is_binary_no_text t Hbin))
    as [c [ts [Hc [Hts Hrun]]]].
  destruct (to_numeric_binary TypeError t Hbin) as [ts' [Hts' [Hlen Hall]]].
  rewrite Hts in Hts'. injection Hts' as <-.
  eexists. split; [exact Hrun |]. split; [reflexivity |].
  cbn [reset_index rf_rows ag_rows]. split.
  - apply Forall_forall. intros r Hr. apply in_map_iff in Hr.
    destruct Hr as [il [<- _]]. cbn [n_loans default_rate].
    apply binary_group_rate. now apply members_Forall.
  - intros ->. apply Forall_forall. intros r Hr. apply in_map_iff in Hr.
    destruct Hr as [il [<- Hil]]. cbn [n_loans].
    apply filter_In in Hil. destruct Hil as [_ Hex]. simpl in Hex.
    destruct (binary_group_rate (members (codes c) ts (fst il)))
      as [-> _]; [now apply members_Forall |].
    rewrite members_length.
    + now apply existsb_filter_length.
    + rewrite (qcut_codes_length s bins c Hc), Hlen.
      destruct (wf_df_column _ _ _ Hwf Hs) as [-> _].
      now destruct (wf_df_column _ _ _ Hwf Ht) as [-> _].
Qed.

Lemma default_rate_by_bucket_rates_witness :
  exists f,
    Credit.default_rate_by_bucket true "dti" 5 sample_credit
    = (Ok f, sample_credit)
    /\ rf_columns f = ["dti"; "n_loans"; "default_rate"]
    /\ Forall (fun r => 0 < n_loans r /\ unit_interval (default_rate r))
              (rf_rows f).
Proof.
  destruct (default_rate_by_bucket_rates true sample_credit "dti" 5 _ _
              eq_refl eq_refl eq_refl ltac:(discriminate)
              ltac:(discriminate) ltac:(discriminate)
              eq_refl eq_refl eq_refl)
    as [f [Hrun [Hcols [Hrates Hpos]]]].
  exists f. split; [exact Hrun |]. split; [exact Hcols |].
  specialize (Hpos eq_refl).
  rewrite Forall_forall in Hrates, Hpos. apply Forall_forall.
  intros r Hr. split; [now apply Hpos |].
  destruct (Hrates r Hr) as [[H0 _] | [_ Hu]]; [| exact Hu].
  specialize (Hpos r Hr). lia.
Defined.

(* ================================================================== *)
(** * Further properties: the order of the category keys               *)
(* ================================================================== *)

Lemma cell_leb_total a b : cell_leb a b = false -> cell_leb b a = true.
Proof.
  destruct a as [| p | s], b as [| q | u]; simpl; try congruence.
  - intros H. apply Qc_leb_le. now apply Qc_leb_total.
  - intros H. destruct (String.leb_total s u) as [E | E]; congruence.
Qed.

Lemma insert_cell_sorted x l :
  Sorted (fun a b => cell_leb a b = true) l ->
  Sorted (fun a b => cell_leb a b = true) (insert_cell x l).
Proof.
  induction 1 as [| y l Hs IH Hhd]; simpl; [repeat constructor |].
  destruct (cell_leb x y) eqn:E.
  - repeat constructor; assumption.
  - apply cell_leb_total in E. constructor; [exact IH |].
    destruct l as [| z l]; simpl.
    + now constructor.
    + inversion Hhd; subst. destruct (cell_leb x z); now constructor.
Qed.

Lemma sort_cells_sorted l :
  Sorted (fun a b => cell_leb a b = true) (sort_cells l).
Proof.
  induction l as [| x l IH]; simpl; [constructor |].
  now apply insert_cell_sorted.
Qed.

(** X16.  The keys of [default_rate_by_category] come in ascending
    order (numbers by value, text in lexicographic order, numbers
    before text).  The entry of a key is the mean of the target over
    the rows of that key that have a target: missing target entries are
    skipped, and the entry is NaN exactly when no row of the key has a
    target. *)
Theorem default_rate_by_category_sorted e col k t :
  getitem (Borrower.df e) col = Ok k ->
  getitem (Borrower.df e) (Borrower.target_col e) = Ok t ->
  no_text t = true ->
  exists r ts,
    Borrower.default_rate_by_category col e = (Ok r, e)
    /\ to_numeric TypeError (values t) = Ok ts
    /\ Sorted (fun a b => cell_leb a b = true) (map fst r)
    /\ Forall (fun kv =>
                 snd kv = mean_floats (rows_where (fst kv) (values k) ts)
                 /\ (snd kv = NaN <->
                     somes (rows_where (fst kv) (values k) ts) = [])) r.
Proof.
  intros Hk Ht Hnt.
  destruct (default_rate_by_category_ok col e k t Hk Ht Hnt)
    as [ts [Hts Hrun]].
  eexists. exists ts. split; [exact Hrun |]. split; [exact Hts |].
  set (labels := sort_cells (unique (dropna (values k)))).
  split.
  - rewrite map_map. cbn [fst]. rewrite enumerate_snd.
    apply sort_cells_sorted.
  - apply Forall_forall. intros kv Hkv.
    apply in_map_iff in Hkv. destruct Hkv as [[i label] [<- Hin]].
    cbn [fst snd]. apply enumerate_nth in Hin.
    assert (Hl : In label (values k) /\ label <> NA)
      by (apply group_labels_In; eapply nth_error_In; exact Hin).
    destruct Hl as [Hl Hna].
    rewrite (members_rows_where labels i label);
      [| apply group_labels_NoDup | exact Hin | exact Hna].
    split; [reflexivity | apply mean_floats_nan].
Qed.

Lemma default_rate_by_category_sorted_witness :
  exists r,
    Borrower.default_rate_by_category "home_ownership" sample_borrower
    = (Ok r, sample_borrower)
    /\ map fst r = [Str "OWN"; Str "RENT"].
Proof.
  destruct (default_rate_by_category_sorted sample_borrower "home_ownership"
              _ _ eq_refl eq_refl eq_refl) as [r [ts [Hrun _]]].
  exists r. split; [exact Hrun |].
  destruct (default_rate_by_category_ok "home_ownership" sample_borrower
              _ _ eq_refl eq_refl eq_refl) as [ts' [_ Hrun']].
  rewrite Hrun in Hrun'. injection Hrun' as ->. reflexivity.
Defined.

(* ================================================================== *)
(** * Further properties: buckets without loans                        *)
(* ================================================================== *)

Lemma all_present_no_text t : all_present t = true -> no_text t = true.
Proof.
  unfold no_text, all_present. rewrite !forallb_forall.
  intros H c Hc. specialize (H c Hc). now destruct c.
Qed.

Lemma existsb_filter_nonempty {A} (f : A -> bool) l :
  existsb f l = negb (length (filter f l) =? 0).
Proof.
  induction l as [| x l IH]; simpl; [reflexivity |].
  destruct (f x); simpl; [reflexivity | exact IH].
Qed.

Lemma filter_map_comm {A B} (F : A -> B) (P : B -> bool) l :
  filter P (map F l) = map F (filter (fun x => P (F x)) l).
Proof.
  induction l as [| x l IH]; simpl; [reflexivity |].
  destruct (P (F x)); simpl; now rewrite IH.
Qed.

(** X17.  The two settings of [groupby]'s [observed] option change
    [default_rate_by_bucket] in one way only: for a column with a
    number dtype, named neither "n_loans" nor "default_rate", and a
    target with a number dtype that has nothing missing, the report
    that leaves out the categories without rows is the report that
    keeps them minus its rows with [n_loans = 0], in the same order,
    and both have the same columns. *)
Theorem default_rate_by_bucket_observed e col bins s t :
  wf_df (Credit.df e) = true ->
  getitem (Credit.df e) col = Ok s ->
  is_number (dtypes s) = true ->
  col <> "n_loans" ->
  col <> "default_rate" ->
  (1 <= bins)%Z ->
  getitem (Credit.df e) (Credit.target_col e) = Ok t ->
  is_number (dtypes t) = true ->
  all_present t = true ->
  exists kept dropped,
    Credit.default_rate_by_bucket false col bins e = (Ok kept, e)
    /\ Credit.default_rate_by_bucket true col bins e = (Ok dropped, e)
    /\ rf_columns dropped = rf_columns kept
    /\ rf_rows dropped =
       filter (fun r => negb (n_loans r =? 0)) (rf_rows kept).
Proof.
  intros Hwf Hs Hnum _ _ Hb Ht _ Hall.
  assert (Hnt : no_text s = true)
    by (apply wf_number_no_text;
        [apply (wf_df_column _ _ _ Hwf Hs) | exact Hnum]).
  destruct (to_numeric_all_present TypeError t Hall)
    as [ts [Hts [Hlen Hsome]]].
  pose proof (all_present_no_text t Hall) as Hntt.
  destruct (default_rate_by_bucket_ok false col bins e s t
              Hs Hnt ltac:(lia) Ht Hntt) as [c [ts1 [Hc [Hts1 Hrun1]]]].
  destruct (default_rate_by_bucket_ok true col bins e s t
              Hs Hnt ltac:(lia) Ht Hntt) as [c' [ts2 [Hc' [Hts2 Hrun2]]]].
  rewrite Hc in Hc'. injection Hc' as <-.
  rewrite Hts in Hts1, Hts2. injection Hts1 as <-. injection Hts2 as <-.
  eexists. eexists. split; [exact Hrun1 |]. split; [exact Hrun2 |].
  split; [reflexivity |].
  cbn [reset_index rf_rows ag_rows].
  rewrite (forallb_filter_id
             (fun il : nat * (Qc * Qc) =>
                negb false || existsb (in_group (fst il)) (codes c)))
    by (apply forallb_forall; intros; reflexivity).
  cbn [negb orb]. rewrite filter_map_comm. f_equal. apply filter_ext.
  intros il. cbn [n_loans].
  rewrite somes_length_full by now apply members_Forall.
  rewrite members_length.
  - apply existsb_filter_nonempty.
  - rewrite (qcut_codes_length s bins c Hc), Hlen.
    destruct (wf_df_column _ _ _ Hwf Hs) as [-> _].
    now destruct (wf_df_column _ _ _ Hwf Ht) as [-> _].
Qed.

Lemma default_rate_by_bucket_observed_witness :
  exists kept dropped,
    Credit.default_rate_by_bucket false "dti" 5 sample_credit
    = (Ok kept, sample_credit)
    /\ Credit.default_rate_by_bucket true "dti" 5 sample_credit
       = (Ok dropped, sample_credit)
    /\ rf_columns dropped = rf_columns kept
    /\ rf_rows dropped =
       filter (fun r => negb (n_loans r =? 0)) (rf_rows kept).
Proof.
  exact (default_rate_by_bucket_observed sample_credit "dti" 5 _ _
           eq_refl eq_refl eq_refl ltac:(discriminate) ltac:(discriminate)
           ltac:(discriminate) eq_refl eq_refl eq_refl).
Defined.

(* ================================================================== *)
(** * Further properties: how many levels are listed                   *)
(* ================================================================== *)

Lemma head_length_exact {A} n (l : list A) :
  length (head n l) =
  if (0 <=? n)%Z then Nat.min (Z.to_nat n) (length l)
  else length l - Z.to_nat (- n).
Proof.
  unfold head. destruct (0 <=? n)%Z; rewrite length_firstn; lia.
Qed.

(** X18.  [categorical_freqs] lists, for each column,
    [min max_levels d] levels when [max_levels] is not negative, [d]
    being the number of distinct non-missing values of the column, and
    all but the [- max_levels] least frequent levels when it is
    negative (none when the column has no more than that): with
    [max_levels = 0] every list is empty. *)
Theorem categorical_freqs_lengths e max_levels d e' :
  Borrower.categorical_freqs max_levels e = (Ok d, e') ->
  Forall (fun kv =>
            exists s,
              getitem (Borrower.df e) (fst kv) = Ok s
              /\ length (snd kv) =
                 if (0 <=? max_levels)%Z
                 then Nat.min (Z.to_nat max_levels) (nunique s)
                 else nunique s - Z.to_nat (- max_levels)) d.
Proof.
  rewrite categorical_freqs_run.
  destruct (getitem _ "home_ownership") as [h |] eqn:Hh; simpl;
    [| discriminate].
  destruct (getitem _ "addr_state") as [a |] eqn:Ha; simpl; [| discriminate].
  destruct (getitem _ "purpose") as [p |] eqn:Hp; simpl; [| discriminate].
  intros [= <- _].
  repeat constructor; simpl; eexists; (split; [eassumption |]);
    now rewrite head_length_exact, value_counts_length.
Qed.

Lemma categorical_freqs_lengths_witness :
  exists d,
    Borrower.categorical_freqs (-1) sample_borrower = (Ok d, sample_borrower)
    /\ map (fun kv => length (snd kv)) d = [1; 0; 1].
Proof.
  destruct (categorical_freqs_ok (-1) sample_borrower eq_refl)
    as [h [a [p [Hh [Ha [Hp Hrun]]]]]].
  eexists. split; [exact Hrun |].
  pose proof (categorical_freqs_lengths sample_borrower (-1) _ _ Hrun) as H.
  inversion H as [| ? ? [s1 [G1 L1]] H'']; subst.
  inversion H'' as [| ? ? [s2 [G2 L2]] H3]; subst.
  inversion H3 as [| ? ? [s3 [G3 L3]] _]; subst.
  cbn [fst snd] in *.
  rewrite G1 in Hh. rewrite G2 in Ha. rewrite G3 in Hp.
  injection Hh as <-. injection Ha as <-. injection Hp as <-.
  cbn [map snd]. rewrite L1, L2, L3.
  change (Borrower.df sample_borrower) with sample_borrower_df in *.
  vm_compute in G1, G2, G3.
  injection G1 as <-. injection G2 as <-. injection G3 as <-.
  reflexivity.
Defined.

(* ================================================================== *)
(** * Further properties: every loan is counted                        *)
(* ================================================================== *)

(** With two distinct values in the column, every value that is
    present gets a category, however many bins are asked for. *)
Lemma kept_bins_cover s bins xs :
  no_text s = true ->
  to_numeric TypeError (values s) = Ok xs ->
  (1 <= bins)%Z ->
  2 <= nunique s ->
  let kept := kept_bins (quantile_edges s (Z.to_nat bins)) in
  forall v, In (Some v) xs ->
            exists j, cut_code kept (Some v) = Some j
                      /\ j < length kept - 1.
Proof.
  intros Hnt Hxs Hb Hn. cbv zeta. unfold quantile_edges. rewrite Hxs.
  assert (Hq : 0 < Z.to_nat bins) by lia.
  set (data := somes xs).
  set (edges := map (quantile data) (linspace01 (Z.to_nat bins))).
  set (lo := nth 0 (sort_asc data) 0%Qc).
  set (hi := nth (length (sort_asc data) - 1) (sort_asc data) 0%Qc).
  assert (Hlo : hd 0%Qc edges = lo) by apply quantile_edges_first.
  assert (Hhi : In hi edges) by now apply quantile_edges_last.
  assert (Hlen : length edges = Z.to_nat bins + 1)
    by (unfold edges; now rewrite length_map, linspace01_length).
  assert (Hbound : forall v, In v data -> (lo <= v)%Qc /\ (v <= hi)%Qc).
  { intros v Hv.
    assert (Hs : In v (sort_asc data))
      by (eapply Permutation_in; [symmetry; apply sort_asc_perm | exact Hv]).
    split; [apply sorted_first | apply sorted_last];
      auto using sort_asc_sorted. }
  assert (Htwo : 2 <= length (kept_bins edges)).
  { apply kept_bins_two. right.
    destruct (nunique_two_values s xs Hnt Hxs Hn)
      as [v1 [v2 [H1 [H2 Hne]]]].
    exists lo, hi. split; [| split; [exact Hhi |]].
    - rewrite <- Hlo. destruct edges; [simpl in Hlen; lia | now left].
    - intros Heq. apply Hne.
      destruct (Hbound v1 H1) as [A1 B1]. destruct (Hbound v2 H2) as [A2 B2].
      rewrite <- Heq in B1, B2.
      transitivity lo; [| symmetry]; now apply Qcle_antisym. }
  intros v Hv. apply somes_In in Hv.
  destruct (Hbound v Hv) as [A B].
  apply cut_code_in_range; [exact Htwo | |].
  - now rewrite kept_bins_hd, Hlo.
  - exists hi. split; [now apply kept_bins_In | exact B].
Qed.

(** What [qcut] returns for a column with a number present. *)
Lemma qcut_present s bins xs :
  to_numeric TypeError (values s) = Ok xs ->
  somes xs <> [] ->
  (0 <= bins)%Z ->
  let kept := kept_bins (quantile_edges s (Z.to_nat bins)) in
  qcut s bins = Ok {| codes := map (cut_code kept) xs;
                      categories := from_breaks kept |}.
Proof.
  intros Hxs Hne Hb. cbv zeta. unfold qcut, quantile_edges. rewrite Hxs.
  destruct (bins <? 0)%Z eqn:E; [apply Z.ltb_lt in E; lia |].
  cbn [rbind].
  destruct (somes xs) as [| d0 data'] eqn:Ed; [congruence |].
  rewrite <- Ed. now rewrite bins_to_cuts_eq.
Qed.

(** X19.  For a column with a number dtype, named neither "n_loans"
    nor "default_rate", that has two distinct values, whatever the
    number of bins from 1 on, and a target with a number dtype that has
    nothing missing, [default_rate_by_bucket] returns at most [bins]
    rows and their [n_loans] add up to the number of non-missing
    entries of [col]: every loan with a [col] value is counted in one
    bucket, also when the column has fewer distinct values than
    bins. *)
Theorem default_rate_by_bucket_covers observed e col bins s t :
  wf_df (Credit.df e) = true ->
  getitem (Credit.df e) col = Ok s ->
  is_number (dtypes s) = true ->
  col <> "n_loans" ->
  col <> "default_rate" ->
  (1 <= bins)%Z ->
  2 <= nunique s ->
  getitem (Credit.df e) (Credit.target_col e) = Ok t ->
  is_number (dtypes t) = true ->
  all_present t = true ->
  exists f,
    Credit.default_rate_by_bucket observed col bins e = (Ok f, e)
    /\ length (rf_rows f) <= Z.to_nat bins
    /\ list_sum (map n_loans (rf_rows f)) = count s.
Proof.
  intros Hwf Hs Hnum _ _ Hb Hn Ht _ Hall.
  assert (Hnt : no_text s = true)
    by (apply wf_number_no_text;
        [apply (wf_df_column _ _ _ Hwf Hs) | exact Hnum]).
  destruct (to_numeric_ok TypeError _ Hnt) as [xs Hxs].
  destruct (to_numeric_all_present TypeError t Hall)
    as [ts [Hts [Hlt Hfull]]].
  pose proof (all_present_no_text t Hall) as Hntt.
  destruct (default_rate_by_bucket_ok observed col bins e s t
              Hs Hnt ltac:(lia) Ht Hntt) as [c [ts' [Hc [Hts' Hrun]]]].
  rewrite Hts in Hts'. injection Hts' as <-.
  pose proof (kept_bins_cover s bins xs Hnt Hxs Hb Hn) as Hcover.
  cbv zeta in Hcover.
  pose proof (nunique_positive s xs Hxs ltac:(lia)) as Hne.
  rewrite (qcut_present s bins xs Hxs Hne ltac:(lia)) in Hc.
  injection Hc as <-.
  pose proof (kept_bins_length (quantile_edges s (Z.to_nat bins))) as Hkl.
  assert (Hel : length (quantile_edges s (Z.to_nat bins))
                = Z.to_nat bins + 1)
    by (unfold quantile_edges; rewrite Hxs;
        now rewrite length_map, linspace01_length).
  set (kept := kept_bins (quantile_edges s (Z.to_nat bins))) in *.
  cbn [codes categories] in Hrun.
  assert (Hlen : length ts = length (map (cut_code kept) xs)).
  { rewrite length_map, Hlt, (to_numeric_length _ _ _ Hxs).
    destruct (wf_df_column _ _ _ Hwf Hs) as [-> _].
    now destruct (wf_df_column _ _ _ Hwf Ht) as [-> _]. }
  eexists. split; [exact Hrun |].
  cbn [reset_index rf_rows ag_rows]. split.
  - rewrite length_map.
    etransitivity; [apply filter_length_le |].
    rewrite enumerate_length, from_breaks_length. lia.
  - rewrite map_map. cbn [n_loans].
    rewrite (map_ext _ (fun il =>
               length (filter (in_group (fst il))
                              (map (cut_code kept) xs)))).
    + rewrite list_sum_filter_zero.
      * rewrite <- (map_map fst
                      (fun i => length (filter (in_group i)
                                               (map (cut_code kept) xs)))).
        rewrite enumerate_fst, group_sizes_sum, from_breaks_length.
        rewrite codes_in_groups_count; [| reflexivity | exact Hcover].
        unfold count. now destruct (to_numeric_somes _ _ _ Hxs) as [-> _].
      * intros il _ H. apply orb_false_elim in H. destruct H as [_ H].
        now rewrite (filter_existsb_nil _ _ H).
    + intros il. rewrite somes_length_full by now apply members_Forall.
      now apply members_length.
Qed.

Lemma default_rate_by_bucket_covers_witness :
  nunique sample_credit_column < 5
  /\ exists f,
       Credit.default_rate_by_bucket false "dti" 5 sample_credit
       = (Ok f, sample_credit)
       /\ list_sum (map n_loans (rf_rows f)) = 5.
Proof.
  split; [vm_compute; lia |].
  destruct (default_rate_by_bucket_covers false sample_credit "dti" 5 _ _
              eq_refl eq_refl eq_refl ltac:(discriminate)
              ltac:(discriminate) ltac:(discriminate)
              ltac:(vm_compute; lia) eq_refl eq_refl eq_refl)
    as [f [Hrun [_ Hsum]]].
  exists f. split; [exact Hrun | exact Hsum].
Defined.
